(** * rpcs3/Emu/RSX/Common/ProgramStateCache.h

    A shallow embedding of [program_state_cache<backend_traits>] and of the
    helpers of namespace [program_hash_util], together with the properties
    of the cache that its design document states.

    Conventions.
    - [u32], [size_t] and [int] values are integers in [Z]; every
      conversion and every wrap-around of the source is written out.
    - A byte is a [Z]; a [void*] is seen through the bytes that can be read
      from it ([binary_view]).
    - A [std::unordered_map] is the list of its nodes in insertion order.
      Nodes are never erased, so a C++ reference to [I->second] is the
      position of the node.
    - Methods are computations in the monad [M]: they take the cache,
      return a value, the cache afterwards and the diagnostics and
      collaborator calls they made. *)

From Stdlib Require Import ZArith List Bool Lia Sorted.
From Stdlib Require String.
Import ListNotations.
Import String.StringSyntax.

Local Open Scope string_scope.
Local Open Scope list_scope.
Local Open Scope Z_scope.

(** ** Machine integers *)

Definition u32 (x : Z) : Z := x mod 2 ^ 32.
Definition size_t (x : Z) : Z := x mod 2 ^ 64.
Definition INT_MAX : Z := 2 ^ 31 - 1.

(** ** Raw memory *)

(** The bytes readable from a pointer: byte [i] is the one at [ptr + i]. *)
Definition binary_view := nat -> Z.

(** Host memory as seen from [vm::g_base_addr]: offset to byte. *)
Definition memory := Z -> Z.

(** [vm::base(addr)]: the host pointer of a guest address. *)
Definition vm_base (mem : memory) (addr : Z) : binary_view :=
  fun i => mem (addr + Z.of_nat i).

(** A heap block obtained from [malloc] and seen through its pointer. Reads
    past the block are not defined by C++; they yield 0 here and no result
    below depends on them. *)
Definition heap_view (block : list Z) : binary_view :=
  fun i => nth i block 0.

(** [memcpy(dst, src, n)] into a fresh block: the first [n] bytes of [src]. *)
Definition memcpy (src : binary_view) (n : nat) : list Z :=
  map src (seq 0 n).

(** Two views agree on their first [n] bytes. *)
Definition agree_upto (n : nat) (b1 b2 : binary_view) : Prop :=
  forall i, (i < n)%nat -> b1 i = b2 i.

Definition agree_uptob (n : nat) (b1 b2 : binary_view) : bool :=
  forallb (fun i => b1 i =? b2 i) (seq 0 n).

(** ** namespace program_hash_util *)

Module program_hash_util.

(** [fragment_program_utils::get_fragment_program_ucode_size] is declared
    in the header and defined elsewhere: it is a parameter, with the one
    property the cache relies on when it scans its own copy of a binary:
    the scan reads nothing past the length it returns. *)
Class fragment_program_utils := {
  get_fragment_program_ucode_size : binary_view -> nat;
  ucode_size_local : forall b1 b2,
    agree_upto (get_fragment_program_ucode_size b1) b1 b2 ->
    get_fragment_program_ucode_size b2 = get_fragment_program_ucode_size b1
}.

Fixpoint words_eqb (l1 l2 : list Z) : bool :=
  match l1, l2 with
  | [], [] => true
  | w1 :: t1, w2 :: t2 => (w1 =? w2) && words_eqb t1 t2
  | _, _ => false
  end.

(** Modelled from the spec: [vertex_program_compare::operator()] is only
    declared in the header. "Two binaries are equal iff identical length
    and identical word-for-word content." *)
Definition vertex_program_compare (binary1 binary2 : list Z) : bool :=
  words_eqb binary1 binary2.

Section fragment.
Context `{fragment_program_utils}.

(** The bytes of a binary up to its scanned length. *)
Definition valid_bytes (program : binary_view) : list Z :=
  memcpy program (get_fragment_program_ucode_size program).

(** Modelled from the spec: [fragment_program_compare::operator()] is
    only declared in the header. "Equality must compare the determined
    length first, then byte content up to that length." *)
Definition fragment_program_compare (binary1 binary2 : binary_view) : bool :=
  (get_fragment_program_ucode_size binary1 =? get_fragment_program_ucode_size binary2)%nat
  && agree_uptob (get_fragment_program_ucode_size binary1) binary1 binary2.

(** Modelled from the spec: [fragment_program_hash::operator()] is only
    declared in the header. "Hash must be computed only over the valid
    length." The mixing function [mix] is not fixed by the spec. *)
Definition fragment_program_hash (mix : list Z -> Z) (program : binary_view) : Z :=
  mix (valid_bytes program).

End fragment.

End program_hash_util.

(** ** std::unordered_map *)

Module unordered_map.

Section defs.
Context {K V : Type}.

(** The nodes, oldest first. *)
Definition t := list (K * V).

(** [find]: the position of the first node whose key the predicate
    accepts; [None] is [end()]. The predicate is [key_eq] applied to the
    key that is looked up. The standard requires the hash to agree with
    [key_eq] on equal keys, which makes the bucket structure
    unobservable. *)
Fixpoint find (eq_key : K -> bool) (m : t) : option nat :=
  match m with
  | [] => None
  | (k, _) :: m' => if eq_key k then Some O else option_map S (find eq_key m')
  end.

(** [it->second] *)
Definition second (d : V) (m : t) (it : nat) : V :=
  nth it (map snd m) d.

Definition first (m : t) (it : nat) : option K :=
  option_map fst (nth_error m it).

(** Assignment through a reference to a mapped value. *)
Fixpoint assign (it : nat) (v : V) (m : t) : t :=
  match m, it with
  | [], _ => []
  | (k, _) :: m', O => (k, v) :: m'
  | kv :: m', S it' => kv :: assign it' v m'
  end.

(** [operator[]]: the node of the key, created with a value-initialised
    mapped value when there is none. *)
Definition operator_index (eq_key : K -> bool) (k : K) (d : V) (m : t) : nat * t :=
  match find eq_key m with
  | Some it => (it, m)
  | None => (length m, m ++ [(k, d)])
  end.

Definition keys (m : t) : list K := map fst m.

End defs.

Arguments t : clear implicits.

End unordered_map.

(** ** Inputs of the cache *)

(** [RSXVertexProgram]: the cache reads [data], the instruction words. *)
Record RSXVertexProgram := { data : list Z }.

(** [RSXFragmentProgram]: the cache reads [addr], a guest address (u32). *)
Record RSXFragmentProgram := { addr : Z }.

(** ** The template argument *)

(** [backend_traits], as the comment above the class requires it: the types,
    the three static functions, and that a program record carries the [ID] it
    was compiled with in its [id] member (a [u32] in [pipeline_key]). The
    [_default] values are the value-initialised records that [operator[]]
    creates. *)
Class backend_traits := {
  pipeline_storage_type : Type;
  pipeline_properties : Type;
  vertex_program_type : Type;
  fragment_program_type : Type;
  extra_args : Type;

  vertex_program_default : vertex_program_type;
  fragment_program_default : fragment_program_type;
  pipeline_storage_default : pipeline_storage_type;

  vp_id : vertex_program_type -> Z;
  fp_id : fragment_program_type -> Z;
  FragmentConstantOffsetCache : fragment_program_type -> list Z;

(** [operator==] of [pipeline_properties] *)
properties_eqb : pipeline_properties -> pipeline_properties -> bool;
properties_eqb_eq : forall p q, properties_eqb p q = true <-> p = q;

recompile_vertex_program :
  RSXVertexProgram -> vertex_program_type -> Z -> vertex_program_type;
recompile_fragment_program :
  memory -> RSXFragmentProgram -> fragment_program_type -> Z -> fragment_program_type;
build_pipeline :
  vertex_program_type -> fragment_program_type -> pipeline_properties ->
  extra_args -> pipeline_storage_type;

recompile_vertex_program_id : forall p v ID,
  vp_id (recompile_vertex_program p v ID) = u32 ID;
recompile_fragment_program_id : forall mem p f ID,
  fp_id (recompile_fragment_program mem p f ID) = u32 ID
}.

(** ** SSE intrinsics used by the constant upload *)

(** [_mm_set_epi8(e15, ..., e0)]: byte 0 of the vector is the last argument. *)
Definition _mm_set_epi8 (e15 e14 e13 e12 e11 e10 e9 e8 e7 e6 e5 e4 e3 e2 e1 e0 : Z)
  : list Z :=
  [e0; e1; e2; e3; e4; e5; e6; e7; e8; e9; e10; e11; e12; e13; e14; e15].

(** [_mm_shuffle_epi8(a, b)]: byte [i] of the result is 0 when bit 7 of
    [b[i]] is set and [a[b[i] & 15]] otherwise. *)
Definition _mm_shuffle_epi8 (a b : list Z) : list Z :=
  map (fun sel => if Z.testbit sel 7 then 0 else nth (Z.to_nat (Z.land sel 15)) a 0) b.

(** [_mm_loadu_si128]: the 16 bytes at a host pointer. *)
Definition _mm_loadu_si128 (mem : memory) (p : Z) : list Z :=
  map (fun i => mem (p + Z.of_nat i)) (seq 0 16).

(** [gsl::span<f32>]: the host address of its first element, [data()],
    and the bytes of its elements. *)
Record span : Type := { span_data : Z; span_bytes : list Z }.

(** [_mm_stream_si128]: stores the 16 bytes of [v] at byte [pos] of the
    buffer [buf] that starts at host address [base]. The address of the
    store must be a multiple of 16: at any other address the instruction
    raises a general-protection exception and stores nothing ([None]). *)
Definition _mm_stream_si128 (base : Z) (buf : list Z) (pos : nat) (v : list Z)
  : option (list Z) :=
  if (base + Z.of_nat pos) mod 16 =? 0
  then Some (firstn pos buf ++ v ++ skipn (pos + 16) buf)
  else None.

(** ** How a call ends *)

Inductive completion (A : Type) : Type :=
| returned (a : A)
| thrown (what : String.string)      (* [throw], [gsl::narrow] failure *)
| contract_violation                 (* a failed [Expects] *)
| undefined_behaviour                (* e.g. [end()->second], signed overflow *)
| general_protection_fault.          (* a misaligned [_mm_stream_si128] *)

Arguments returned {A} a.
Arguments thrown {A} what.
Arguments contract_violation {A}.
Arguments undefined_behaviour {A}.
Arguments general_protection_fault {A}.

(** ** template<typename backend_traits> class program_state_cache *)

Module program_state_cache.
Import program_hash_util.

Section cache.
Context `{decoder : fragment_program_utils} `{backend : backend_traits}.

Record pipeline_key := {
  vertex_program_id : Z;       (* u32 *)
  fragment_program_id : Z;     (* u32 *)
  properties : pipeline_properties
}.

Definition pipeline_key_hash (std_hash_unsigned : Z -> Z)
    (std_hash_properties : pipeline_properties -> Z) (key : pipeline_key) : Z :=
  let hashValue := 0 in
  let hashValue := Z.lxor hashValue (std_hash_unsigned (vertex_program_id key)) in
  let hashValue := Z.lxor hashValue (std_hash_unsigned (fragment_program_id key)) in
  let hashValue := Z.lxor hashValue (std_hash_properties (properties key)) in
  hashValue.

Definition pipeline_key_compare (key1 key2 : pipeline_key) : bool :=
  (vertex_program_id key1 =? vertex_program_id key2)
  && (fragment_program_id key1 =? fragment_program_id key2)
  && properties_eqb (properties key1) (properties key2).

Definition binary_to_vertex_program := unordered_map.t (list Z) vertex_program_type.
(** The keys of the fragment map are the blocks the cache allocated. *)
Definition binary_to_fragment_program := unordered_map.t (list Z) fragment_program_type.

Record t := {
  m_next_id : Z;               (* size_t *)
  m_vertex_shader_cache : binary_to_vertex_program;
  m_fragment_shader_cache : binary_to_fragment_program;
  m_storage : unordered_map.t pipeline_key pipeline_storage_type
}.

(** [program_state_cache() = default] *)
Definition init : t :=
  {| m_next_id := 0;
     m_vertex_shader_cache := [];
     m_fragment_shader_cache := [];
     m_storage := [] |}.

(** What a method lets the outside see besides its result. *)
Inductive event : Type :=
| LOG_NOTICE (fmt : String.string) (args : list Z)
| LOG_ERROR (fmt : String.string)
| call_recompile_vertex_program (ID : Z)
| call_recompile_fragment_program (ID : Z)
| call_build_pipeline (key : pipeline_key).

(** *** The monad of the methods *)

Definition M (A : Type) : Type := t -> A * t * list event.

Definition ret {A} (a : A) : M A := fun c => (a, c, []).

Definition bind {A B} (x : M A) (f : A -> M B) : M B :=
  fun c =>
    let '(a, c1, e1) := x c in
    let '(b, c2, e2) := f a c1 in
    (b, c2, e1 ++ e2).

Definition this : M t := fun c => (c, c, []).
Definition emit (e : event) : M unit := fun c => (tt, c, [e]).

Definition set_vertex_shader_cache (m : binary_to_vertex_program) : M unit :=
  fun c => (tt, {| m_next_id := m_next_id c;
                   m_vertex_shader_cache := m;
                   m_fragment_shader_cache := m_fragment_shader_cache c;
                   m_storage := m_storage c |}, []).

Definition set_fragment_shader_cache (m : binary_to_fragment_program) : M unit :=
  fun c => (tt, {| m_next_id := m_next_id c;
                   m_vertex_shader_cache := m_vertex_shader_cache c;
                   m_fragment_shader_cache := m;
                   m_storage := m_storage c |}, []).

Definition set_storage (m : unordered_map.t pipeline_key pipeline_storage_type) : M unit :=
  fun c => (tt, {| m_next_id := m_next_id c;
                   m_vertex_shader_cache := m_vertex_shader_cache c;
                   m_fragment_shader_cache := m_fragment_shader_cache c;
                   m_storage := m |}, []).

(** [m_next_id++] *)
Definition next_id_post_increment : M Z :=
  fun c => (m_next_id c,
            {| m_next_id := size_t (m_next_id c + 1);
               m_vertex_shader_cache := m_vertex_shader_cache c;
               m_fragment_shader_cache := m_fragment_shader_cache c;
               m_storage := m_storage c |}, []).

Notation "x <- e ;; k" := (bind e (fun x => k))
  (at level 61, e at next level, right associativity).
Notation "e ;; k" := (bind e (fun _ => k))
  (at level 61, right associativity).

(** *** Key predicates handed to the maps *)

Definition vertex_key_eq (binary : list Z) : list Z -> bool :=
  fun k => vertex_program_compare k binary.

Definition fragment_key_eq (binary : binary_view) : list Z -> bool :=
  fun k => fragment_program_compare (heap_view k) binary.

Definition storage_key_eq (key : pipeline_key) : pipeline_key -> bool :=
  fun k => pipeline_key_compare k key.

(** [fragment_program_compare] on two keys of the fragment map. *)
Definition fragment_key_compare (k1 k2 : list Z) : bool :=
  fragment_program_compare (heap_view k1) (heap_view k2).

Definition vertex_program_at (c : t) (ref : nat) : vertex_program_type :=
  unordered_map.second vertex_program_default (m_vertex_shader_cache c) ref.

Definition fragment_program_at (c : t) (ref : nat) : fragment_program_type :=
  unordered_map.second fragment_program_default (m_fragment_shader_cache c) ref.

Definition pipeline_at (c : t) (ref : nat) : pipeline_storage_type :=
  unordered_map.second pipeline_storage_default (m_storage c) ref.

(** *** Private methods *)

(** [search_vertex_program]: the reference to the program and whether it
    was preexisting. *)
Definition search_vertex_program (rsx_vp : RSXVertexProgram) : M (nat * bool) :=
  c <- this ;;
  match unordered_map.find (vertex_key_eq (data rsx_vp)) (m_vertex_shader_cache c) with
  | Some it => ret (it, true)
  | None =>
      emit (LOG_NOTICE "VP not found in buffer!" []) ;;
      let '(new_shader, cache) :=
        unordered_map.operator_index (vertex_key_eq (data rsx_vp)) (data rsx_vp)
          vertex_program_default (m_vertex_shader_cache c) in
      set_vertex_shader_cache cache ;;
      ID <- next_id_post_increment ;;
      emit (call_recompile_vertex_program ID) ;;
      set_vertex_shader_cache
        (unordered_map.assign new_shader
           (recompile_vertex_program rsx_vp
              (unordered_map.second vertex_program_default cache new_shader) ID)
           cache) ;;
      ret (new_shader, false)
  end.

(** [search_fragment_program]. [mem] is guest memory at the time of the
    call. [malloc] is taken to succeed. *)
Definition search_fragment_program (mem : memory) (rsx_fp : RSXFragmentProgram)
  : M (nat * bool) :=
  c <- this ;;
  match unordered_map.find (fragment_key_eq (vm_base mem (addr rsx_fp)))
          (m_fragment_shader_cache c) with
  | Some it => ret (it, true)
  | None =>
      emit (LOG_NOTICE "FP not found in buffer!" []) ;;
      let fragment_program_size :=
        get_fragment_program_ucode_size (vm_base mem (addr rsx_fp)) in
      let fragment_program_ucode_copy :=
        memcpy (vm_base mem (addr rsx_fp)) fragment_program_size in
      let '(new_shader, cache) :=
        unordered_map.operator_index
          (fragment_key_eq (heap_view fragment_program_ucode_copy))
          fragment_program_ucode_copy
          fragment_program_default (m_fragment_shader_cache c) in
      set_fragment_shader_cache cache ;;
      ID <- next_id_post_increment ;;
      emit (call_recompile_fragment_program ID) ;;
      set_fragment_shader_cache
        (unordered_map.assign new_shader
           (recompile_fragment_program mem rsx_fp
              (unordered_map.second fragment_program_default cache new_shader) ID)
           cache) ;;
      ret (new_shader, false)
  end.

(** *** Public methods *)

Definition get_transform_program (rsx_vp : RSXVertexProgram) : M (completion nat) :=
  c <- this ;;
  match unordered_map.find (vertex_key_eq (data rsx_vp)) (m_vertex_shader_cache c) with
  | None => (* I == end(): return I->second *)
      ret undefined_behaviour
  | Some _ =>
      ret (thrown "Trying to get unknow transform program")
  end.

Definition get_shader_program (mem : memory) (rsx_fp : RSXFragmentProgram)
  : M (completion nat) :=
  c <- this ;;
  match unordered_map.find (fragment_key_eq (vm_base mem (addr rsx_fp)))
          (m_fragment_shader_cache c) with
  | Some it => ret (returned it)
  | None => ret (thrown "Trying to get unknow shader program")
  end.

(** The part of [getGraphicPipelineState] after the two stage lookups.
    [probe] says whether the pipeline table is searched. *)
Definition link_pipeline (probe : bool) (vertex_program fragment_program : nat)
    (pipelineProperties : pipeline_properties) (args : extra_args) : M nat :=
  c <- this ;;
  let key :=
    {| vertex_program_id := u32 (vp_id (vertex_program_at c vertex_program));
       fragment_program_id := u32 (fp_id (fragment_program_at c fragment_program));
       properties := pipelineProperties |} in
  match (if probe then unordered_map.find (storage_key_eq key) (m_storage c) else None) with
  | Some it => ret it
  | None =>
      emit (LOG_NOTICE "Add program :" []) ;;
      emit (LOG_NOTICE "*** vp id = %d" [vp_id (vertex_program_at c vertex_program)]) ;;
      emit (LOG_NOTICE "*** fp id = %d" [fp_id (fragment_program_at c fragment_program)]) ;;
      emit (call_build_pipeline key) ;;
      let built :=
        build_pipeline (vertex_program_at c vertex_program)
          (fragment_program_at c fragment_program) pipelineProperties args in
      let '(slot, storage) :=
        unordered_map.operator_index (storage_key_eq key) key
          pipeline_storage_default (m_storage c) in
      set_storage (unordered_map.assign slot built storage) ;;
      c' <- this ;;
      let '(slot', storage') :=
        unordered_map.operator_index (storage_key_eq key) key
          pipeline_storage_default (m_storage c') in
      set_storage storage' ;;
      ret slot'
  end.

Definition getGraphicPipelineState (mem : memory)
    (vertexShader : RSXVertexProgram) (fragmentShader : RSXFragmentProgram)
    (pipelineProperties : pipeline_properties) (args : extra_args) : M nat :=
  vp_search <- search_vertex_program vertexShader ;;
  fp_search <- search_fragment_program mem fragmentShader ;;
  let vertex_program := fst vp_search in
  let fragment_program := fst fp_search in
  let already_existing_fragment_program := snd fp_search in
  let already_existing_vertex_program := snd vp_search in
  link_pipeline (already_existing_fragment_program && already_existing_vertex_program)
    vertex_program fragment_program pipelineProperties args.

(** The variant the design document compares with: the pipeline table is
    searched whether or not a stage program was just compiled. *)
Definition getGraphicPipelineState_always_probe (mem : memory)
    (vertexShader : RSXVertexProgram) (fragmentShader : RSXFragmentProgram)
    (pipelineProperties : pipeline_properties) (args : extra_args) : M nat :=
  vp_search <- search_vertex_program vertexShader ;;
  fp_search <- search_fragment_program mem fragmentShader ;;
  link_pipeline true (fst vp_search) (fst fp_search) pipelineProperties args.

Definition get_fragment_constants_buffer_size (mem : memory)
    (fragmentShader : RSXFragmentProgram) : M Z :=
  c <- this ;;
  match unordered_map.find (fragment_key_eq (vm_base mem (addr fragmentShader)))
          (m_fragment_shader_cache c) with
  | Some it =>
      ret (size_t (Z.of_nat (length (FragmentConstantOffsetCache (fragment_program_at c it)))
                   * 4 * 4))
  | None =>
      emit (LOG_ERROR "Can't retrieve constant offset cache") ;;
      ret 0
  end.

Definition mask : list Z :=
  _mm_set_epi8 0xE 0xF 0xC 0xD
               0xA 0xB 0x8 0x9
               0x6 0x7 0x4 0x5
               0x2 0x3 0x0 0x1.

(** The loop of [fill_fragment_constans_buffer]. [dst_data] is the host
    address of the [f32] span and [dst_buffer] the bytes of its elements,
    [offset] counts [f32] elements; [subspan(offset, 4)] checks its range,
    and the store goes to [dst_data + 4 * offset]. *)
Fixpoint fill_loop (mem : memory) (fragment_addr : Z) (offsets : list Z)
    (offset : nat) (dst_data : Z) (dst_buffer : list Z) : completion (list Z) :=
  match offsets with
  | [] => returned dst_buffer
  | offset_in_fragment_program :: rest =>
      let data := u32 (fragment_addr + u32 offset_in_fragment_program) in
      let vector := _mm_loadu_si128 mem data in
      let shuffled_vector := _mm_shuffle_epi8 vector mask in
      if (offset + 4 <=? length dst_buffer / 4)%nat then
        match _mm_stream_si128 dst_data dst_buffer (4 * offset) shuffled_vector with
        | Some stored => fill_loop mem fragment_addr rest (offset + 4) dst_data stored
        | None => general_protection_fault
        end
      else contract_violation
  end.

(** The result is the bytes of the destination when the call returns. *)
Definition fill_fragment_constans_buffer (dst_buffer : span) (mem : memory)
    (fragment_program : RSXFragmentProgram) : M (completion (list Z)) :=
  c <- this ;;
  match unordered_map.find (fragment_key_eq (vm_base mem (addr fragment_program)))
          (m_fragment_shader_cache c) with
  | None => ret (returned (span_bytes dst_buffer))
  | Some it =>
      let size := Z.of_nat (length (FragmentConstantOffsetCache (fragment_program_at c it))) in
      if INT_MAX <? size then ret (thrown "narrowing_error")
      else if INT_MAX <? size * 16 then ret undefined_behaviour
      else if Z.of_nat (length (span_bytes dst_buffer)) <? size * 16
      then ret contract_violation
      else ret (fill_loop mem (addr fragment_program)
                  (FragmentConstantOffsetCache (fragment_program_at c it)) 0
                  (span_data dst_buffer) (span_bytes dst_buffer))
  end.

(** *** Vocabulary of the properties *)

(** The three parts of what a method call yields. *)
Definition value {A} (x : A * t * list event) : A := fst (fst x).
Definition cache_after {A} (x : A * t * list event) : t := snd (fst x).
Definition events {A} (x : A * t * list event) : list event := snd x.

(** The record a miss stores for a vertex binary. *)
Definition compiled_vertex (c : t) (rsx_vp : RSXVertexProgram) : vertex_program_type :=
  recompile_vertex_program rsx_vp vertex_program_default (m_next_id c).

(** The record a miss stores for a fragment binary. *)
Definition compiled_fragment (c : t) (mem : memory) (rsx_fp : RSXFragmentProgram)
  : fragment_program_type :=
  recompile_fragment_program mem rsx_fp fragment_program_default (m_next_id c).

(** What a client can make the cache do. The two stage lookups are private
    in the class; they are listed so that the properties also cover them
    on their own. *)
Inductive operation : Type :=
| resolve_vertex (rsx_vp : RSXVertexProgram)
| resolve_fragment (mem : memory) (rsx_fp : RSXFragmentProgram)
| get_or_build (mem : memory) (rsx_vp : RSXVertexProgram) (rsx_fp : RSXFragmentProgram)
    (props : pipeline_properties) (args : extra_args).

Definition perform (op : operation) : M unit :=
  match op with
  | resolve_vertex rsx_vp => _ <- search_vertex_program rsx_vp ;; ret tt
  | resolve_fragment mem rsx_fp => _ <- search_fragment_program mem rsx_fp ;; ret tt
  | get_or_build mem rsx_vp rsx_fp props args =>
      _ <- getGraphicPipelineState mem rsx_vp rsx_fp props args ;; ret tt
  end.

(** The cache and the events after a sequence of operations. *)
Definition run (ops : list operation) (c : t) : t * list event :=
  fold_left (fun acc op =>
               let '(_, c', es) := perform op (fst acc) in (c', snd acc ++ es))
            ops (c, []).

Definition reachable (c : t) : Prop := exists ops, fst (run ops init) = c.

(** The fragment binaries and the vertex binaries a history resolved. *)
Definition fragment_binaries (ops : list operation) : list binary_view :=
  flat_map (fun op =>
              match op with
              | resolve_vertex _ => []
              | resolve_fragment mem rsx_fp => [vm_base mem (addr rsx_fp)]
              | get_or_build mem _ rsx_fp _ _ => [vm_base mem (addr rsx_fp)]
              end) ops.

Definition vertex_binaries (ops : list operation) : list (list Z) :=
  flat_map (fun op =>
              match op with
              | resolve_vertex rsx_vp => [data rsx_vp]
              | resolve_fragment _ _ => []
              | get_or_build _ rsx_vp _ _ _ => [data rsx_vp]
              end) ops.

(** A binary with this content was resolved at some point of the history. *)
Definition fragment_resolved (ops : list operation) (binary : binary_view) : bool :=
  existsb (fun b => fragment_program_compare b binary) (fragment_binaries ops).

Definition vertex_resolved (ops : list operation) (binary : list Z) : bool :=
  existsb (fun b => vertex_program_compare b binary) (vertex_binaries ops).

(** An iterator is not [end()]. *)
Definition found (it : option nat) : bool :=
  match it with Some _ => true | None => false end.


(** How many times [build_pipeline] was invoked. *)
Definition build_count (es : list event) : nat :=
  length (filter (fun e => match e with call_build_pipeline _ => true | _ => false end) es).

(** Number of stage programs held by the cache. *)
Definition stage_program_count (c : t) : Z :=
  Z.of_nat (length (m_vertex_shader_cache c) + length (m_fragment_shader_cache c)).

(** The key [getGraphicPipelineState] composes from two stage programs. *)
Definition draw_key (c : t) (vertex_program fragment_program : nat)
    (props : pipeline_properties) : pipeline_key :=
  {| vertex_program_id := u32 (vp_id (vertex_program_at c vertex_program));
     fragment_program_id := u32 (fp_id (fragment_program_at c fragment_program));
     properties := props |}.

(** The pipeline of a draw request is already stored. *)
Definition pipeline_cached (mem : memory) (rsx_vp : RSXVertexProgram)
    (rsx_fp : RSXFragmentProgram) (props : pipeline_properties) (c : t) : bool :=
  match unordered_map.find (vertex_key_eq (data rsx_vp)) (m_vertex_shader_cache c),
        unordered_map.find (fragment_key_eq (vm_base mem (addr rsx_fp)))
          (m_fragment_shader_cache c) with
  | Some v, Some f =>
      match unordered_map.find (storage_key_eq (draw_key c v f props)) (m_storage c) with
      | Some _ => true
      | None => false
      end
  | _, _ => false
  end.

(** The slot and the table after [m_storage[key] = built]. *)
Definition stored_slot (c : t) (key : pipeline_key) : nat :=
  match unordered_map.find (storage_key_eq key) (m_storage c) with
  | Some j => j
  | None => length (m_storage c)
  end.

Definition stored_table (c : t) (key : pipeline_key) (built : pipeline_storage_type) :=
  match unordered_map.find (storage_key_eq key) (m_storage c) with
  | Some j => unordered_map.assign j built (m_storage c)
  | None => m_storage c ++ [(key, built)]
  end.

(** The cache with another pipeline table. *)
Definition with_storage (c : t) (m : unordered_map.t pipeline_key pipeline_storage_type) : t :=
  {| m_next_id := m_next_id c;
     m_vertex_shader_cache := m_vertex_shader_cache c;
     m_fragment_shader_cache := m_fragment_shader_cache c;
     m_storage := m |}.


(** Every record and both maps of [c] are still there in [c'], at the same
    place. *)
Definition records_kept (c c' : t) : Prop :=
  (exists more, m_vertex_shader_cache c' = m_vertex_shader_cache c ++ more)
  /\ (exists more, m_fragment_shader_cache c' = m_fragment_shader_cache c ++ more).

(** [x] is the [u32] of an identity the counter has handed out. *)
Definition minted (c : t) (x : Z) : Prop :=
  exists n, 0 <= n < stage_program_count c /\ x = u32 n.

(** The counter stands at the number of stage programs, and every identity
    in a record or in a pipeline key was handed out by it. *)
Definition identities_minted (c : t) : Prop :=
  m_next_id c = size_t (stage_program_count c)
  /\ (forall r, In r (map snd (m_vertex_shader_cache c)) -> minted c (vp_id r))
  /\ (forall r, In r (map snd (m_fragment_shader_cache c)) -> minted c (fp_id r))
  /\ (forall k, In k (unordered_map.keys (m_storage c)) ->
        minted c (vertex_program_id k) /\ minted c (fragment_program_id k)).

(** The identities of all stage programs, the vertex programs first. *)
Definition stage_ids (c : t) : list Z :=
  map vp_id (map snd (m_vertex_shader_cache c))
  ++ map fp_id (map snd (m_fragment_shader_cache c)).

(** How many times each recompilation collaborator was invoked. *)
Definition recompile_vertex_count (es : list event) : nat :=
  length (filter (fun e => match e with call_recompile_vertex_program _ => true | _ => false end)
            es).

Definition recompile_fragment_count (es : list event) : nat :=
  length (filter (fun e => match e with call_recompile_fragment_program _ => true | _ => false end)
            es).

(** Every stored pipeline was built from two records of the stage maps and
    sits under the key made of their identities and of the properties it
    was built with. *)
Definition pipelines_built (c : t) : Prop :=
  forall it key object,
    nth_error (m_storage c) it = Some (key, object) ->
    exists v f args,
      (v < length (m_vertex_shader_cache c))%nat
      /\ (f < length (m_fragment_shader_cache c))%nat
      /\ key = draw_key c v f (properties key)
      /\ object = build_pipeline (vertex_program_at c v) (fragment_program_at c f)
                    (properties key) args.

End cache.

(** No two nodes of a map have equal keys. *)
Definition distinct_keys {K V : Type} (key_eq : K -> K -> bool)
    (m : unordered_map.t K V) : Prop :=
  forall i j k1 k2,
    unordered_map.first m i = Some k1 -> unordered_map.first m j = Some k2 ->
    key_eq k1 k2 = true -> i = j.

End program_state_cache.

(** ** Byte order of an uploaded constant *)

(** Exchanges the two bytes of every 16-bit unit. *)
Fixpoint halfword_swap (v : list Z) : list Z :=
  match v with
  | a :: b :: rest => b :: a :: halfword_swap rest
  | _ => v
  end.

(** What the design document describes: the four bytes of every 32-bit lane
    reversed. *)
Fixpoint lane_reverse (v : list Z) : list Z :=
  match v with
  | a :: b :: c :: d :: rest => d :: c :: b :: a :: lane_reverse rest
  | _ => v
  end.

(** The value of four bytes read as a little-endian and as a big-endian
    32-bit word. *)
Definition le32 (bytes : list Z) : Z :=
  nth 0 bytes 0 + nth 1 bytes 0 * 2 ^ 8 + nth 2 bytes 0 * 2 ^ 16 + nth 3 bytes 0 * 2 ^ 24.

Definition be32 (bytes : list Z) : Z :=
  nth 3 bytes 0 + nth 2 bytes 0 * 2 ^ 8 + nth 1 bytes 0 * 2 ^ 16 + nth 0 bytes 0 * 2 ^ 24.

(** The 16 bytes the upload stores for the constant at [offset] of the
    fragment program at guest address [fragment_addr]. *)
Definition uploaded_constant (mem : memory) (fragment_addr offset : Z) : list Z :=
  halfword_swap (_mm_loadu_si128 mem (u32 (fragment_addr + u32 offset))).

(** Bytes [4 i .. 4 i + 3] of a vector. *)
Definition lane (i : nat) (v : list Z) : list Z := firstn 4 (skipn (4 * i) v).

(** A 32-bit word with its two 16-bit halves exchanged:
    [(w << 16) | (w >> 16)]. *)
Definition exchange_halves (w : Z) : Z := (w mod 2 ^ 16) * 2 ^ 16 + w / 2 ^ 16.

(** The 16 bytes the design document expects there. *)
Definition documented_constant (mem : memory) (fragment_addr offset : Z) : list Z :=
  lane_reverse (_mm_loadu_si128 mem (fragment_addr + offset)).

(** The upload as the design document describes it: for a resolved fragment
    program and a destination of at least 16 bytes per constant (at an
    address the store accepts), the destination ends up holding the
    documented constants one after the other. *)
Definition documented_upload `{program_hash_util.fragment_program_utils} `{backend_traits}
    (c : program_state_cache.t) (mem : memory) (fragment_program : RSXFragmentProgram)
    (dst_buffer : span) : Prop :=
  forall it,
    program_state_cache.get_shader_program mem fragment_program c = (returned it, c, []) ->
    let offsets :=
      FragmentConstantOffsetCache (program_state_cache.fragment_program_at c it) in
    (16 * length offsets <= length (span_bytes dst_buffer))%nat ->
    span_data dst_buffer mod 16 = 0 ->
    program_state_cache.fill_fragment_constans_buffer dst_buffer mem fragment_program c
    = (returned (flat_map (documented_constant mem (addr fragment_program)) offsets
                 ++ skipn (16 * length offsets) (span_bytes dst_buffer)), c, []).

(** ** A toy decoder and backend

    Small instances of the two template parameters, used to run the cache
    on concrete inputs. An instruction is 16 bytes; bit 0 of its byte 1
    marks the last instruction; an instruction whose byte 0 is 1 is followed
    by a 16-byte constant. *)

Module toy.
Import program_hash_util.

Fixpoint scan (fuel : nat) (b : binary_view) (inst : nat) : nat :=
  match fuel with
  | O => 16 * (inst + 1)
  | S fuel' =>
      if Z.testbit (b (16 * inst + 1)%nat) 0 then (16 * (inst + 1))%nat
      else scan fuel' b (S inst)
  end.

Definition ucode_size (b : binary_view) : nat := scan 64 b 0.

Definition constant_offsets (b : binary_view) : list Z :=
  flat_map (fun i => if b (16 * i)%nat =? 1 then [Z.of_nat (16 * (i + 1))] else [])
           (seq 0 (ucode_size b / 16)).

(** Guest memory holding [bytes] at [base] and 0 elsewhere. *)
Definition mem_of (base : Z) (bytes : list Z) : memory :=
  fun a => if a <? base then 0 else nth (Z.to_nat (a - base)) bytes 0.

(** Overwrites [mem] with [bytes] at [base]. *)
Definition poke (mem : memory) (base : Z) (bytes : list Z) : memory :=
  fun a => if (base <=? a) && (a <? base + Z.of_nat (length bytes))
           then nth (Z.to_nat (a - base)) bytes 0 else mem a.

Record program := { id : Z; code : list Z; offsets : list Z }.

Definition compile_vertex (p : RSXVertexProgram) (_ : program) (ID : Z) : program :=
  {| id := u32 ID; code := data p; offsets := [] |}.

Definition compile_fragment (mem : memory) (p : RSXFragmentProgram) (_ : program)
    (ID : Z) : program :=
  {| id := u32 ID;
     code := memcpy (vm_base mem (addr p)) (ucode_size (vm_base mem (addr p)));
     offsets := constant_offsets (vm_base mem (addr p)) |}.

(** A linked pipeline remembers what it was built from. *)
Definition link (v f : program) (props : Z) (_ : unit) : Z * Z * Z :=
  (id v, id f, props).

End toy.

Module toy_instances.
Import program_hash_util.

#[export] Instance decoder : fragment_program_utils.
Proof.
  refine {| get_fragment_program_ucode_size := toy.ucode_size; ucode_size_local := _ |}.
  assert (below : forall fuel b inst, (16 * inst + 1 < toy.scan fuel b inst)%nat).
  { induction fuel as [|fuel IH]; intros b inst; cbn [toy.scan]; [lia|].
    destruct (Z.testbit (b (16 * inst + 1)%nat) 0); [lia|].
    specialize (IH b (S inst)). lia. }
  assert (local : forall fuel b1 b2 inst,
             agree_upto (toy.scan fuel b1 inst) b1 b2 ->
             toy.scan fuel b2 inst = toy.scan fuel b1 inst).
  { induction fuel as [|fuel IH]; intros b1 b2 inst; cbn [toy.scan]; [reflexivity|].
    intros Hag.
    assert (Hb : b1 (16 * inst + 1)%nat = b2 (16 * inst + 1)%nat).
    { apply Hag. destruct (Z.testbit (b1 (16 * inst + 1)%nat) 0); [lia|].
      pose proof (below fuel b1 (S inst)). lia. }
    rewrite <- Hb. destruct (Z.testbit (b1 (16 * inst + 1)%nat) 0); [reflexivity|].
    now apply IH. }
  intros b1 b2. apply local.
Defined.

#[export] Instance backend : backend_traits :=
  {| pipeline_storage_type := Z * Z * Z;
     pipeline_properties := Z;
     vertex_program_type := toy.program;
     fragment_program_type := toy.program;
     extra_args := unit;
     vertex_program_default := {| toy.id := 0; toy.code := []; toy.offsets := [] |};
     fragment_program_default := {| toy.id := 0; toy.code := []; toy.offsets := [] |};
     pipeline_storage_default := (0, 0, 0);
     vp_id := toy.id;
     fp_id := toy.id;
     FragmentConstantOffsetCache := toy.offsets;
     properties_eqb := Z.eqb;
     properties_eqb_eq := Z.eqb_eq;
     recompile_vertex_program := toy.compile_vertex;
     recompile_fragment_program := toy.compile_fragment;
     build_pipeline := toy.link;
     recompile_vertex_program_id := fun _ _ _ => eq_refl;
     recompile_fragment_program_id := fun _ _ _ _ => eq_refl |}.

End toy_instances.

(** ** Two draws on the toy backend *)

Module scenario.
Import program_state_cache toy_instances.

Definition vertex_shader : RSXVertexProgram := {| data := [1; 2; 3] |}.

(** A 48-byte fragment program: an instruction that uses a constant, the
    constant (big-endian lanes 0x3F800000, 0x40000000, 0x40400000,
    0x40800000), the last instruction; two bytes of something else
    follow it in memory. *)
Definition fragment_bytes : list Z :=
  [1; 0; 0; 0;  0; 0; 0; 0;  0; 0; 0; 0;  0; 0; 0; 0;
   0x3F; 0x80; 0; 0;  0x40; 0; 0; 0;  0x40; 0x40; 0; 0;  0x40; 0x80; 0; 0;
   0; 1; 0; 0;  0; 0; 0; 0;  0; 0; 0; 0;  0; 0; 0; 0;
   0xAA; 0xBB].

Definition fragment_shader : RSXFragmentProgram := {| addr := 4096 |}.
Definition guest_memory : memory := toy.mem_of 4096 fragment_bytes.

(** The same program at another address, followed by other bytes. *)
Definition fragment_shader_moved : RSXFragmentProgram := {| addr := 8192 |}.
Definition guest_memory_moved : memory :=
  toy.mem_of 8192 (firstn 48 fragment_bytes ++ [0x11; 0x22; 0x33]).

(** A longer program: one more instruction before the last. *)
Definition fragment_shader_longer : RSXFragmentProgram := {| addr := 12288 |}.
Definition guest_memory_longer : memory :=
  toy.mem_of 12288 (firstn 32 fragment_bytes ++ repeat 0 16 ++ skipn 32 fragment_bytes).

Definition first_draw : operation :=
  get_or_build guest_memory vertex_shader fragment_shader 7 tt.

(** The cache after the first draw. *)
Definition after_first_draw : t := fst (run [first_draw] init).

(** A one-instruction fragment program whose constant lies behind the last
    instruction, and the memory after the game rewrote that constant. *)
Definition tail_bytes : list Z :=
  [1; 1; 0; 0;  0; 0; 0; 0;  0; 0; 0; 0;  0; 0; 0; 0;
   0; 0; 0x3F; 0x80;  0; 0; 0x40; 0;  0; 0; 0x40; 0x40;  0; 0; 0x40; 0x80].

Definition tail_shader : RSXFragmentProgram := {| addr := 16384 |}.
Definition memory_at_resolution : memory := toy.mem_of 16384 tail_bytes.

Definition after_tail_resolution : t :=
  cache_after (search_fragment_program memory_at_resolution tail_shader init).

(** A second draw: another vertex shader with the moved fragment program. *)
Definition second_draw : operation :=
  get_or_build guest_memory_moved {| data := [4; 5] |} fragment_shader_moved 7 tt.

(** The pipeline key of the first draw, and the same with the two
    identities exchanged. *)
Definition first_draw_key : pipeline_key :=
  {| vertex_program_id := 0; fragment_program_id := 1; properties := 7 |}.

Definition first_draw_key_exchanged : pipeline_key :=
  {| vertex_program_id := 1; fragment_program_id := 0; properties := 7 |}.

(** The memory of the trailing constant with other bytes behind it. *)
Definition memory_with_other_tail : memory :=
  toy.poke memory_at_resolution (16384 + 32) [0xDE; 0xAD].


(** Destinations of the upload: a span at a 16-byte aligned host address,
    and one that is only aligned as an array of [f32]. *)
Definition aligned_destination (bytes : list Z) : span :=
  {| span_data := 0x20000; span_bytes := bytes |}.

Definition misaligned_destination (bytes : list Z) : span :=
  {| span_data := 0x20004; span_bytes := bytes |}.


End scenario.

(** * Properties *)

(** ** Views and copies *)

Lemma agree_uptob_spec n b1 b2 :
  agree_uptob n b1 b2 = true <-> agree_upto n b1 b2.
Proof.
  unfold agree_uptob, agree_upto. rewrite forallb_forall. split.
  - intros Hall i Hi. apply Z.eqb_eq, Hall, in_seq. lia.
  - intros Hall i Hi. apply in_seq in Hi. apply Z.eqb_eq, Hall. lia.
Qed.

Lemma agree_upto_refl n b : agree_upto n b b.
Proof. now intros i _. Qed.

Lemma agree_upto_sym n b1 b2 : agree_upto n b1 b2 -> agree_upto n b2 b1.
Proof. intros Hab i Hi. symmetry. now apply Hab. Qed.

Lemma agree_upto_trans n b1 b2 b3 :
  agree_upto n b1 b2 -> agree_upto n b2 b3 -> agree_upto n b1 b3.
Proof. intros H12 H23 i Hi. rewrite H12 by assumption. now apply H23. Qed.

Lemma heap_view_memcpy src n : agree_upto n (heap_view (memcpy src n)) src.
Proof.
  intros i Hi. unfold heap_view, memcpy.
  rewrite (nth_indep _ 0 (src O)) by (rewrite length_map, length_seq; exact Hi).
  rewrite map_nth, seq_nth by exact Hi. reflexivity.
Qed.

Lemma memcpy_ext n b1 b2 : agree_upto n b1 b2 -> memcpy b1 n = memcpy b2 n.
Proof.
  intros Hab. unfold memcpy. apply map_ext_in. intros i Hi.
  apply in_seq in Hi. apply Hab. lia.
Qed.

(** ** Binary identity *)

Module program_hash_util_facts.
Import program_hash_util.

Lemma words_eqb_eq l1 l2 : words_eqb l1 l2 = true <-> l1 = l2.
Proof.
  revert l2. induction l1 as [|w1 t1 IH]; intros [|w2 t2]; simpl;
    try (split; [discriminate | discriminate]); [tauto|].
  rewrite andb_true_iff, Z.eqb_eq, IH. split.
  - intros [-> ->]. reflexivity.
  - intros E. injection E as -> ->. auto.
Qed.

Lemma vertex_program_compare_eq b1 b2 :
  vertex_program_compare b1 b2 = true <-> b1 = b2.
Proof. apply words_eqb_eq. Qed.

Lemma vertex_program_compare_refl b : vertex_program_compare b b = true.
Proof. now apply vertex_program_compare_eq. Qed.

Section fragment.
Context `{decoder : fragment_program_utils}.

Lemma fragment_program_compare_spec b1 b2 :
  fragment_program_compare b1 b2 = true <->
  get_fragment_program_ucode_size b1 = get_fragment_program_ucode_size b2
  /\ agree_upto (get_fragment_program_ucode_size b1) b1 b2.
Proof.
  unfold fragment_program_compare.
  now rewrite andb_true_iff, Nat.eqb_eq, agree_uptob_spec.
Qed.

Lemma fragment_program_compare_refl b : fragment_program_compare b b = true.
Proof. apply fragment_program_compare_spec. split; [reflexivity | apply agree_upto_refl]. Qed.

Lemma fragment_program_compare_sym b1 b2 :
  fragment_program_compare b1 b2 = true -> fragment_program_compare b2 b1 = true.
Proof.
  rewrite !fragment_program_compare_spec. intros [Hn Hb]. split; [easy|].
  rewrite <- Hn. now apply agree_upto_sym.
Qed.

Lemma fragment_program_compare_trans b1 b2 b3 :
  fragment_program_compare b1 b2 = true -> fragment_program_compare b2 b3 = true ->
  fragment_program_compare b1 b3 = true.
Proof.
  rewrite !fragment_program_compare_spec. intros [Hn Hb] [Hn' Hb']. split; [congruence|].
  rewrite <- Hn in Hb'. eapply agree_upto_trans; eassumption.
Qed.

Lemma fragment_program_compare_comm b1 b2 :
  fragment_program_compare b1 b2 = fragment_program_compare b2 b1.
Proof.
  destruct (fragment_program_compare b1 b2) eqn:E1, (fragment_program_compare b2 b1) eqn:E2;
    try reflexivity.
  - apply fragment_program_compare_sym in E1. congruence.
  - apply fragment_program_compare_sym in E2. congruence.
Qed.

(** Equal binaries are equal to the same stored keys. *)
Lemma fragment_program_compare_congr k b1 b2 :
  fragment_program_compare b1 b2 = true ->
  fragment_program_compare k b1 = fragment_program_compare k b2.
Proof.
  intros H12.
  destruct (fragment_program_compare k b1) eqn:E1, (fragment_program_compare k b2) eqn:E2;
    try reflexivity.
  - rewrite (fragment_program_compare_trans _ _ _ E1 H12) in E2. discriminate.
  - apply fragment_program_compare_sym in H12.
    rewrite (fragment_program_compare_trans _ _ _ E2 H12) in E1. discriminate.
Qed.

(** Bytes past the scanned length do not take part in the comparison. *)
Lemma fragment_program_compare_prefix b1 b2 :
  agree_upto (get_fragment_program_ucode_size b1) b1 b2 ->
  fragment_program_compare b1 b2 = true.
Proof.
  intros Hb. apply fragment_program_compare_spec. split; [|exact Hb].
  symmetry. now apply ucode_size_local.
Qed.

(** The block the cache allocates is equal to the binary it was copied
    from. *)
Lemma fragment_program_compare_copy b :
  fragment_program_compare (heap_view (valid_bytes b)) b = true.
Proof.
  apply fragment_program_compare_sym, fragment_program_compare_prefix.
  apply agree_upto_sym, heap_view_memcpy.
Qed.

Lemma valid_bytes_compare b1 b2 :
  fragment_program_compare b1 b2 = true -> valid_bytes b1 = valid_bytes b2.
Proof.
  intros [Hn Hb]%fragment_program_compare_spec. unfold valid_bytes.
  rewrite <- Hn. now apply memcpy_ext.
Qed.

(** The hash agrees with the comparison, as [std::unordered_map] needs. *)
Lemma fragment_program_hash_compare mix b1 b2 :
  fragment_program_compare b1 b2 = true ->
  fragment_program_hash mix b1 = fragment_program_hash mix b2.
Proof. intros E. unfold fragment_program_hash. now rewrite (valid_bytes_compare _ _ E). Qed.

End fragment.

End program_hash_util_facts.

(** ** The node list of a map *)

Module unordered_map_facts.
Import unordered_map.

Section facts.
Context {K V : Type}.
Implicit Types (m : t K V) (p q : K -> bool).

Lemma find_ext p q m : (forall k, p k = q k) -> find p m = find q m.
Proof.
  intros Hpq. induction m as [|[k v] m IH]; simpl; [reflexivity|].
  now rewrite Hpq, IH.
Qed.

Lemma find_Some p m it :
  find p m = Some it ->
  exists k v, nth_error m it = Some (k, v) /\ p k = true.
Proof.
  revert it. induction m as [|[k v] m IH]; simpl; intros it Hf; [discriminate|].
  destruct (p k) eqn:Ek.
  - injection Hf as <-. now exists k, v.
  - destruct (find p m) as [j|]; [|discriminate]. injection Hf as <-.
    simpl. now apply IH.
Qed.

Lemma find_Some_lt p m it : find p m = Some it -> (it < length m)%nat.
Proof.
  intros (k & v & Hn & _)%find_Some. apply nth_error_Some. now rewrite Hn.
Qed.

Lemma find_None p m :
  find p m = None <-> (forall k, In k (keys m) -> p k = false).
Proof.
  induction m as [|[k v] m IH]; simpl.
  - split; [intros _ k [] | reflexivity].
  - destruct (p k) eqn:Ek.
    + split; [discriminate|]. intros Hall. rewrite Hall in Ek by auto. discriminate.
    + destruct (find p m) as [j|]; simpl.
      * split; [discriminate|]. intros Hall.
        destruct IH as [_ IH]. discriminate IH. auto.
      * split; [|reflexivity]. intros _ k' [<-|Hin]; [exact Ek|].
        now apply IH.
Qed.

Lemma find_app_Some p m m' it : find p m = Some it -> find p (m ++ m') = Some it.
Proof.
  revert it. induction m as [|[k v] m IH]; simpl; intros it Hf; [discriminate|].
  destruct (p k); [exact Hf|].
  destruct (find p m) as [j|]; [|discriminate]. now rewrite (IH j eq_refl).
Qed.

Lemma find_app_None p m (k : K) (v : V) :
  find p m = None ->
  find p (m ++ [(k, v)]) = if p k then Some (length m) else None.
Proof.
  induction m as [|[k0 v0] m IH]; simpl; intros Hf.
  - now destruct (p k).
  - destruct (p k0); [discriminate|].
    destruct (find p m) as [j|]; [discriminate|].
    rewrite IH by reflexivity. now destruct (p k).
Qed.

Lemma keys_assign it v m : keys (assign it v m) = keys m.
Proof.
  revert it. induction m as [|[k0 v0] m IH]; intros [|it]; simpl; try reflexivity.
  now rewrite IH.
Qed.

Lemma find_assign p it v m : find p (assign it v m) = find p m.
Proof.
  revert it. induction m as [|[k0 v0] m IH]; intros [|it]; simpl; try reflexivity.
  now rewrite IH.
Qed.

Lemma second_app_old (d : V) m (m' : t K V) it :
  (it < length m)%nat -> second d (m ++ m') it = second d m it.
Proof.
  intros Hlt. unfold second. rewrite map_app, app_nth1; [reflexivity|].
  now rewrite length_map.
Qed.

Lemma assign_app_new (k : K) (d v : V) m :
  assign (length m) v (m ++ [(k, d)]) = m ++ [(k, v)].
Proof. induction m as [|[k0 v0] m IH]; simpl; [reflexivity|]. now rewrite IH. Qed.

Lemma second_app_new (d : V) m (k : K) (v : V) :
  second d (m ++ [(k, v)]) (length m) = v.
Proof.
  unfold second. rewrite map_app, app_nth2 by (rewrite length_map; lia).
  rewrite length_map, Nat.sub_diag. reflexivity.
Qed.

Lemma second_In (d : V) m it : (it < length m)%nat -> In (second d m it) (map snd m).
Proof. intros Hlt. unfold second. apply nth_In. now rewrite length_map. Qed.

Lemma nth_error_assign_other it j (v : V) m :
  it <> j -> nth_error (assign it v m) j = nth_error m j.
Proof.
  revert it j. induction m as [|[k0 v0] m IH]; intros [|it] [|j] Hne; cbn;
    try reflexivity; try congruence. apply IH. congruence.
Qed.

Lemma nth_error_assign_same it (v : V) m (k : K) (o : V) :
  nth_error m it = Some (k, o) -> nth_error (assign it v m) it = Some (k, v).
Proof.
  revert it. induction m as [|[k0 v0] m IH]; intros [|it] Hn; cbn in *; try discriminate.
  - now injection Hn as -> _.
  - now apply IH.
Qed.

Lemma nth_error_second (d : V) m it (k : K) (o : V) :
  nth_error m it = Some (k, o) -> second d m it = o.
Proof.
  intros Hn. unfold second. apply (map_nth_error snd) in Hn.
  now apply nth_error_nth.
Qed.

Lemma nth_error_keys m it :
  nth_error (keys m) it = first m it.
Proof. unfold keys, first. apply nth_error_map. Qed.

(** [find] succeeds exactly when some key is accepted. *)
Lemma found_iff p m :
  find p m <> None <-> exists k, In k (keys m) /\ p k = true.
Proof.
  split.
  - destruct (find p m) as [it|] eqn:Hf; [|congruence]. intros _.
    destruct (find_Some _ _ _ Hf) as (k & v & Hn & Hp). exists k. split; [|exact Hp].
    apply nth_error_In in Hn. now apply (in_map fst) in Hn.
  - intros (k & Hin & Hp) Hnone. rewrite find_None in Hnone.
    rewrite (Hnone k Hin) in Hp. discriminate.
Qed.

End facts.

End unordered_map_facts.

(** ** The stage lookups, case by case *)

Module program_state_cache_facts.
Import program_hash_util program_hash_util_facts.
Import unordered_map unordered_map_facts.
Import program_state_cache.

Ltac project := cbv [value cache_after events fst snd].

Section distinct.
Context {K V : Type} (key_eq : K -> K -> bool).

Lemma distinct_keys_nil : distinct_keys key_eq (@nil (K * V)).
Proof. intros [|i] j k1 k2 Hi; discriminate Hi. Qed.

Lemma first_app_cases (m : unordered_map.t K V) k v i k1 :
  first (m ++ [(k, v)]) i = Some k1 ->
  first m i = Some k1 /\ (i < length m)%nat \/ i = length m /\ k1 = k.
Proof.
  unfold first. intros Hi.
  destruct (Nat.lt_ge_cases i (length m)) as [Hlt|Hge].
  - left. rewrite nth_error_app1 in Hi by exact Hlt. auto.
  - right. rewrite nth_error_app2 in Hi by exact Hge.
    destruct (i - length m)%nat as [|[|n]] eqn:En; cbn in Hi; try discriminate.
    injection Hi as <-. split; [lia | reflexivity].
Qed.

Lemma first_In (m : unordered_map.t K V) i k : first m i = Some k -> In k (keys m).
Proof.
  unfold first, keys. destruct (nth_error m i) as [[k' v]|] eqn:Hn; [|discriminate].
  intros [= <-]. apply nth_error_In in Hn. now apply (in_map fst) in Hn.
Qed.

(** A key equal to none of the present ones can be appended. *)
Lemma distinct_keys_app (m : unordered_map.t K V) k v :
  distinct_keys key_eq m ->
  (forall k', In k' (keys m) -> key_eq k' k = false /\ key_eq k k' = false) ->
  distinct_keys key_eq (m ++ [(k, v)]).
Proof.
  intros Hd Hnew i j k1 k2 Hi Hj E.
  apply first_app_cases in Hi, Hj.
  destruct Hi as [[Hi Hil] | [-> ->]], Hj as [[Hj Hjl] | [-> ->]].
  - now apply (Hd i j k1 k2).
  - apply first_In, Hnew in Hi. destruct Hi. congruence.
  - apply first_In, Hnew in Hj. destruct Hj. congruence.
  - reflexivity.
Qed.

Lemma first_assign (m : unordered_map.t K V) it v i :
  first (assign it v m) i = first m i.
Proof.
  unfold first. revert it i.
  induction m as [|[k0 v0] m IH]; intros [|it] [|i]; cbn; try reflexivity.
  apply IH.
Qed.

Lemma distinct_keys_assign (m : unordered_map.t K V) it v :
  distinct_keys key_eq m -> distinct_keys key_eq (assign it v m).
Proof.
  intros Hd i j k1 k2 Hi Hj. rewrite first_assign in Hi, Hj. now apply Hd.
Qed.

End distinct.

Section facts.
Context `{decoder : fragment_program_utils} `{backend : backend_traits}.

Lemma search_vertex_program_hit c rsx_vp it :
  find (vertex_key_eq (data rsx_vp)) (m_vertex_shader_cache c) = Some it ->
  search_vertex_program rsx_vp c = ((it, true), c, []).
Proof.
  intros Hf. unfold search_vertex_program, bind, this. now rewrite Hf.
Qed.

Lemma search_vertex_program_miss c rsx_vp :
  find (vertex_key_eq (data rsx_vp)) (m_vertex_shader_cache c) = None ->
  search_vertex_program rsx_vp c =
    ((length (m_vertex_shader_cache c), false),
     {| m_next_id := size_t (m_next_id c + 1);
        m_vertex_shader_cache :=
          m_vertex_shader_cache c ++ [(data rsx_vp, compiled_vertex c rsx_vp)];
        m_fragment_shader_cache := m_fragment_shader_cache c;
        m_storage := m_storage c |},
     [LOG_NOTICE "VP not found in buffer!" [];
      call_recompile_vertex_program (m_next_id c)]).
Proof.
  intros Hf. unfold search_vertex_program, bind, this, operator_index.
  rewrite Hf. cbn. rewrite assign_app_new, second_app_new. reflexivity.
Qed.

Lemma search_fragment_program_hit c mem rsx_fp it :
  find (fragment_key_eq (vm_base mem (addr rsx_fp))) (m_fragment_shader_cache c) = Some it ->
  search_fragment_program mem rsx_fp c = ((it, true), c, []).
Proof.
  intros Hf. unfold search_fragment_program, bind, this. now rewrite Hf.
Qed.

(** Looking up the cache's copy of a binary is looking up the binary. *)
Lemma find_fragment_copy (m : binary_to_fragment_program) b :
  find (fragment_key_eq (heap_view (valid_bytes b))) m = find (fragment_key_eq b) m.
Proof.
  apply find_ext. intros k. unfold fragment_key_eq.
  apply fragment_program_compare_congr, fragment_program_compare_copy.
Qed.

Lemma search_fragment_program_miss c mem rsx_fp :
  find (fragment_key_eq (vm_base mem (addr rsx_fp))) (m_fragment_shader_cache c) = None ->
  search_fragment_program mem rsx_fp c =
    ((length (m_fragment_shader_cache c), false),
     {| m_next_id := size_t (m_next_id c + 1);
        m_vertex_shader_cache := m_vertex_shader_cache c;
        m_fragment_shader_cache :=
          m_fragment_shader_cache c
            ++ [(valid_bytes (vm_base mem (addr rsx_fp)), compiled_fragment c mem rsx_fp)];
        m_storage := m_storage c |},
     [LOG_NOTICE "FP not found in buffer!" [];
      call_recompile_fragment_program (m_next_id c)]).
Proof.
  intros Hf. unfold search_fragment_program, bind, this, operator_index.
  rewrite Hf. fold (valid_bytes (vm_base mem (addr rsx_fp))).
  rewrite find_fragment_copy, Hf. cbn.
  rewrite assign_app_new, second_app_new. reflexivity.
Qed.

(** **** Resolving the same content again *)

Lemma find_vertex_after_miss (m : binary_to_vertex_program) binary v :
  find (vertex_key_eq binary) m = None ->
  find (vertex_key_eq binary) (m ++ [(binary, v)]) = Some (length m).
Proof.
  intros Hf. rewrite find_app_None by exact Hf.
  unfold vertex_key_eq. now rewrite vertex_program_compare_refl.
Qed.

Lemma find_fragment_congr (m : binary_to_fragment_program) b1 b2 :
  fragment_program_compare b1 b2 = true ->
  find (fragment_key_eq b1) m = find (fragment_key_eq b2) m.
Proof.
  intros E. apply find_ext. intros k. unfold fragment_key_eq.
  now apply fragment_program_compare_congr.
Qed.

Lemma find_fragment_after_miss (m : binary_to_fragment_program) b v :
  find (fragment_key_eq b) m = None ->
  find (fragment_key_eq b) (m ++ [(valid_bytes b, v)]) = Some (length m).
Proof.
  intros Hf. rewrite find_app_None by exact Hf.
  unfold fragment_key_eq. now rewrite fragment_program_compare_copy.
Qed.

(** A second lookup of the same words is a hit on the record of the first. *)
Lemma search_vertex_program_again c vp1 vp2 :
  data vp1 = data vp2 ->
  search_vertex_program vp2 (cache_after (search_vertex_program vp1 c)) =
    ((fst (value (search_vertex_program vp1 c)), true),
     cache_after (search_vertex_program vp1 c), []).
Proof.
  intros Hd.
  destruct (find (vertex_key_eq (data vp1)) (m_vertex_shader_cache c)) as [it|] eqn:Hf.
  - rewrite (search_vertex_program_hit _ _ _ Hf). project.
    apply search_vertex_program_hit. now rewrite <- Hd.
  - rewrite (search_vertex_program_miss _ _ Hf). project.
    apply search_vertex_program_hit. cbn [m_vertex_shader_cache]. rewrite <- Hd.
    now apply find_vertex_after_miss.
Qed.

(** A second lookup of a binary with the same content is a hit on the
    record of the first, wherever the binary lies and whatever follows it. *)
Lemma search_fragment_program_again c mem1 fp1 mem2 fp2 :
  fragment_program_compare (vm_base mem1 (addr fp1)) (vm_base mem2 (addr fp2)) = true ->
  search_fragment_program mem2 fp2 (cache_after (search_fragment_program mem1 fp1 c)) =
    ((fst (value (search_fragment_program mem1 fp1 c)), true),
     cache_after (search_fragment_program mem1 fp1 c), []).
Proof.
  intros E.
  destruct (find (fragment_key_eq (vm_base mem1 (addr fp1))) (m_fragment_shader_cache c))
    as [it|] eqn:Hf.
  - rewrite (search_fragment_program_hit _ _ _ _ Hf). project.
    apply search_fragment_program_hit.
    now rewrite <- (find_fragment_congr _ _ _ E).
  - rewrite (search_fragment_program_miss _ _ _ Hf). project.
    apply search_fragment_program_hit. cbn [m_fragment_shader_cache].
    rewrite <- (find_fragment_congr _ _ _ E).
    now apply find_fragment_after_miss.
Qed.

(** **** What a stage lookup leaves alone *)

Lemma search_vertex_program_frame c rsx_vp :
  let c' := cache_after (search_vertex_program rsx_vp c) in
  m_fragment_shader_cache c' = m_fragment_shader_cache c
  /\ m_storage c' = m_storage c.
Proof.
  destruct (find (vertex_key_eq (data rsx_vp)) (m_vertex_shader_cache c)) as [it|] eqn:Hf.
  - rewrite (search_vertex_program_hit _ _ _ Hf). now cbn.
  - rewrite (search_vertex_program_miss _ _ Hf). now cbn.
Qed.

Lemma search_fragment_program_frame c mem rsx_fp :
  let c' := cache_after (search_fragment_program mem rsx_fp c) in
  m_vertex_shader_cache c' = m_vertex_shader_cache c
  /\ m_storage c' = m_storage c.
Proof.
  destruct (find (fragment_key_eq (vm_base mem (addr rsx_fp))) (m_fragment_shader_cache c))
    as [it|] eqn:Hf.
  - rewrite (search_fragment_program_hit _ _ _ _ Hf). now cbn.
  - rewrite (search_fragment_program_miss _ _ _ Hf). now cbn.
Qed.

(** **** The pipeline table *)

Lemma pipeline_key_compare_eq k1 k2 : pipeline_key_compare k1 k2 = true <-> k1 = k2.
Proof.
  unfold pipeline_key_compare.
  rewrite !andb_true_iff, !Z.eqb_eq, properties_eqb_eq.
  destruct k1, k2; cbn. split.
  - intros [[-> ->] ->]. reflexivity.
  - intros E. injection E as -> -> ->. auto.
Qed.

Lemma pipeline_key_compare_refl k : pipeline_key_compare k k = true.
Proof. now apply pipeline_key_compare_eq. Qed.

(** The hash of the header agrees with its comparison. *)
Lemma pipeline_key_hash_compare hu hp k1 k2 :
  pipeline_key_compare k1 k2 = true ->
  pipeline_key_hash hu hp k1 = pipeline_key_hash hu hp k2.
Proof. now intros ->%pipeline_key_compare_eq. Qed.

Lemma link_pipeline_hit c v f props args it :
  find (storage_key_eq (draw_key c v f props)) (m_storage c) = Some it ->
  link_pipeline true v f props args c = (it, c, []).
Proof.
  intros Hf. unfold link_pipeline, bind, this. fold (draw_key c v f props).
  now rewrite Hf.
Qed.

Lemma find_stored_table c key built :
  find (storage_key_eq key) (stored_table c key built) = Some (stored_slot c key).
Proof.
  unfold stored_table, stored_slot.
  destruct (find (storage_key_eq key) (m_storage c)) as [j|] eqn:Hf.
  - now rewrite find_assign.
  - rewrite find_app_None by exact Hf.
    unfold storage_key_eq. now rewrite pipeline_key_compare_refl.
Qed.

Lemma link_pipeline_build c probe v f props args :
  probe = false \/ find (storage_key_eq (draw_key c v f props)) (m_storage c) = None ->
  link_pipeline probe v f props args c =
    (stored_slot c (draw_key c v f props),
     with_storage c
       (stored_table c (draw_key c v f props)
          (build_pipeline (vertex_program_at c v) (fragment_program_at c f) props args)),
     [LOG_NOTICE "Add program :" [];
      LOG_NOTICE "*** vp id = %d" [vp_id (vertex_program_at c v)];
      LOG_NOTICE "*** fp id = %d" [fp_id (fragment_program_at c f)];
      call_build_pipeline (draw_key c v f props)]).
Proof.
  intros Hmiss.
  pose proof (find_stored_table c (draw_key c v f props)
                (build_pipeline (vertex_program_at c v) (fragment_program_at c f) props args))
    as Hagain.
  unfold link_pipeline, bind, this. fold (draw_key c v f props).
  replace (if probe then find (storage_key_eq (draw_key c v f props)) (m_storage c) else None)
    with (@None nat)
    by (destruct probe; [destruct Hmiss as [Hp|Hn]; [discriminate Hp | now rewrite Hn]
                        | reflexivity]).
  unfold stored_table, stored_slot, operator_index in *.
  destruct (find (storage_key_eq (draw_key c v f props)) (m_storage c)) as [j|] eqn:Hf; cbn.
  - rewrite Hagain. reflexivity.
  - rewrite assign_app_new. rewrite Hagain. reflexivity.
Qed.

(** **** [getGraphicPipelineState] as its three steps *)

Lemma getGraphicPipelineState_steps mem vp fp props args c :
  let r1 := search_vertex_program vp c in
  let r2 := search_fragment_program mem fp (cache_after r1) in
  let r3 := link_pipeline (snd (value r2) && snd (value r1))
              (fst (value r1)) (fst (value r2)) props args (cache_after r2) in
  getGraphicPipelineState mem vp fp props args c =
    (value r3, cache_after r3, events r1 ++ events r2 ++ events r3).
Proof.
  intros r1 r2 r3. unfold getGraphicPipelineState, bind.
  subst r3 r2 r1. project.
  destruct (search_vertex_program vp c) as [[[v bv] c1] e1].
  destruct (search_fragment_program mem fp c1) as [[[f bf] c2] e2].
  destruct (link_pipeline (bf && bv) v f props args c2) as [[r c3] e3].
  now rewrite app_assoc.
Qed.

Lemma getGraphicPipelineState_always_probe_steps mem vp fp props args c :
  let r1 := search_vertex_program vp c in
  let r2 := search_fragment_program mem fp (cache_after r1) in
  let r3 := link_pipeline true (fst (value r1)) (fst (value r2)) props args (cache_after r2) in
  getGraphicPipelineState_always_probe mem vp fp props args c =
    (value r3, cache_after r3, events r1 ++ events r2 ++ events r3).
Proof.
  intros r1 r2 r3. unfold getGraphicPipelineState_always_probe, bind.
  subst r3 r2 r1. project.
  destruct (search_vertex_program vp c) as [[[v bv] c1] e1].
  destruct (search_fragment_program mem fp c1) as [[[f bf] c2] e2].
  destruct (link_pipeline true v f props args c2) as [[r c3] e3].
  now rewrite app_assoc.
Qed.

Lemma getGraphicPipelineState_value mem vp fp props args c :
  let r1 := search_vertex_program vp c in
  let r2 := search_fragment_program mem fp (cache_after r1) in
  value (getGraphicPipelineState mem vp fp props args c)
  = value (link_pipeline (snd (value r2) && snd (value r1))
             (fst (value r1)) (fst (value r2)) props args (cache_after r2)).
Proof.
  pose proof (getGraphicPipelineState_steps mem vp fp props args c) as Hs.
  cbv zeta in *. now rewrite Hs.
Qed.

Lemma getGraphicPipelineState_cache_after mem vp fp props args c :
  let r1 := search_vertex_program vp c in
  let r2 := search_fragment_program mem fp (cache_after r1) in
  cache_after (getGraphicPipelineState mem vp fp props args c)
  = cache_after (link_pipeline (snd (value r2) && snd (value r1))
                   (fst (value r1)) (fst (value r2)) props args (cache_after r2)).
Proof.
  pose proof (getGraphicPipelineState_steps mem vp fp props args c) as Hs.
  cbv zeta in *. now rewrite Hs.
Qed.

Lemma getGraphicPipelineState_events mem vp fp props args c :
  let r1 := search_vertex_program vp c in
  let r2 := search_fragment_program mem fp (cache_after r1) in
  events (getGraphicPipelineState mem vp fp props args c)
  = events r1 ++ events r2
    ++ events (link_pipeline (snd (value r2) && snd (value r1))
                 (fst (value r1)) (fst (value r2)) props args (cache_after r2)).
Proof.
  pose proof (getGraphicPipelineState_steps mem vp fp props args c) as Hs.
  cbv zeta in *. now rewrite Hs.
Qed.

(** After a lookup, the content it was given is found at the reference it
    returned. *)
Lemma find_after_search_vertex c vp :
  find (vertex_key_eq (data vp))
    (m_vertex_shader_cache (cache_after (search_vertex_program vp c)))
  = Some (fst (value (search_vertex_program vp c))).
Proof.
  destruct (find (vertex_key_eq (data vp)) (m_vertex_shader_cache c)) as [it|] eqn:Hf.
  - rewrite (search_vertex_program_hit _ _ _ Hf). project. exact Hf.
  - rewrite (search_vertex_program_miss _ _ Hf). project. cbn [m_vertex_shader_cache].
    now apply find_vertex_after_miss.
Qed.

Lemma find_after_search_fragment c mem fp :
  find (fragment_key_eq (vm_base mem (addr fp)))
    (m_fragment_shader_cache (cache_after (search_fragment_program mem fp c)))
  = Some (fst (value (search_fragment_program mem fp c))).
Proof.
  destruct (find (fragment_key_eq (vm_base mem (addr fp))) (m_fragment_shader_cache c))
    as [it|] eqn:Hf.
  - rewrite (search_fragment_program_hit _ _ _ _ Hf). project. exact Hf.
  - rewrite (search_fragment_program_miss _ _ _ Hf). project. cbn [m_fragment_shader_cache].
    now apply find_fragment_after_miss.
Qed.

(** [link_pipeline] touches the pipeline table only. *)
Lemma link_pipeline_frame c probe v f props args :
  let c' := cache_after (link_pipeline probe v f props args c) in
  m_next_id c' = m_next_id c
  /\ m_vertex_shader_cache c' = m_vertex_shader_cache c
  /\ m_fragment_shader_cache c' = m_fragment_shader_cache c.
Proof.
  destruct probe;
    [destruct (find (storage_key_eq (draw_key c v f props)) (m_storage c)) as [it|] eqn:Hf|].
  - rewrite (link_pipeline_hit _ _ _ _ _ _ Hf). now project.
  - rewrite link_pipeline_build by now right. now project.
  - rewrite link_pipeline_build by now left. now project.
Qed.

(** After [link_pipeline], the key is found at the slot it returned. *)
Lemma find_after_link_pipeline c probe v f props args :
  find (storage_key_eq (draw_key c v f props))
    (m_storage (cache_after (link_pipeline probe v f props args c)))
  = Some (value (link_pipeline probe v f props args c)).
Proof.
  destruct probe;
    [destruct (find (storage_key_eq (draw_key c v f props)) (m_storage c)) as [it|] eqn:Hf|].
  - rewrite (link_pipeline_hit _ _ _ _ _ _ Hf). project. exact Hf.
  - rewrite link_pipeline_build by now right. project. apply find_stored_table.
  - rewrite link_pipeline_build by now left. project. apply find_stored_table.
Qed.

Lemma draw_key_stage_caches c c' v f props :
  m_vertex_shader_cache c' = m_vertex_shader_cache c ->
  m_fragment_shader_cache c' = m_fragment_shader_cache c ->
  draw_key c' v f props = draw_key c v f props.
Proof.
  intros Hv Hf. unfold draw_key, vertex_program_at, fragment_program_at.
  now rewrite Hv, Hf.
Qed.

(** [build_pipeline] is invoked by a call exactly when it does not hit the
    pipeline table. *)
Lemma build_count_link_pipeline c probe v f props args :
  build_count (events (link_pipeline probe v f props args c)) =
    if probe then
      match find (storage_key_eq (draw_key c v f props)) (m_storage c) with
      | Some _ => O
      | None => 1%nat
      end
    else 1%nat.
Proof.
  destruct probe;
    [destruct (find (storage_key_eq (draw_key c v f props)) (m_storage c)) as [it|] eqn:Hf|].
  - now rewrite (link_pipeline_hit _ _ _ _ _ _ Hf).
  - rewrite link_pipeline_build by now right. reflexivity.
  - rewrite link_pipeline_build by now left. reflexivity.
Qed.

Lemma build_count_app es1 es2 :
  build_count (es1 ++ es2) = (build_count es1 + build_count es2)%nat.
Proof. unfold build_count. now rewrite filter_app, length_app. Qed.

Lemma build_count_search_vertex c vp :
  build_count (events (search_vertex_program vp c)) = O.
Proof.
  destruct (find (vertex_key_eq (data vp)) (m_vertex_shader_cache c)) as [it|] eqn:Hf.
  - now rewrite (search_vertex_program_hit _ _ _ Hf).
  - now rewrite (search_vertex_program_miss _ _ Hf).
Qed.

Lemma build_count_search_fragment c mem fp :
  build_count (events (search_fragment_program mem fp c)) = O.
Proof.
  destruct (find (fragment_key_eq (vm_base mem (addr fp))) (m_fragment_shader_cache c))
    as [it|] eqn:Hf.
  - now rewrite (search_fragment_program_hit _ _ _ _ Hf).
  - now rewrite (search_fragment_program_miss _ _ _ Hf).
Qed.

(** **** Histories *)

Lemma run_snoc ops op c :
  run (ops ++ [op]) c =
    (cache_after (perform op (fst (run ops c))),
     snd (run ops c) ++ events (perform op (fst (run ops c)))).
Proof.
  unfold run. rewrite fold_left_app. cbn [fold_left]. project.
  destruct (perform op _) as [[u c'] es]. reflexivity.
Qed.

Lemma perform_resolve_vertex c vp :
  perform (resolve_vertex vp) c =
    (tt, cache_after (search_vertex_program vp c), events (search_vertex_program vp c)).
Proof.
  cbn [perform]. unfold bind, ret. project.
  destruct (search_vertex_program vp c) as [[r c1] e1]. now rewrite app_nil_r.
Qed.

Lemma perform_resolve_fragment c mem fp :
  perform (resolve_fragment mem fp) c =
    (tt, cache_after (search_fragment_program mem fp c),
     events (search_fragment_program mem fp c)).
Proof.
  cbn [perform]. unfold bind, ret. project.
  destruct (search_fragment_program mem fp c) as [[r c1] e1]. now rewrite app_nil_r.
Qed.

Lemma perform_get_or_build c mem vp fp props args :
  perform (get_or_build mem vp fp props args) c =
    (tt, cache_after (getGraphicPipelineState mem vp fp props args c),
     events (getGraphicPipelineState mem vp fp props args c)).
Proof.
  cbn [perform]. unfold bind, ret. project.
  destruct (getGraphicPipelineState mem vp fp props args c) as [[r c1] e1].
  now rewrite app_nil_r.
Qed.

Lemma cache_after_resolve_vertex c vp :
  cache_after (perform (resolve_vertex vp) c) = cache_after (search_vertex_program vp c).
Proof. now rewrite perform_resolve_vertex. Qed.

Lemma cache_after_resolve_fragment c mem fp :
  cache_after (perform (resolve_fragment mem fp) c)
  = cache_after (search_fragment_program mem fp c).
Proof. now rewrite perform_resolve_fragment. Qed.

Lemma cache_after_get_or_build c mem vp fp props args :
  cache_after (perform (get_or_build mem vp fp props args) c)
  = cache_after (getGraphicPipelineState mem vp fp props args c).
Proof. now rewrite perform_get_or_build. Qed.

Lemma events_resolve_vertex c vp :
  events (perform (resolve_vertex vp) c) = events (search_vertex_program vp c).
Proof. now rewrite perform_resolve_vertex. Qed.

Lemma events_resolve_fragment c mem fp :
  events (perform (resolve_fragment mem fp) c) = events (search_fragment_program mem fp c).
Proof. now rewrite perform_resolve_fragment. Qed.

Lemma events_get_or_build c mem vp fp props args :
  events (perform (get_or_build mem vp fp props args) c)
  = events (getGraphicPipelineState mem vp fp props args c).
Proof. now rewrite perform_get_or_build. Qed.

Lemma search_vertex_program_valid c vp :
  (fst (value (search_vertex_program vp c))
   < length (m_vertex_shader_cache (cache_after (search_vertex_program vp c))))%nat.
Proof. eapply find_Some_lt, find_after_search_vertex. Qed.

Lemma search_fragment_program_valid c mem fp :
  (fst (value (search_fragment_program mem fp c))
   < length (m_fragment_shader_cache (cache_after (search_fragment_program mem fp c))))%nat.
Proof. eapply find_Some_lt, find_after_search_fragment. Qed.

(** A property kept by the two stage lookups and by the pipeline step, when
    the latter is given references to existing records, is kept by every
    operation. *)
Lemma perform_preserves (P : t -> Prop) :
  (forall c vp, P c -> P (cache_after (search_vertex_program vp c))) ->
  (forall c mem fp, P c -> P (cache_after (search_fragment_program mem fp c))) ->
  (forall c probe v f props args,
      (v < length (m_vertex_shader_cache c))%nat ->
      (f < length (m_fragment_shader_cache c))%nat ->
      P c -> P (cache_after (link_pipeline probe v f props args c))) ->
  forall op c, P c -> P (cache_after (perform op c)).
Proof.
  intros Hv Hf Hl [vp | mem fp | mem vp fp props args] c HP.
  - rewrite perform_resolve_vertex. now apply Hv.
  - rewrite perform_resolve_fragment. now apply Hf.
  - rewrite perform_get_or_build.
    pose proof (getGraphicPipelineState_steps mem vp fp props args c) as Hs.
    cbv zeta in Hs. rewrite Hs. clear Hs.
    unfold cache_after at 1. cbn [fst snd].
    apply Hl.
    + destruct (search_fragment_program_frame (cache_after (search_vertex_program vp c)) mem fp)
        as [-> _].
      apply search_vertex_program_valid.
    + apply search_fragment_program_valid.
    + now apply Hf, Hv.
Qed.

Lemma reachable_init : reachable init.
Proof. now exists []. Qed.

Lemma reachable_perform c op : reachable c -> reachable (cache_after (perform op c)).
Proof.
  intros [ops <-]. exists (ops ++ [op]). now rewrite run_snoc.
Qed.

Lemma reachable_invariant (P : t -> Prop) :
  P init ->
  (forall op c, P c -> P (cache_after (perform op c))) ->
  forall c, reachable c -> P c.
Proof.
  intros H0 Hstep c [ops <-].
  induction ops as [|op ops IH] using rev_ind; [exact H0|].
  rewrite run_snoc. cbn [fst]. now apply Hstep.
Qed.

(** **** One node per content *)

Lemma distinct_search_vertex c vp :
  distinct_keys vertex_program_compare (m_vertex_shader_cache c) ->
  distinct_keys vertex_program_compare
    (m_vertex_shader_cache (cache_after (search_vertex_program vp c))).
Proof.
  intros Hd.
  destruct (find (vertex_key_eq (data vp)) (m_vertex_shader_cache c)) as [it|] eqn:Hf.
  - now rewrite (search_vertex_program_hit _ _ _ Hf).
  - rewrite (search_vertex_program_miss _ _ Hf). project. cbn [m_vertex_shader_cache].
    apply distinct_keys_app; [exact Hd|].
    intros k' Hin. pose proof (proj1 (find_None _ _) Hf k' Hin) as Hne.
    unfold vertex_key_eq in Hne. split; [exact Hne|].
    destruct (vertex_program_compare (data vp) k') eqn:E; [|reflexivity].
    apply vertex_program_compare_eq in E. subst k'.
    now rewrite vertex_program_compare_refl in Hne.
Qed.

Lemma distinct_search_fragment c mem fp :
  distinct_keys fragment_key_compare (m_fragment_shader_cache c) ->
  distinct_keys fragment_key_compare
    (m_fragment_shader_cache (cache_after (search_fragment_program mem fp c))).
Proof.
  intros Hd.
  destruct (find (fragment_key_eq (vm_base mem (addr fp))) (m_fragment_shader_cache c))
    as [it|] eqn:Hf.
  - now rewrite (search_fragment_program_hit _ _ _ _ Hf).
  - rewrite (search_fragment_program_miss _ _ _ Hf). project. cbn [m_fragment_shader_cache].
    apply distinct_keys_app; [exact Hd|].
    intros k' Hin. pose proof (proj1 (find_None _ _) Hf k' Hin) as Hne.
    unfold fragment_key_eq in Hne. unfold fragment_key_compare.
    assert (E1 : fragment_program_compare (heap_view k')
                   (heap_view (valid_bytes (vm_base mem (addr fp)))) = false).
    { rewrite (fragment_program_compare_congr _ _ (vm_base mem (addr fp))); [exact Hne|].
      apply fragment_program_compare_copy. }
    split; [exact E1|].
    destruct (fragment_program_compare
                (heap_view (valid_bytes (vm_base mem (addr fp)))) (heap_view k')) eqn:E2;
      [|reflexivity].
    apply fragment_program_compare_sym in E2. congruence.
Qed.

Lemma distinct_link_pipeline c probe v f props args :
  distinct_keys pipeline_key_compare (m_storage c) ->
  distinct_keys pipeline_key_compare
    (m_storage (cache_after (link_pipeline probe v f props args c))).
Proof.
  intros Hd.
  assert (Hbuild : forall built,
             distinct_keys pipeline_key_compare
               (stored_table c (draw_key c v f props) built)).
  { intros built. unfold stored_table.
    destruct (find (storage_key_eq (draw_key c v f props)) (m_storage c)) as [j|] eqn:Hf.
    - now apply distinct_keys_assign.
    - apply distinct_keys_app; [exact Hd|].
      intros k' Hin. pose proof (proj1 (find_None _ _) Hf k' Hin) as Hne.
      unfold storage_key_eq in Hne. split; [exact Hne|].
      destruct (pipeline_key_compare (draw_key c v f props) k') eqn:E; [|reflexivity].
      apply pipeline_key_compare_eq in E. rewrite <- E in Hne.
      now rewrite pipeline_key_compare_refl in Hne. }
  destruct probe;
    [destruct (find (storage_key_eq (draw_key c v f props)) (m_storage c)) as [it|] eqn:Hf|].
  - now rewrite (link_pipeline_hit _ _ _ _ _ _ Hf).
  - rewrite link_pipeline_build by now right. project. apply Hbuild.
  - rewrite link_pipeline_build by now left. project. apply Hbuild.
Qed.

(** In every reachable cache no two nodes of a map have equal keys. *)
Lemma reachable_distinct c :
  reachable c ->
  distinct_keys vertex_program_compare (m_vertex_shader_cache c)
  /\ distinct_keys fragment_key_compare (m_fragment_shader_cache c)
  /\ distinct_keys pipeline_key_compare (m_storage c).
Proof.
  revert c.
  apply (reachable_invariant
           (fun c => distinct_keys vertex_program_compare (m_vertex_shader_cache c)
                     /\ distinct_keys fragment_key_compare (m_fragment_shader_cache c)
                     /\ distinct_keys pipeline_key_compare (m_storage c))).
  - repeat split; apply distinct_keys_nil.
  - apply perform_preserves.
    + intros c0 vp (Hv & Hf & Hs).
      destruct (search_vertex_program_frame c0 vp) as [-> ->].
      auto using distinct_search_vertex.
    + intros c0 mem fp (Hv & Hf & Hs).
      destruct (search_fragment_program_frame c0 mem fp) as [-> ->].
      auto using distinct_search_fragment.
    + intros c0 probe v f props args _ _ (Hv & Hf & Hs).
      destruct (link_pipeline_frame c0 probe v f props args) as (_ & -> & ->).
      auto using distinct_link_pipeline.
Qed.

(** **** The maps hold what the history resolved *)

Lemma found_search_vertex c vp binary :
  found (find (vertex_key_eq binary)
           (m_vertex_shader_cache (cache_after (search_vertex_program vp c))))
  = found (find (vertex_key_eq binary) (m_vertex_shader_cache c))
    || vertex_program_compare (data vp) binary.
Proof.
  destruct (vertex_program_compare (data vp) binary) eqn:E.
  - apply vertex_program_compare_eq in E. subst binary.
    rewrite find_after_search_vertex. now rewrite orb_true_r.
  - rewrite orb_false_r.
    destruct (find (vertex_key_eq (data vp)) (m_vertex_shader_cache c)) as [it|] eqn:Hf.
    + now rewrite (search_vertex_program_hit _ _ _ Hf).
    + rewrite (search_vertex_program_miss _ _ Hf). project. cbn [m_vertex_shader_cache].
      destruct (find (vertex_key_eq binary) (m_vertex_shader_cache c)) as [j|] eqn:Hb.
      * now rewrite (find_app_Some _ _ _ _ Hb).
      * rewrite find_app_None by exact Hb. unfold vertex_key_eq. now rewrite E.
Qed.

Lemma found_search_fragment c mem fp b :
  found (find (fragment_key_eq b)
           (m_fragment_shader_cache (cache_after (search_fragment_program mem fp c))))
  = found (find (fragment_key_eq b) (m_fragment_shader_cache c))
    || fragment_program_compare (vm_base mem (addr fp)) b.
Proof.
  destruct (fragment_program_compare (vm_base mem (addr fp)) b) eqn:E.
  - rewrite <- (find_fragment_congr _ _ _ E), find_after_search_fragment.
    now rewrite orb_true_r.
  - rewrite orb_false_r.
    destruct (find (fragment_key_eq (vm_base mem (addr fp))) (m_fragment_shader_cache c))
      as [it|] eqn:Hf.
    + now rewrite (search_fragment_program_hit _ _ _ _ Hf).
    + rewrite (search_fragment_program_miss _ _ _ Hf). project. cbn [m_fragment_shader_cache].
      destruct (find (fragment_key_eq b) (m_fragment_shader_cache c)) as [j|] eqn:Hb.
      * now rewrite (find_app_Some _ _ _ _ Hb).
      * rewrite find_app_None by exact Hb. unfold fragment_key_eq.
        rewrite fragment_program_compare_comm.
        rewrite (fragment_program_compare_congr b _ _
                   (fragment_program_compare_copy (vm_base mem (addr fp)))).
        rewrite fragment_program_compare_comm. now rewrite E.
Qed.

Lemma getGraphicPipelineState_caches mem vp fp props args c :
  let c1 := cache_after (search_vertex_program vp c) in
  let c' := cache_after (getGraphicPipelineState mem vp fp props args c) in
  m_vertex_shader_cache c' = m_vertex_shader_cache c1
  /\ m_fragment_shader_cache c'
     = m_fragment_shader_cache (cache_after (search_fragment_program mem fp c1))
  /\ m_fragment_shader_cache c1 = m_fragment_shader_cache c.
Proof.
  pose proof (getGraphicPipelineState_steps mem vp fp props args c) as Hs.
  cbv zeta in Hs. cbv zeta. rewrite Hs. clear Hs.
  match goal with
  | |- context [link_pipeline ?p ?v ?f props args ?c2] =>
      destruct (link_pipeline_frame c2 p v f props args) as (_ & Hv & Hf);
      change (cache_after (value (link_pipeline p v f props args c2),
                           cache_after (link_pipeline p v f props args c2),
                           events (search_vertex_program vp c)
                             ++ events (search_fragment_program mem fp
                                          (cache_after (search_vertex_program vp c)))
                             ++ events (link_pipeline p v f props args c2)))
        with (cache_after (link_pipeline p v f props args c2))
  end.
  cbv zeta in Hv, Hf. rewrite Hv, Hf.
  destruct (search_fragment_program_frame (cache_after (search_vertex_program vp c)) mem fp)
    as [-> _].
  destruct (search_vertex_program_frame c vp) as [-> _].
  auto.
Qed.

Lemma history_fragment ops b :
  fragment_resolved ops b
  = found (find (fragment_key_eq b) (m_fragment_shader_cache (fst (run ops init)))).
Proof.
  induction ops as [|op ops IH] using rev_ind; [reflexivity|].
  rewrite run_snoc. cbn [fst]. unfold fragment_resolved in *.
  unfold fragment_binaries in *. rewrite flat_map_app, existsb_app, IH.
  cbn [flat_map]. rewrite app_nil_r.
  destruct op as [vp | mem fp | mem vp fp props args].
  - rewrite cache_after_resolve_vertex.
    destruct (search_vertex_program_frame (fst (run ops init)) vp) as [-> _].
    cbn. now rewrite orb_false_r.
  - rewrite cache_after_resolve_fragment.
    rewrite found_search_fragment. cbn. now rewrite orb_false_r.
  - rewrite cache_after_get_or_build.
    destruct (getGraphicPipelineState_caches mem vp fp props args (fst (run ops init)))
      as (_ & -> & Hc1).
    rewrite found_search_fragment, Hc1. cbn. now rewrite orb_false_r.
Qed.

Lemma history_vertex ops binary :
  vertex_resolved ops binary
  = found (find (vertex_key_eq binary) (m_vertex_shader_cache (fst (run ops init)))).
Proof.
  induction ops as [|op ops IH] using rev_ind; [reflexivity|].
  rewrite run_snoc. cbn [fst]. unfold vertex_resolved in *.
  unfold vertex_binaries in *. rewrite flat_map_app, existsb_app, IH.
  cbn [flat_map]. rewrite app_nil_r.
  destruct op as [vp | mem fp | mem vp fp props args].
  - rewrite cache_after_resolve_vertex.
    rewrite found_search_vertex. cbn. now rewrite orb_false_r.
  - rewrite cache_after_resolve_fragment.
    destruct (search_fragment_program_frame (fst (run ops init)) mem fp) as [-> _].
    cbn. now rewrite orb_false_r.
  - rewrite cache_after_get_or_build.
    destruct (getGraphicPipelineState_caches mem vp fp props args (fst (run ops init)))
      as (-> & _ & _).
    rewrite found_search_vertex. cbn. now rewrite orb_false_r.
Qed.

(** **** The identity counter *)

Lemma size_t_succ N : size_t (size_t N + 1) = size_t (N + 1).
Proof. unfold size_t. now rewrite Zplus_mod_idemp_l. Qed.












(** **** Records stay where they are *)

Lemma records_kept_refl c : records_kept c c.
Proof. split; exists []; now rewrite app_nil_r. Qed.

Lemma records_kept_trans c1 c2 c3 :
  records_kept c1 c2 -> records_kept c2 c3 -> records_kept c1 c3.
Proof.
  intros [[v1 Hv1] [f1 Hf1]] [[v2 Hv2] [f2 Hf2]]. split.
  - exists (v1 ++ v2). now rewrite Hv2, Hv1, app_assoc.
  - exists (f1 ++ f2). now rewrite Hf2, Hf1, app_assoc.
Qed.

Lemma records_kept_search_vertex c vp :
  records_kept c (cache_after (search_vertex_program vp c)).
Proof.
  destruct (find (vertex_key_eq (data vp)) (m_vertex_shader_cache c)) as [it|] eqn:Hf.
  - rewrite (search_vertex_program_hit _ _ _ Hf). apply records_kept_refl.
  - rewrite (search_vertex_program_miss _ _ Hf). split; cbn.
    + eexists. reflexivity.
    + exists []. now rewrite app_nil_r.
Qed.

Lemma records_kept_search_fragment c mem fp :
  records_kept c (cache_after (search_fragment_program mem fp c)).
Proof.
  destruct (find (fragment_key_eq (vm_base mem (addr fp))) (m_fragment_shader_cache c))
    as [it|] eqn:Hf.
  - rewrite (search_fragment_program_hit _ _ _ _ Hf). apply records_kept_refl.
  - rewrite (search_fragment_program_miss _ _ _ Hf). split; cbn.
    + exists []. now rewrite app_nil_r.
    + eexists. reflexivity.
Qed.

Lemma records_kept_link_pipeline c probe v f props args :
  records_kept c (cache_after (link_pipeline probe v f props args c)).
Proof.
  destruct (link_pipeline_frame c probe v f props args) as (_ & Hv & Hf).
  cbv zeta in *. split; exists []; now rewrite app_nil_r.
Qed.

Lemma records_kept_perform op c : records_kept c (cache_after (perform op c)).
Proof.
  destruct op as [vp | mem fp | mem vp fp props args].
  - rewrite cache_after_resolve_vertex. apply records_kept_search_vertex.
  - rewrite cache_after_resolve_fragment. apply records_kept_search_fragment.
  - rewrite cache_after_get_or_build.
    pose proof (getGraphicPipelineState_steps mem vp fp props args c) as Hs.
    cbv zeta in Hs. rewrite Hs. clear Hs. unfold cache_after at 1. cbn [fst snd].
    eapply records_kept_trans; [apply records_kept_search_vertex|].
    eapply records_kept_trans; [apply records_kept_search_fragment|].
    apply records_kept_link_pipeline.
Qed.

Lemma run_app ops1 ops2 c :
  run (ops1 ++ ops2) c
  = (fst (run ops2 (fst (run ops1 c))), snd (run ops1 c) ++ snd (run ops2 (fst (run ops1 c)))).
Proof.
  induction ops2 as [|op ops2 IH] using rev_ind.
  - rewrite app_nil_r. change (run [] (fst (run ops1 c))) with (fst (run ops1 c), @nil event).
    cbn [fst snd]. rewrite app_nil_r. now destruct (run ops1 c).
  - rewrite app_assoc, !run_snoc, IH. cbn [fst snd]. now rewrite app_assoc.
Qed.

Lemma records_kept_run ops c : records_kept c (fst (run ops c)).
Proof.
  induction ops as [|op ops IH] using rev_ind; [apply records_kept_refl|].
  rewrite run_snoc. cbn [fst].
  eapply records_kept_trans; [exact IH | apply records_kept_perform].
Qed.

Lemma records_kept_vertex_program_at c c' ref :
  records_kept c c' -> (ref < length (m_vertex_shader_cache c))%nat ->
  vertex_program_at c' ref = vertex_program_at c ref.
Proof.
  intros [[more Hv] _] Hlt. unfold vertex_program_at. rewrite Hv.
  now apply second_app_old.
Qed.

Lemma records_kept_fragment_program_at c c' ref :
  records_kept c c' -> (ref < length (m_fragment_shader_cache c))%nat ->
  fragment_program_at c' ref = fragment_program_at c ref.
Proof.
  intros [_ [more Hf]] Hlt. unfold fragment_program_at. rewrite Hf.
  now apply second_app_old.
Qed.

(** **** A freshly compiled stage program *)

Lemma search_vertex_program_fresh c vp :
  snd (value (search_vertex_program vp c)) = false ->
  find (vertex_key_eq (data vp)) (m_vertex_shader_cache c) = None
  /\ vertex_program_at (cache_after (search_vertex_program vp c))
       (fst (value (search_vertex_program vp c)))
     = compiled_vertex c vp.
Proof.
  destruct (find (vertex_key_eq (data vp)) (m_vertex_shader_cache c)) as [it|] eqn:Hf.
  - rewrite (search_vertex_program_hit _ _ _ Hf). cbn. discriminate.
  - rewrite (search_vertex_program_miss _ _ Hf). intros _. split; [reflexivity|].
    project. unfold vertex_program_at. cbn [m_vertex_shader_cache].
    apply second_app_new.
Qed.

Lemma search_fragment_program_fresh c mem fp :
  snd (value (search_fragment_program mem fp c)) = false ->
  find (fragment_key_eq (vm_base mem (addr fp))) (m_fragment_shader_cache c) = None
  /\ fragment_program_at (cache_after (search_fragment_program mem fp c))
       (fst (value (search_fragment_program mem fp c)))
     = compiled_fragment c mem fp.
Proof.
  destruct (find (fragment_key_eq (vm_base mem (addr fp))) (m_fragment_shader_cache c))
    as [it|] eqn:Hf.
  - rewrite (search_fragment_program_hit _ _ _ _ Hf). cbn. discriminate.
  - rewrite (search_fragment_program_miss _ _ _ Hf). intros _. split; [reflexivity|].
    project. unfold fragment_program_at. cbn [m_fragment_shader_cache].
    apply second_app_new.
Qed.

(** **** A draw request repeated *)

Lemma getGraphicPipelineState_again c mem1 vp1 fp1 args1 mem2 vp2 fp2 args2 props :
  data vp1 = data vp2 ->
  fragment_program_compare (vm_base mem1 (addr fp1)) (vm_base mem2 (addr fp2)) = true ->
  getGraphicPipelineState mem2 vp2 fp2 props args2
    (cache_after (getGraphicPipelineState mem1 vp1 fp1 props args1 c))
  = (value (getGraphicPipelineState mem1 vp1 fp1 props args1 c),
     cache_after (getGraphicPipelineState mem1 vp1 fp1 props args1 c), []).
Proof.
  intros Hd Hb.
  destruct (getGraphicPipelineState_caches mem1 vp1 fp1 props args1 c) as (Hvc & Hfc & _).
  cbv zeta in Hvc, Hfc.
  rewrite (getGraphicPipelineState_value mem1 vp1 fp1 props args1 c).
  pose proof (getGraphicPipelineState_cache_after mem1 vp1 fp1 props args1 c) as Hc3.
  cbv zeta in Hc3 |- *.
  set (c3 := cache_after (getGraphicPipelineState mem1 vp1 fp1 props args1 c)) in *.
  set (r1 := search_vertex_program vp1 c) in *.
  set (r2 := search_fragment_program mem1 fp1 (cache_after r1)) in *.
  set (r3 := link_pipeline (snd (value r2) && snd (value r1)) (fst (value r1))
               (fst (value r2)) props args1 (cache_after r2)) in *.
  assert (Hv : search_vertex_program vp2 c3 = ((fst (value r1), true), c3, [])).
  { apply search_vertex_program_hit. rewrite Hvc, <- Hd. apply find_after_search_vertex. }
  assert (Hf : search_fragment_program mem2 fp2 c3 = ((fst (value r2), true), c3, [])).
  { apply search_fragment_program_hit. rewrite Hfc.
    rewrite <- (find_fragment_congr _ _ _ Hb). apply find_after_search_fragment. }
  assert (Hl : link_pipeline true (fst (value r1)) (fst (value r2)) props args2 c3
               = (value r3, c3, [])).
  { apply link_pipeline_hit.
    destruct (link_pipeline_frame (cache_after r2) (snd (value r2) && snd (value r1))
                (fst (value r1)) (fst (value r2)) props args1) as (_ & Hlv & Hlf).
    cbv zeta in Hlv, Hlf. fold r3 in Hlv, Hlf. rewrite <- Hc3 in Hlv, Hlf.
    rewrite (draw_key_stage_caches (cache_after r2) c3 _ _ props Hlv Hlf).
    rewrite Hc3. apply find_after_link_pipeline. }
  pose proof (getGraphicPipelineState_steps mem2 vp2 fp2 props args2 c3) as Hs.
  cbv zeta in Hs. rewrite Hs, Hv.
  cbv [value cache_after events fst snd] in Hf, Hl |- *. rewrite Hf.
  cbv [fst snd andb]. now rewrite Hl.
Qed.

Lemma build_count_getGraphicPipelineState c mem vp fp props args :
  build_count (events (getGraphicPipelineState mem vp fp props args c))
  = if pipeline_cached mem vp fp props c then O else 1%nat.
Proof.
  rewrite getGraphicPipelineState_events. cbv zeta.
  rewrite !build_count_app, build_count_search_vertex, build_count_search_fragment.
  rewrite build_count_link_pipeline. unfold pipeline_cached. cbn [Nat.add].
  destruct (find (vertex_key_eq (data vp)) (m_vertex_shader_cache c)) as [v|] eqn:Hv.
  - rewrite (search_vertex_program_hit _ _ _ Hv). project.
    destruct (find (fragment_key_eq (vm_base mem (addr fp))) (m_fragment_shader_cache c))
      as [f|] eqn:Hf.
    + rewrite (search_fragment_program_hit _ _ _ _ Hf). project. cbn [andb].
      now destruct (find _ (m_storage c)).
    + now rewrite (search_fragment_program_miss _ _ _ Hf).
  - rewrite (search_vertex_program_miss _ _ Hv). project.
    now rewrite andb_false_r.
Qed.

(** **** Where identities come from *)

Lemma u32_size_t x : u32 (size_t x) = u32 x.
Proof.
  unfold u32, size_t. apply Z.mod_mod_divide.
  exists (2 ^ 32). reflexivity.
Qed.

Lemma u32_u32 x : u32 (u32 x) = u32 x.
Proof. unfold u32. apply Z.mod_mod. lia. Qed.

Lemma minted_u32 c x : minted c x -> minted c (u32 x).
Proof. intros (n & Hn & ->). exists n. now rewrite u32_u32. Qed.

Lemma minted_mono c c' x :
  stage_program_count c <= stage_program_count c' -> minted c x -> minted c' x.
Proof. intros Hle (n & Hn & ->). exists n. split; [lia | reflexivity]. Qed.

Lemma identities_minted_init : identities_minted init.
Proof.
  split; [reflexivity|]. split; [intros ? []|]. split; intros ? [].
Qed.

Lemma identities_minted_search_vertex c vp :
  identities_minted c -> identities_minted (cache_after (search_vertex_program vp c)).
Proof.
  intros (Hnext & Hv & Hf & Hs).
  destruct (find (vertex_key_eq (data vp)) (m_vertex_shader_cache c)) as [it|] eqn:Hfind.
  - rewrite (search_vertex_program_hit _ _ _ Hfind). exact (conj Hnext (conj Hv (conj Hf Hs))).
  - rewrite (search_vertex_program_miss _ _ Hfind). project.
    set (c' := {| m_next_id := _ |}).
    assert (Hcount : stage_program_count c' = stage_program_count c + 1).
    { unfold stage_program_count. cbn. rewrite length_app. cbn. lia. }
    assert (Hmono : forall x, minted c x -> minted c' x)
      by (intros x; apply minted_mono; lia).
    split; [|split; [|split]].
    + cbn. now rewrite Hcount, Hnext, size_t_succ.
    + cbn [m_vertex_shader_cache c']. intros r. rewrite map_app, in_app_iff.
      cbn [map snd In]. intros [Hin | [<- | []]]; [now apply Hmono, Hv|].
      unfold compiled_vertex. rewrite recompile_vertex_program_id, Hnext, u32_size_t.
      exists (stage_program_count c). split; [|reflexivity].
      unfold stage_program_count in *. lia.
    + intros r Hin. now apply Hmono, Hf.
    + intros k Hin. destruct (Hs k Hin). split; now apply Hmono.
Qed.

Lemma identities_minted_search_fragment c mem fp :
  identities_minted c -> identities_minted (cache_after (search_fragment_program mem fp c)).
Proof.
  intros (Hnext & Hv & Hf & Hs).
  destruct (find (fragment_key_eq (vm_base mem (addr fp))) (m_fragment_shader_cache c))
    as [it|] eqn:Hfind.
  - rewrite (search_fragment_program_hit _ _ _ _ Hfind).
    exact (conj Hnext (conj Hv (conj Hf Hs))).
  - rewrite (search_fragment_program_miss _ _ _ Hfind). project.
    set (c' := {| m_next_id := _ |}).
    assert (Hcount : stage_program_count c' = stage_program_count c + 1).
    { unfold stage_program_count. cbn. rewrite length_app. cbn. lia. }
    assert (Hmono : forall x, minted c x -> minted c' x)
      by (intros x; apply minted_mono; lia).
    split; [|split; [|split]].
    + cbn. now rewrite Hcount, Hnext, size_t_succ.
    + intros r Hin. now apply Hmono, Hv.
    + cbn [m_fragment_shader_cache c']. intros r. rewrite map_app, in_app_iff.
      cbn [map snd In]. intros [Hin | [<- | []]]; [now apply Hmono, Hf|].
      unfold compiled_fragment. rewrite recompile_fragment_program_id, Hnext, u32_size_t.
      exists (stage_program_count c). split; [|reflexivity].
      unfold stage_program_count in *. lia.
    + intros k Hin. destruct (Hs k Hin). split; now apply Hmono.
Qed.

Lemma keys_app {K V} (m m' : unordered_map.t K V) : keys (m ++ m') = keys m ++ keys m'.
Proof. unfold keys. apply map_app. Qed.

Lemma identities_minted_link_pipeline c probe v f props args :
  (v < length (m_vertex_shader_cache c))%nat ->
  (f < length (m_fragment_shader_cache c))%nat ->
  identities_minted c ->
  identities_minted (cache_after (link_pipeline probe v f props args c)).
Proof.
  intros Hvl Hfl (Hnext & Hv & Hf & Hs).
  assert (Hbuild : forall built,
             identities_minted
               (with_storage c (stored_table c (draw_key c v f props) built))).
  { intros built. split; [exact Hnext|]. split; [exact Hv|]. split; [exact Hf|].
    cbn [m_storage with_storage]. unfold stored_table. intros k.
    destruct (find (storage_key_eq (draw_key c v f props)) (m_storage c)) as [j|].
    - rewrite keys_assign. apply Hs.
    - rewrite keys_app, in_app_iff. cbn [keys map fst In].
      intros [Hin | [<- | []]]; [now apply Hs|].
      split; apply minted_u32.
      + apply Hv. now apply second_In.
      + apply Hf. now apply second_In. }
  destruct probe;
    [destruct (find (storage_key_eq (draw_key c v f props)) (m_storage c)) as [it|] eqn:Hfind|].
  - rewrite (link_pipeline_hit _ _ _ _ _ _ Hfind). exact (conj Hnext (conj Hv (conj Hf Hs))).
  - rewrite link_pipeline_build by now right. apply Hbuild.
  - rewrite link_pipeline_build by now left. apply Hbuild.
Qed.

Lemma reachable_identities_minted c : reachable c -> identities_minted c.
Proof.
  revert c. apply reachable_invariant; [apply identities_minted_init|].
  apply perform_preserves.
  - apply identities_minted_search_vertex.
  - apply identities_minted_search_fragment.
  - apply identities_minted_link_pipeline.
Qed.

(** The identity the counter hands out next is in no pipeline key, as long
    as fewer than 2^32 stage programs exist. *)
Lemma next_identity_unused c :
  identities_minted c -> stage_program_count c < 2 ^ 32 ->
  forall k, In k (keys (m_storage c)) ->
    vertex_program_id k <> u32 (m_next_id c)
    /\ fragment_program_id k <> u32 (m_next_id c).
Proof.
  intros (Hnext & _ & _ & Hs) Hlt k Hin.
  assert (Hcount : 0 <= stage_program_count c) by (unfold stage_program_count; lia).
  rewrite Hnext, u32_size_t.
  destruct (Hs k Hin) as [(n & Hn & ->) (n' & Hn' & ->)].
  unfold u32. rewrite !Z.mod_small by lia. lia.
Qed.

Lemma stage_program_count_search_vertex c vp :
  stage_program_count (cache_after (search_vertex_program vp c))
  <= stage_program_count c + 1.
Proof.
  destruct (find (vertex_key_eq (data vp)) (m_vertex_shader_cache c)) as [it|] eqn:Hf.
  - rewrite (search_vertex_program_hit _ _ _ Hf). project. lia.
  - rewrite (search_vertex_program_miss _ _ Hf). unfold stage_program_count. cbn.
    rewrite length_app. cbn. lia.
Qed.

Lemma find_storage_other_vertex (m : unordered_map.t pipeline_key pipeline_storage_type) key :
  (forall k, In k (keys m) -> vertex_program_id k <> vertex_program_id key) ->
  find (storage_key_eq key) m = None.
Proof.
  intros Hne. apply find_None. intros k Hin. unfold storage_key_eq, pipeline_key_compare.
  apply Hne in Hin. apply Z.eqb_neq in Hin. now rewrite Hin.
Qed.

Lemma find_storage_other_fragment (m : unordered_map.t pipeline_key pipeline_storage_type) key :
  (forall k, In k (keys m) -> fragment_program_id k <> fragment_program_id key) ->
  find (storage_key_eq key) m = None.
Proof.
  intros Hne. apply find_None. intros k Hin. unfold storage_key_eq, pipeline_key_compare.
  apply Hne in Hin. apply Z.eqb_neq in Hin. rewrite Hin. now rewrite andb_false_r.
Qed.

(** When a stage program was just compiled, the key of the draw is not in
    the pipeline table. *)
Lemma fresh_program_key_not_stored c mem vp fp props :
  identities_minted c -> stage_program_count c + 1 < 2 ^ 32 ->
  let r1 := search_vertex_program vp c in
  let r2 := search_fragment_program mem fp (cache_after r1) in
  snd (value r2) && snd (value r1) = false ->
  find (storage_key_eq (draw_key (cache_after r2) (fst (value r1)) (fst (value r2)) props))
    (m_storage (cache_after r2)) = None.
Proof.
  intros Hm Hlt r1 r2 E.
  destruct (search_vertex_program_frame c vp) as [_ Hs1].
  destruct (search_fragment_program_frame (cache_after r1) mem fp) as [Hv2 Hs2].
  cbv zeta in Hs1, Hv2, Hs2. fold r1 in Hs1, Hv2, Hs2. fold r2 in Hv2, Hs2.
  apply andb_false_iff in E. destruct E as [Ef | Ev].
  - apply find_storage_other_fragment. intros k Hin.
    destruct (search_fragment_program_fresh (cache_after r1) mem fp Ef) as [_ Hrec].
    fold r2 in Hrec. unfold draw_key. cbn [fragment_program_id]. rewrite Hrec.
    unfold compiled_fragment. rewrite recompile_fragment_program_id, u32_u32.
    rewrite Hs2 in Hin.
    apply (next_identity_unused (cache_after r1)); [| |exact Hin].
    + now apply identities_minted_search_vertex.
    + pose proof (stage_program_count_search_vertex c vp). fold r1 in H. lia.
  - apply find_storage_other_vertex. intros k Hin.
    destruct (search_vertex_program_fresh c vp Ev) as [_ Hrec]. fold r1 in Hrec.
    unfold draw_key. cbn [vertex_program_id].
    unfold vertex_program_at in *. rewrite Hv2, Hrec.
    unfold compiled_vertex. rewrite recompile_vertex_program_id, u32_u32.
    rewrite Hs2, Hs1 in Hin.
    apply (next_identity_unused c); [exact Hm | lia | exact Hin].
Qed.

(** **** A draw whose pipeline is stored *)

Lemma getGraphicPipelineState_cached c mem vp fp props args :
  pipeline_cached mem vp fp props c = true ->
  exists v f it,
    find (vertex_key_eq (data vp)) (m_vertex_shader_cache c) = Some v
    /\ find (fragment_key_eq (vm_base mem (addr fp))) (m_fragment_shader_cache c) = Some f
    /\ find (storage_key_eq (draw_key c v f props)) (m_storage c) = Some it
    /\ getGraphicPipelineState mem vp fp props args c = (it, c, []).
Proof.
  unfold pipeline_cached. intros Hc.
  destruct (find (vertex_key_eq (data vp)) (m_vertex_shader_cache c)) as [v|] eqn:Hv;
    [|discriminate].
  destruct (find (fragment_key_eq (vm_base mem (addr fp))) (m_fragment_shader_cache c))
    as [f|] eqn:Hf; [|discriminate].
  destruct (find (storage_key_eq (draw_key c v f props)) (m_storage c)) as [it|] eqn:Hs;
    [|discriminate].
  exists v, f, it. split; [reflexivity|]. split; [reflexivity|]. split; [exact Hs|].
  pose proof (getGraphicPipelineState_steps mem vp fp props args c) as Hsteps.
  cbv zeta in Hsteps. rewrite Hsteps.
  rewrite (search_vertex_program_hit _ _ _ Hv).
  cbv [value cache_after events fst snd].
  rewrite (search_fragment_program_hit _ _ _ _ Hf).
  cbv [fst snd andb]. now rewrite (link_pipeline_hit _ _ _ _ _ _ Hs).
Qed.

Lemma build_count_nil_events es : es = [] -> build_count es = O.
Proof. now intros ->. Qed.

(** **** Lookups after further operations *)

Lemma find_vertex_kept c c' binary it :
  records_kept c c' ->
  find (vertex_key_eq binary) (m_vertex_shader_cache c) = Some it ->
  find (vertex_key_eq binary) (m_vertex_shader_cache c') = Some it.
Proof. intros [[more ->] _] Hf. now apply find_app_Some. Qed.

Lemma find_fragment_kept c c' b it :
  records_kept c c' ->
  find (fragment_key_eq b) (m_fragment_shader_cache c) = Some it ->
  find (fragment_key_eq b) (m_fragment_shader_cache c') = Some it.
Proof. intros [_ [more ->]] Hf. now apply find_app_Some. Qed.

(** **** Identities are not shared *)

Lemma minted_small c x :
  minted c x -> stage_program_count c <= 2 ^ 32 -> 0 <= x < stage_program_count c.
Proof. intros (n & Hn & ->) Hle. unfold u32. rewrite Z.mod_small; lia. Qed.

Lemma stage_ids_minted c x : identities_minted c -> In x (stage_ids c) -> minted c x.
Proof.
  intros (_ & Hv & Hf & _) Hin. unfold stage_ids in Hin. apply in_app_iff in Hin.
  destruct Hin as [Hin | Hin]; apply in_map_iff in Hin; destruct Hin as (r & <- & Hr); auto.
Qed.

Lemma next_identity_not_a_stage_id c :
  identities_minted c -> stage_program_count c < 2 ^ 32 ->
  u32 (m_next_id c) = stage_program_count c /\ ~ In (u32 (m_next_id c)) (stage_ids c).
Proof.
  intros Hm Hlt.
  assert (Hcount : 0 <= stage_program_count c) by (unfold stage_program_count; lia).
  assert (Hid : u32 (m_next_id c) = stage_program_count c).
  { destruct Hm as (-> & _). rewrite u32_size_t. unfold u32. rewrite Z.mod_small; lia. }
  split; [exact Hid|]. rewrite Hid. intros Hin.
  apply (stage_ids_minted _ _ Hm) in Hin. apply minted_small in Hin; lia.
Qed.

Lemma ids_unique_search_vertex c vp :
  identities_minted c ->
  (stage_program_count c <= 2 ^ 32 -> NoDup (stage_ids c)) ->
  stage_program_count (cache_after (search_vertex_program vp c)) <= 2 ^ 32 ->
  NoDup (stage_ids (cache_after (search_vertex_program vp c))).
Proof.
  intros Hm Hnd.
  destruct (find (vertex_key_eq (data vp)) (m_vertex_shader_cache c)) as [it|] eqn:Hf.
  - rewrite (search_vertex_program_hit _ _ _ Hf). exact Hnd.
  - rewrite (search_vertex_program_miss _ _ Hf). project. intros Hle.
    assert (Hlt : stage_program_count c < 2 ^ 32).
    { unfold stage_program_count in *. cbn in Hle. rewrite length_app in Hle. cbn in Hle. lia. }
    destruct (next_identity_not_a_stage_id c Hm Hlt) as [_ Hnew].
    unfold stage_ids. cbn [m_vertex_shader_cache m_fragment_shader_cache].
    rewrite !map_app. cbn [map snd]. rewrite <- app_assoc. cbn [app].
    unfold compiled_vertex. rewrite recompile_vertex_program_id.
    eapply NoDup_Add; [apply Add_app|]. split; [apply Hnd; lia | exact Hnew].
Qed.

Lemma ids_unique_search_fragment c mem fp :
  identities_minted c ->
  (stage_program_count c <= 2 ^ 32 -> NoDup (stage_ids c)) ->
  stage_program_count (cache_after (search_fragment_program mem fp c)) <= 2 ^ 32 ->
  NoDup (stage_ids (cache_after (search_fragment_program mem fp c))).
Proof.
  intros Hm Hnd.
  destruct (find (fragment_key_eq (vm_base mem (addr fp))) (m_fragment_shader_cache c))
    as [it|] eqn:Hf.
  - rewrite (search_fragment_program_hit _ _ _ _ Hf). exact Hnd.
  - rewrite (search_fragment_program_miss _ _ _ Hf). project. intros Hle.
    assert (Hlt : stage_program_count c < 2 ^ 32).
    { unfold stage_program_count in *. cbn in Hle. rewrite length_app in Hle. cbn in Hle. lia. }
    destruct (next_identity_not_a_stage_id c Hm Hlt) as [_ Hnew].
    unfold stage_ids. cbn [m_vertex_shader_cache m_fragment_shader_cache].
    rewrite !map_app. cbn [map snd]. rewrite app_assoc.
    unfold compiled_fragment. rewrite recompile_fragment_program_id.
    eapply NoDup_Add; [apply Add_app|]. rewrite app_nil_r.
    split; [apply Hnd; lia | exact Hnew].
Qed.

(** In a reachable cache with at most 2^32 stage programs no two of them,
    of either stage, have the same identity. *)
Lemma reachable_ids_unique c :
  reachable c -> stage_program_count c <= 2 ^ 32 -> NoDup (stage_ids c).
Proof.
  intros Hr.
  enough (H : identities_minted c
              /\ (stage_program_count c <= 2 ^ 32 -> NoDup (stage_ids c))) by apply H.
  revert c Hr.
  apply (reachable_invariant
           (fun c => identities_minted c
                     /\ (stage_program_count c <= 2 ^ 32 -> NoDup (stage_ids c)))).
  - split; [apply identities_minted_init | intros _; constructor].
  - apply perform_preserves.
    + intros c vp [Hm Hnd]. split; [now apply identities_minted_search_vertex|].
      now apply ids_unique_search_vertex.
    + intros c mem fp [Hm Hnd]. split; [now apply identities_minted_search_fragment|].
      now apply ids_unique_search_fragment.
    + intros c probe v f props args Hv Hf [Hm Hnd].
      split; [now apply identities_minted_link_pipeline|].
      destruct (link_pipeline_frame c probe v f props args) as (_ & Hvc & Hfc).
      cbv zeta in Hvc, Hfc. unfold stage_ids, stage_program_count.
      rewrite Hvc, Hfc. exact Hnd.
Qed.

Lemma vp_id_at c ref :
  vp_id (vertex_program_at c ref)
  = nth ref (map vp_id (map snd (m_vertex_shader_cache c))) (vp_id vertex_program_default).
Proof. unfold vertex_program_at, unordered_map.second. symmetry. apply map_nth. Qed.

Lemma fp_id_at c ref :
  fp_id (fragment_program_at c ref)
  = nth ref (map fp_id (map snd (m_fragment_shader_cache c))) (fp_id fragment_program_default).
Proof. unfold fragment_program_at, unordered_map.second. symmetry. apply map_nth. Qed.

Lemma vertex_identity_injective c i j :
  NoDup (stage_ids c) ->
  (i < length (m_vertex_shader_cache c))%nat ->
  (j < length (m_vertex_shader_cache c))%nat ->
  vp_id (vertex_program_at c i) = vp_id (vertex_program_at c j) -> i = j.
Proof.
  intros Hnd Hi Hj E. apply NoDup_app_remove_r in Hnd.
  rewrite !vp_id_at in E. eapply NoDup_nth; [exact Hnd| | |exact E];
    now rewrite !length_map.
Qed.

Lemma fragment_identity_injective c i j :
  NoDup (stage_ids c) ->
  (i < length (m_fragment_shader_cache c))%nat ->
  (j < length (m_fragment_shader_cache c))%nat ->
  fp_id (fragment_program_at c i) = fp_id (fragment_program_at c j) -> i = j.
Proof.
  intros Hnd Hi Hj E. apply NoDup_app_remove_l in Hnd.
  rewrite !fp_id_at in E. eapply NoDup_nth; [exact Hnd| | |exact E];
    now rewrite !length_map.
Qed.

Lemma NoDup_app_disjoint (l1 l2 : list Z) a :
  NoDup (l1 ++ l2) -> In a l1 -> In a l2 -> False.
Proof.
  induction l1 as [|x l1 IH]; cbn; intros Hnd H1 H2; [contradiction|].
  apply NoDup_cons_iff in Hnd. destruct Hnd as [Hx Hnd].
  destruct H1 as [-> | H1]; [|now apply IH].
  apply Hx, in_app_iff. now right.
Qed.

Lemma vertex_fragment_identities_differ c i j :
  NoDup (stage_ids c) ->
  (i < length (m_vertex_shader_cache c))%nat ->
  (j < length (m_fragment_shader_cache c))%nat ->
  vp_id (vertex_program_at c i) <> fp_id (fragment_program_at c j).
Proof.
  intros Hnd Hi Hj E. unfold stage_ids in Hnd.
  rewrite vp_id_at, fp_id_at in E.
  apply (NoDup_app_disjoint _ _
           (nth i (map vp_id (map snd (m_vertex_shader_cache c)))
              (vp_id vertex_program_default)) Hnd).
  - apply nth_In. now rewrite !length_map.
  - rewrite E. apply nth_In. now rewrite !length_map.
Qed.

(** **** What a stored pipeline was built from *)

Lemma draw_key_kept c c' v f props :
  records_kept c c' ->
  (v < length (m_vertex_shader_cache c))%nat ->
  (f < length (m_fragment_shader_cache c))%nat ->
  draw_key c' v f props = draw_key c v f props.
Proof.
  intros Hk Hv Hf. unfold draw_key.
  now rewrite (records_kept_vertex_program_at _ _ _ Hk Hv),
              (records_kept_fragment_program_at _ _ _ Hk Hf).
Qed.

Lemma pipelines_built_kept c c' :
  records_kept c c' -> m_storage c' = m_storage c ->
  pipelines_built c -> pipelines_built c'.
Proof.
  intros Hk Hs Hb it key object Hn. rewrite Hs in Hn.
  destruct (Hb it key object Hn) as (v & f & args & Hv & Hf & Hkey & Hobj).
  exists v, f, args.
  destruct Hk as [[mv Hmv] [mf Hmf]].
  split; [rewrite Hmv, length_app; lia|]. split; [rewrite Hmf, length_app; lia|].
  assert (Hk' : records_kept c c') by (split; eauto).
  rewrite (draw_key_kept _ _ _ _ _ Hk' Hv Hf).
  rewrite (records_kept_vertex_program_at _ _ _ Hk' Hv),
          (records_kept_fragment_program_at _ _ _ Hk' Hf).
  auto.
Qed.

Lemma pipelines_built_link_pipeline c probe v f props args :
  (v < length (m_vertex_shader_cache c))%nat ->
  (f < length (m_fragment_shader_cache c))%nat ->
  pipelines_built c ->
  pipelines_built (cache_after (link_pipeline probe v f props args c)).
Proof.
  intros Hv Hf Hb.
  assert (Hbuild :
            pipelines_built
              (with_storage c
                 (stored_table c (draw_key c v f props)
                    (build_pipeline (vertex_program_at c v) (fragment_program_at c f)
                       props args)))).
  { intros it key object Hn. cbn [m_storage with_storage] in Hn.
    change (draw_key (with_storage c _)) with (draw_key c).
    change (vertex_program_at (with_storage c _)) with (vertex_program_at c).
    change (fragment_program_at (with_storage c _)) with (fragment_program_at c).
    cbn [m_vertex_shader_cache m_fragment_shader_cache with_storage].
    unfold stored_table in Hn.
    destruct (find (storage_key_eq (draw_key c v f props)) (m_storage c)) as [j|] eqn:Hfind.
    - destruct (Nat.eq_dec j it) as [-> | Hne].
      + destruct (find_Some _ _ _ Hfind) as (k & o & Hk & Hcmp).
        rewrite (nth_error_assign_same _ _ _ _ _ Hk) in Hn. injection Hn as <- <-.
        apply pipeline_key_compare_eq in Hcmp. subst k.
        exists v, f, args. auto.
      + rewrite nth_error_assign_other in Hn by exact Hne. now apply (Hb it).
    - destruct (Nat.lt_ge_cases it (length (m_storage c))) as [Hlt | Hge].
      + rewrite nth_error_app1 in Hn by exact Hlt. now apply (Hb it).
      + rewrite nth_error_app2 in Hn by exact Hge.
        destruct (it - length (m_storage c))%nat as [|[|n]]; cbn in Hn; try discriminate.
        injection Hn as <- <-. exists v, f, args. auto. }
  destruct probe;
    [destruct (find (storage_key_eq (draw_key c v f props)) (m_storage c)) as [it|] eqn:Hfind|].
  - now rewrite (link_pipeline_hit _ _ _ _ _ _ Hfind).
  - rewrite link_pipeline_build by now right. exact Hbuild.
  - rewrite link_pipeline_build by now left. exact Hbuild.
Qed.

Lemma reachable_pipelines_built c : reachable c -> pipelines_built c.
Proof.
  revert c. apply reachable_invariant.
  - intros [|it] key object Hn; discriminate Hn.
  - apply perform_preserves.
    + intros c vp Hb. apply (pipelines_built_kept c); [| |exact Hb].
      * apply records_kept_search_vertex.
      * apply search_vertex_program_frame.
    + intros c mem fp Hb. apply (pipelines_built_kept c); [| |exact Hb].
      * apply records_kept_search_fragment.
      * apply search_fragment_program_frame.
    + apply pipelines_built_link_pipeline.
Qed.

Lemma reachable_getGraphicPipelineState c mem vp fp props args :
  reachable c -> reachable (cache_after (getGraphicPipelineState mem vp fp props args c)).
Proof. intros Hr. rewrite <- cache_after_get_or_build. now apply reachable_perform. Qed.

Lemma stage_program_count_search_fragment c mem fp :
  stage_program_count (cache_after (search_fragment_program mem fp c))
  <= stage_program_count c + 1.
Proof.
  destruct (find (fragment_key_eq (vm_base mem (addr fp))) (m_fragment_shader_cache c))
    as [it|] eqn:Hf.
  - rewrite (search_fragment_program_hit _ _ _ _ Hf). project. lia.
  - rewrite (search_fragment_program_miss _ _ _ Hf). unfold stage_program_count. cbn.
    rewrite length_app. cbn. lia.
Qed.

Lemma stage_program_count_getGraphicPipelineState c mem vp fp props args :
  stage_program_count (cache_after (getGraphicPipelineState mem vp fp props args c))
  <= stage_program_count c + 2.
Proof.
  destruct (getGraphicPipelineState_caches mem vp fp props args c) as (Hv & Hf & _).
  cbv zeta in Hv, Hf.
  pose proof (stage_program_count_search_vertex c vp) as H1.
  pose proof (stage_program_count_search_fragment (cache_after (search_vertex_program vp c))
                mem fp) as H2.
  destruct (search_fragment_program_frame (cache_after (search_vertex_program vp c)) mem fp)
    as [Hv2 _]. cbv zeta in Hv2.
  unfold stage_program_count in *. rewrite Hv, Hf. rewrite Hv2 in H2. lia.
Qed.

(** The slot a draw returns holds the key of the draw. *)
Lemma getGraphicPipelineState_slot c mem vp fp props args :
  let r := getGraphicPipelineState mem vp fp props args c in
  exists v f object,
    find (vertex_key_eq (data vp)) (m_vertex_shader_cache (cache_after r)) = Some v
    /\ find (fragment_key_eq (vm_base mem (addr fp))) (m_fragment_shader_cache (cache_after r))
       = Some f
    /\ nth_error (m_storage (cache_after r)) (value r)
       = Some (draw_key (cache_after r) v f props, object).
Proof.
  cbv zeta.
  destruct (getGraphicPipelineState_caches mem vp fp props args c) as (Hvc & Hfc & _).
  cbv zeta in Hvc, Hfc.
  rewrite (getGraphicPipelineState_value mem vp fp props args c).
  pose proof (getGraphicPipelineState_cache_after mem vp fp props args c) as Hc3.
  cbv zeta in Hc3 |- *.
  set (c3 := cache_after (getGraphicPipelineState mem vp fp props args c)) in *.
  set (r1 := search_vertex_program vp c) in *.
  set (r2 := search_fragment_program mem fp (cache_after r1)) in *.
  set (r3 := link_pipeline (snd (value r2) && snd (value r1)) (fst (value r1))
               (fst (value r2)) props args (cache_after r2)) in *.
  exists (fst (value r1)), (fst (value r2)).
  pose proof (find_after_link_pipeline (cache_after r2) (snd (value r2) && snd (value r1))
                (fst (value r1)) (fst (value r2)) props args) as Hfind.
  fold r3 in Hfind. rewrite <- Hc3 in Hfind.
  destruct (find_Some _ _ _ Hfind) as (k & object & Hk & Hcmp).
  apply pipeline_key_compare_eq in Hcmp. subst k. exists object.
  split; [rewrite Hvc; apply find_after_search_vertex|].
  split; [rewrite Hfc; apply find_after_search_fragment|].
  rewrite Hk. do 2 f_equal. symmetry. apply draw_key_stage_caches.
  - rewrite Hvc. symmetry.
    exact (proj1 (search_fragment_program_frame (cache_after r1) mem fp)).
  - exact Hfc.
Qed.

(** **** The pipeline table only grows *)

Lemma stage_program_count_kept c c' :
  records_kept c c' -> stage_program_count c <= stage_program_count c'.
Proof.
  intros [[mv Hv] [mf Hf]]. unfold stage_program_count. rewrite Hv, Hf, !length_app. lia.
Qed.

Lemma identities_minted_perform op c :
  identities_minted c -> identities_minted (cache_after (perform op c)).
Proof.
  revert op c. apply perform_preserves.
  - apply identities_minted_search_vertex.
  - apply identities_minted_search_fragment.
  - apply identities_minted_link_pipeline.
Qed.

Lemma identities_minted_run ops c :
  identities_minted c -> identities_minted (fst (run ops c)).
Proof.
  intros Hm. induction ops as [|op ops IH] using rev_ind; [exact Hm|].
  rewrite run_snoc. cbn [fst]. now apply identities_minted_perform.
Qed.

Lemma stage_program_count_after_miss c mem vp fp :
  let r1 := search_vertex_program vp c in
  let r2 := search_fragment_program mem fp (cache_after r1) in
  snd (value r2) && snd (value r1) = false ->
  stage_program_count c + 1 <= stage_program_count (cache_after r2).
Proof.
  intros r1 r2 E.
  pose proof (stage_program_count_kept _ _ (records_kept_search_vertex c vp)) as H1.
  pose proof (stage_program_count_kept _ _
                (records_kept_search_fragment (cache_after r1) mem fp)) as H2.
  fold r1 in H1, H2. fold r2 in H2.
  apply andb_false_iff in E. destruct E as [Ef | Ev].
  - enough (stage_program_count (cache_after r2) = stage_program_count (cache_after r1) + 1)
      by lia.
    subst r2.
    destruct (find (fragment_key_eq (vm_base mem (addr fp)))
                (m_fragment_shader_cache (cache_after r1))) as [it|] eqn:Hf.
    + rewrite (search_fragment_program_hit _ _ _ _ Hf) in Ef. discriminate Ef.
    + rewrite (search_fragment_program_miss _ _ _ Hf). unfold stage_program_count. cbn.
      rewrite length_app. cbn. lia.
  - enough (stage_program_count (cache_after r1) = stage_program_count c + 1) by lia.
    subst r1.
    destruct (find (vertex_key_eq (data vp)) (m_vertex_shader_cache c)) as [it|] eqn:Hf.
    + rewrite (search_vertex_program_hit _ _ _ Hf) in Ev. discriminate Ev.
    + rewrite (search_vertex_program_miss _ _ Hf). unfold stage_program_count. cbn.
      rewrite length_app. cbn. lia.
Qed.

(** While identities fit 32 bits a draw stores a pipeline at the end of the
    table or not at all, and builds as many pipelines as it stores. *)
Lemma getGraphicPipelineState_appends c mem vp fp props args :
  identities_minted c ->
  stage_program_count (cache_after (getGraphicPipelineState mem vp fp props args c)) < 2 ^ 32 ->
  exists more,
    m_storage (cache_after (getGraphicPipelineState mem vp fp props args c))
    = m_storage c ++ more
    /\ build_count (events (getGraphicPipelineState mem vp fp props args c)) = length more.
Proof.
  intros Hm.
  rewrite getGraphicPipelineState_events, getGraphicPipelineState_cache_after. cbv zeta.
  rewrite !build_count_app, build_count_search_vertex, build_count_search_fragment.
  cbn [Nat.add].
  pose proof (stage_program_count_after_miss c mem vp fp) as Hmiss.
  pose proof (fresh_program_key_not_stored c mem vp fp props Hm) as Hfresh.
  destruct (search_vertex_program_frame c vp) as [_ Hs1].
  destruct (search_fragment_program_frame (cache_after (search_vertex_program vp c)) mem fp)
    as [_ Hs2].
  cbv zeta in Hmiss, Hfresh, Hs1, Hs2.
  set (r1 := search_vertex_program vp c) in *.
  set (r2 := search_fragment_program mem fp (cache_after r1)) in *.
  set (key := draw_key (cache_after r2) (fst (value r1)) (fst (value r2)) props) in *.
  intros Hlt.
  assert (Hcount : stage_program_count
                     (cache_after (link_pipeline (snd (value r2) && snd (value r1))
                                     (fst (value r1)) (fst (value r2)) props args
                                     (cache_after r2)))
                   = stage_program_count (cache_after r2)).
  { destruct (link_pipeline_frame (cache_after r2) (snd (value r2) && snd (value r1))
                (fst (value r1)) (fst (value r2)) props args) as (_ & Hv & Hf).
    cbv zeta in Hv, Hf. unfold stage_program_count. now rewrite Hv, Hf. }
  rewrite Hcount in Hlt.
  assert (Hcases : snd (value r2) && snd (value r1) = true
                   /\ (exists it, find (storage_key_eq key) (m_storage (cache_after r2)) = Some it)
                   \/ find (storage_key_eq key) (m_storage (cache_after r2)) = None).
  { destruct (snd (value r2) && snd (value r1)) eqn:E.
    - destruct (find (storage_key_eq key) (m_storage (cache_after r2))) as [it|];
        [left; eauto | now right].
    - right. apply Hfresh; [|reflexivity]. specialize (Hmiss eq_refl). lia. }
  destruct Hcases as [[E [it Hfind]] | Hnone].
  - rewrite E, (link_pipeline_hit _ _ _ _ _ _ Hfind).
    exists []. rewrite app_nil_r. split; [|reflexivity].
    change (m_storage (cache_after r2) = m_storage c). congruence.
  - rewrite link_pipeline_build by (right; exact Hnone). fold key.
    exists [(key, build_pipeline (vertex_program_at (cache_after r2) (fst (value r1)))
                    (fragment_program_at (cache_after r2) (fst (value r2))) props args)].
    split; [|reflexivity].
    cbv [cache_after fst snd m_storage with_storage]. unfold stored_table.
    cbv [cache_after fst snd] in Hnone, Hs1, Hs2. now rewrite Hnone, Hs2, Hs1.
Qed.

Lemma perform_appends op c :
  identities_minted c ->
  stage_program_count (cache_after (perform op c)) < 2 ^ 32 ->
  exists more,
    m_storage (cache_after (perform op c)) = m_storage c ++ more
    /\ build_count (events (perform op c)) = length more.
Proof.
  intros Hm. destruct op as [vp | mem fp | mem vp fp props args].
  - rewrite cache_after_resolve_vertex, events_resolve_vertex. intros _. exists [].
    rewrite app_nil_r, build_count_search_vertex.
    split; [apply search_vertex_program_frame | reflexivity].
  - rewrite cache_after_resolve_fragment, events_resolve_fragment. intros _. exists [].
    rewrite app_nil_r, build_count_search_fragment.
    split; [apply search_fragment_program_frame | reflexivity].
  - rewrite cache_after_get_or_build, events_get_or_build.
    now apply getGraphicPipelineState_appends.
Qed.

Lemma run_appends ops c :
  identities_minted c ->
  stage_program_count (fst (run ops c)) < 2 ^ 32 ->
  exists more,
    m_storage (fst (run ops c)) = m_storage c ++ more
    /\ build_count (snd (run ops c)) = length more.
Proof.
  intros Hm. induction ops as [|op ops IH] using rev_ind.
  - intros _. exists []. now rewrite app_nil_r.
  - rewrite run_snoc. cbn [fst snd]. intros Hlt.
    pose proof (stage_program_count_kept _ _ (records_kept_perform op (fst (run ops c)))) as Hle.
    destruct IH as (more1 & Hs1 & Hb1); [lia|].
    destruct (perform_appends op (fst (run ops c)) (identities_minted_run ops c Hm) Hlt)
      as (more2 & Hs2 & Hb2).
    exists (more1 ++ more2). rewrite Hs2, Hs1, app_assoc, build_count_app, Hb1, Hb2, length_app.
    auto.
Qed.

(** **** Each content is compiled once *)

Lemma recompile_vertex_count_app es1 es2 :
  recompile_vertex_count (es1 ++ es2)
  = (recompile_vertex_count es1 + recompile_vertex_count es2)%nat.
Proof. unfold recompile_vertex_count. now rewrite filter_app, length_app. Qed.

Lemma recompile_fragment_count_app es1 es2 :
  recompile_fragment_count (es1 ++ es2)
  = (recompile_fragment_count es1 + recompile_fragment_count es2)%nat.
Proof. unfold recompile_fragment_count. now rewrite filter_app, length_app. Qed.

(** A stage lookup calls its collaborator once for the record it adds and
    never calls the other one. *)
Lemma search_vertex_program_compiles c vp :
  let r := search_vertex_program vp c in
  (length (m_vertex_shader_cache (cache_after r))
   = length (m_vertex_shader_cache c) + recompile_vertex_count (events r))%nat
  /\ recompile_fragment_count (events r) = O
  /\ m_fragment_shader_cache (cache_after r) = m_fragment_shader_cache c.
Proof.
  destruct (find (vertex_key_eq (data vp)) (m_vertex_shader_cache c)) as [it|] eqn:Hf.
  - rewrite (search_vertex_program_hit _ _ _ Hf). cbn. auto.
  - rewrite (search_vertex_program_miss _ _ Hf). cbn. rewrite length_app. auto.
Qed.

Lemma search_fragment_program_compiles c mem fp :
  let r := search_fragment_program mem fp c in
  (length (m_fragment_shader_cache (cache_after r))
   = length (m_fragment_shader_cache c) + recompile_fragment_count (events r))%nat
  /\ recompile_vertex_count (events r) = O
  /\ m_vertex_shader_cache (cache_after r) = m_vertex_shader_cache c.
Proof.
  destruct (find (fragment_key_eq (vm_base mem (addr fp))) (m_fragment_shader_cache c))
    as [it|] eqn:Hf.
  - rewrite (search_fragment_program_hit _ _ _ _ Hf). cbn. auto.
  - rewrite (search_fragment_program_miss _ _ _ Hf). cbn. rewrite length_app. auto.
Qed.

Lemma link_pipeline_compiles c probe v f props args :
  recompile_vertex_count (events (link_pipeline probe v f props args c)) = O
  /\ recompile_fragment_count (events (link_pipeline probe v f props args c)) = O.
Proof.
  destruct probe;
    [destruct (find (storage_key_eq (draw_key c v f props)) (m_storage c)) as [it|] eqn:Hf|].
  - now rewrite (link_pipeline_hit _ _ _ _ _ _ Hf).
  - rewrite link_pipeline_build by now right. now cbn.
  - rewrite link_pipeline_build by now left. now cbn.
Qed.

Lemma perform_compiles op c :
  let r := perform op c in
  (length (m_vertex_shader_cache (cache_after r))
   = length (m_vertex_shader_cache c) + recompile_vertex_count (events r))%nat
  /\ (length (m_fragment_shader_cache (cache_after r))
      = length (m_fragment_shader_cache c) + recompile_fragment_count (events r))%nat.
Proof.
  cbv zeta. destruct op as [vp | mem fp | mem vp fp props args].
  - rewrite cache_after_resolve_vertex, events_resolve_vertex.
    destruct (search_vertex_program_compiles c vp) as (Hv & Hf & Hfc). cbv zeta in *.
    rewrite Hf, Hfc. split; [exact Hv | lia].
  - rewrite cache_after_resolve_fragment, events_resolve_fragment.
    destruct (search_fragment_program_compiles c mem fp) as (Hf & Hv & Hvc). cbv zeta in *.
    rewrite Hv, Hvc. split; [lia | exact Hf].
  - rewrite cache_after_get_or_build, events_get_or_build.
    rewrite getGraphicPipelineState_events, getGraphicPipelineState_cache_after. cbv zeta.
    destruct (search_vertex_program_compiles c vp) as (Hv1 & Hf1 & Hfc1).
    destruct (search_fragment_program_compiles (cache_after (search_vertex_program vp c))
                mem fp) as (Hf2 & Hv2 & Hvc2).
    cbv zeta in *.
    set (r1 := search_vertex_program vp c) in *.
    set (r2 := search_fragment_program mem fp (cache_after r1)) in *.
    set (r3 := link_pipeline _ _ _ props args (cache_after r2)).
    assert (H3 : recompile_vertex_count (events r3) = O
                 /\ recompile_fragment_count (events r3) = O) by apply link_pipeline_compiles.
    assert (Hfr : m_vertex_shader_cache (cache_after r3) = m_vertex_shader_cache (cache_after r2)
                  /\ m_fragment_shader_cache (cache_after r3)
                     = m_fragment_shader_cache (cache_after r2)) by apply link_pipeline_frame.
    destruct H3 as [H3v H3f]. destruct Hfr as [Hfrv Hfrf].
    rewrite !recompile_vertex_count_app, !recompile_fragment_count_app.
    rewrite Hfrv, Hfrf, H3v, H3f, Hv2, Hf1, Hvc2, Hf2, Hfc1, Hv1. lia.
Qed.

Lemma run_compiles ops :
  recompile_vertex_count (snd (run ops init))
  = length (m_vertex_shader_cache (fst (run ops init)))
  /\ recompile_fragment_count (snd (run ops init))
     = length (m_fragment_shader_cache (fst (run ops init))).
Proof.
  induction ops as [|op ops [IHv IHf]] using rev_ind; [now cbn|].
  rewrite run_snoc. cbn [fst snd].
  destruct (perform_compiles op (fst (run ops init))) as [Hv Hf]. cbv zeta in Hv, Hf.
  rewrite recompile_vertex_count_app, recompile_fragment_count_app. lia.
Qed.

Lemma distinct_keys_NoDup (m : binary_to_vertex_program) :
  distinct_keys vertex_program_compare m -> NoDup (keys m).
Proof.
  intros Hd. apply NoDup_nth_error. intros i j Hi E.
  rewrite !nth_error_keys in E.
  destruct (first m i) as [k|] eqn:Hk.
  - symmetry in E. apply (Hd i j k k Hk E), vertex_program_compare_refl.
  - rewrite <- nth_error_keys in Hk. apply nth_error_None in Hk. lia.
Qed.

(** The keys of the fragment map are the copies the lookups made. *)
Lemma fragment_keys_of_history ops k :
  In k (keys (m_fragment_shader_cache (fst (run ops init)))) ->
  exists b, In b (fragment_binaries ops) /\ k = valid_bytes b.
Proof.
  assert (Hstep : forall c mem fp k,
             In k (keys (m_fragment_shader_cache (cache_after (search_fragment_program mem fp c)))) ->
             In k (keys (m_fragment_shader_cache c)) \/ k = valid_bytes (vm_base mem (addr fp))).
  { intros c mem fp k0.
    destruct (find (fragment_key_eq (vm_base mem (addr fp))) (m_fragment_shader_cache c))
      as [it|] eqn:Hf.
    - rewrite (search_fragment_program_hit _ _ _ _ Hf). now left.
    - rewrite (search_fragment_program_miss _ _ _ Hf). project. cbn [m_fragment_shader_cache].
      rewrite keys_app, in_app_iff. cbn. intuition. }
  revert k. induction ops as [|op ops IH] using rev_ind; [intros k []|].
  intros k. rewrite run_snoc. cbn [fst].
  unfold fragment_binaries in *. rewrite flat_map_app. cbn [flat_map]. rewrite app_nil_r.
  setoid_rewrite in_app_iff.
  destruct op as [vp | mem fp | mem vp fp props args].
  - rewrite cache_after_resolve_vertex.
    destruct (search_vertex_program_frame (fst (run ops init)) vp) as [-> _].
    intros Hin. destruct (IH k Hin) as (b & Hb & ->). eauto.
  - rewrite cache_after_resolve_fragment. intros Hin.
    destruct (Hstep _ _ _ _ Hin) as [Hold | ->].
    + destruct (IH k Hold) as (b & Hb & ->). eauto.
    + eexists. split; [right; left; reflexivity | reflexivity].
  - rewrite cache_after_get_or_build.
    destruct (getGraphicPipelineState_caches mem vp fp props args (fst (run ops init)))
      as (_ & -> & Hc1).
    intros Hin. destruct (Hstep _ _ _ _ Hin) as [Hold | ->].
    + rewrite Hc1 in Hold. destruct (IH k Hold) as (b & Hb & ->). eauto.
    + eexists. split; [right; left; reflexivity | reflexivity].
Qed.

(** **** Pipelines under other keys *)

Lemma link_pipeline_keeps_other_keys c probe v f props args s k o :
  nth_error (m_storage c) s = Some (k, o) ->
  k <> draw_key c v f props ->
  nth_error (m_storage (cache_after (link_pipeline probe v f props args c))) s = Some (k, o).
Proof.
  intros Hs Hne.
  assert (Hbuild : forall built,
             nth_error (stored_table c (draw_key c v f props) built) s = Some (k, o)).
  { intros built. unfold stored_table.
    destruct (find (storage_key_eq (draw_key c v f props)) (m_storage c)) as [j|] eqn:Hfind.
    - rewrite nth_error_assign_other; [exact Hs|]. intros ->.
      destruct (find_Some _ _ _ Hfind) as (k' & o' & Hk' & Hcmp).
      rewrite Hs in Hk'. injection Hk' as <- <-.
      now apply pipeline_key_compare_eq in Hcmp.
    - rewrite nth_error_app1; [exact Hs|]. apply nth_error_Some. now rewrite Hs. }
  destruct probe;
    [destruct (find (storage_key_eq (draw_key c v f props)) (m_storage c)) as [it|] eqn:Hfind|].
  - now rewrite (link_pipeline_hit _ _ _ _ _ _ Hfind).
  - rewrite link_pipeline_build by now right. apply Hbuild.
  - rewrite link_pipeline_build by now left. apply Hbuild.
Qed.

Lemma getGraphicPipelineState_keeps_other_properties c mem vp fp props args s k o :
  nth_error (m_storage c) s = Some (k, o) ->
  properties k <> props ->
  nth_error (m_storage (cache_after (getGraphicPipelineState mem vp fp props args c))) s
  = Some (k, o).
Proof.
  intros Hs Hne. rewrite getGraphicPipelineState_cache_after. cbv zeta.
  apply link_pipeline_keeps_other_keys.
  - destruct (search_fragment_program_frame (cache_after (search_vertex_program vp c)) mem fp)
      as [_ ->].
    destruct (search_vertex_program_frame c vp) as [_ ->]. exact Hs.
  - intros ->. now apply Hne.
Qed.

End facts.
End program_state_cache_facts.

(** ** The constant upload *)

Module upload_facts.
Import program_state_cache.

Lemma shuffle_is_halfword_swap mem p :
  _mm_shuffle_epi8 (_mm_loadu_si128 mem p) mask = halfword_swap (_mm_loadu_si128 mem p).
Proof. reflexivity. Qed.

Lemma uploaded_constant_length mem a o : length (uploaded_constant mem a o) = 16%nat.
Proof. reflexivity. Qed.

(** Byte [j] of an uploaded constant is byte [j xor 1] of the source. *)
Lemma uploaded_constant_byte mem a o j :
  (j < 16)%nat ->
  nth j (uploaded_constant mem a o) 0
  = mem (u32 (a + u32 o) + Z.lxor (Z.of_nat j) 1).
Proof.
  intros Hj. do 16 (destruct j as [|j]; [reflexivity|]). lia.
Qed.

(** The store at an aligned and at a misaligned address. *)
Lemma stream_aligned base buf pos v :
  (base + Z.of_nat pos) mod 16 = 0 ->
  _mm_stream_si128 base buf pos v = Some (firstn pos buf ++ v ++ skipn (pos + 16) buf).
Proof. intros Ha. unfold _mm_stream_si128. now rewrite Ha. Qed.

Lemma stream_misaligned base buf pos v :
  (base + Z.of_nat pos) mod 16 <> 0 -> _mm_stream_si128 base buf pos v = None.
Proof.
  intros Ha. unfold _mm_stream_si128.
  destruct ((base + Z.of_nat pos) mod 16 =? 0) eqn:E; [|reflexivity].
  now apply Z.eqb_eq in E.
Qed.

(** All stores of the loop are 16 bytes apart. *)
Lemma next_store_address base offset :
  (base + Z.of_nat (4 * (offset + 4))) mod 16 = (base + Z.of_nat (4 * offset)) mod 16.
Proof.
  replace (base + Z.of_nat (4 * (offset + 4))) with (base + Z.of_nat (4 * offset) + 1 * 16)
    by lia.
  apply Z_mod_plus_full.
Qed.

Lemma stream_length (buf : list Z) pos v :
  (pos + 16 <= length buf)%nat -> length v = 16%nat ->
  length (firstn pos buf ++ v ++ skipn (pos + 16) buf) = length buf.
Proof.
  intros Hpos Hv.
  rewrite !length_app, length_firstn, length_skipn. lia.
Qed.

Lemma stream_firstn (buf : list Z) pos v :
  (pos <= length buf)%nat -> length v = 16%nat ->
  firstn (pos + 16) (firstn pos buf ++ v ++ skipn (pos + 16) buf) = firstn pos buf ++ v.
Proof.
  intros Hpos Hv.
  rewrite app_assoc, firstn_app.
  rewrite firstn_all2 by (rewrite length_app, length_firstn; lia).
  replace (pos + 16 - length (firstn pos buf ++ v))%nat with O
    by (rewrite length_app, length_firstn; lia).
  cbn. now rewrite app_nil_r.
Qed.

Lemma stream_skipn (buf : list Z) pos v n :
  (pos + 16 <= length buf)%nat -> length v = 16%nat -> (pos + 16 <= n)%nat ->
  skipn n (firstn pos buf ++ v ++ skipn (pos + 16) buf) = skipn n buf.
Proof.
  intros Hpos Hv Hn.
  rewrite app_assoc, skipn_app.
  rewrite skipn_all2 by (rewrite length_app, length_firstn; lia).
  rewrite length_app, length_firstn, Hv, skipn_skipn. cbn [app].
  f_equal. lia.
Qed.

(** At an aligned address the loop stores the constants one after the
    other from [f32] element [offset] on and leaves the rest of the buffer
    alone. *)
Lemma fill_loop_layout mem a offsets dst_data : forall (offset : nat) (dst_buffer : list Z),
  (dst_data + Z.of_nat (4 * offset)) mod 16 = 0 ->
  (4 * offset + 16 * length offsets <= length dst_buffer)%nat ->
  fill_loop mem a offsets offset dst_data dst_buffer
  = returned (firstn (4 * offset) dst_buffer
              ++ flat_map (uploaded_constant mem a) offsets
              ++ skipn (4 * offset + 16 * length offsets) dst_buffer).
Proof.
  induction offsets as [|o rest IH]; intros offset dst Ha Hlen;
    cbn [fill_loop flat_map length].
  - cbn [app]. rewrite Nat.mul_0_r, Nat.add_0_r. now rewrite firstn_skipn.
  - cbn [length] in Hlen.
    assert (Hck : (offset + 4 <=? length dst / 4)%nat = true).
    { apply Nat.leb_le. apply Nat.div_le_lower_bound; lia. }
    rewrite Hck, shuffle_is_halfword_swap.
    fold (uploaded_constant mem a o).
    pose proof (uploaded_constant_length mem a o) as Hv.
    rewrite (stream_aligned _ _ _ _ Ha).
    rewrite IH; [|now rewrite next_store_address
                 |rewrite stream_length by (exact Hv || lia); lia].
    f_equal.
    replace (4 * (offset + 4))%nat with (4 * offset + 16)%nat by lia.
    rewrite stream_firstn by (exact Hv || lia).
    rewrite stream_skipn by (exact Hv || lia).
    rewrite <- !app_assoc. do 4 f_equal. lia.
Qed.

(** At a misaligned address the first store of the loop faults. *)
Lemma fill_loop_misaligned mem a o rest offset dst_data dst_buffer :
  (dst_data + Z.of_nat (4 * offset)) mod 16 <> 0 ->
  (4 * offset + 16 <= length dst_buffer)%nat ->
  fill_loop mem a (o :: rest) offset dst_data dst_buffer = general_protection_fault.
Proof.
  intros Ha Hlen. cbn [fill_loop].
  assert (Hck : (offset + 4 <=? length dst_buffer / 4)%nat = true).
  { apply Nat.leb_le. apply Nat.div_le_lower_bound; lia. }
  now rewrite Hck, (stream_misaligned _ _ _ _ Ha).
Qed.

(** Slot [k] of a buffer that starts with 16-byte groups. *)
Lemma flat_map_slot {A} (f : A -> list Z) (l : list A) rest :
  (forall x, length (f x) = 16%nat) ->
  forall k x, nth_error l k = Some x ->
  firstn 16 (skipn (16 * k) (flat_map f l ++ rest)) = f x.
Proof.
  intros Hf. induction l as [|y l IH]; intros [|k] x Hk; try discriminate Hk.
  - cbn in Hk. injection Hk as ->. replace (16 * 0)%nat with O by lia.
    cbn [flat_map skipn]. rewrite <- app_assoc, firstn_app, (Hf x), Nat.sub_diag.
    rewrite firstn_all2 by (rewrite Hf; lia). cbn. now rewrite app_nil_r.
  - cbn [nth_error] in Hk. cbn [flat_map].
    replace (16 * S k)%nat with (16 * k + length (f y))%nat by (rewrite Hf; lia).
    rewrite <- app_assoc, <- skipn_skipn.
    replace (skipn (length (f y)) (f y ++ flat_map f l ++ rest)) with (flat_map f l ++ rest).
    + now apply IH.
    + rewrite skipn_app, Nat.sub_diag, skipn_all. reflexivity.
Qed.

(** The loop reads guest memory only in the 16 bytes of each constant. *)
Lemma fill_loop_ext mem mem' a offsets offset dst_data dst_buffer :
  (forall o, In o offsets ->
     _mm_loadu_si128 mem (u32 (a + u32 o)) = _mm_loadu_si128 mem' (u32 (a + u32 o))) ->
  fill_loop mem a offsets offset dst_data dst_buffer
  = fill_loop mem' a offsets offset dst_data dst_buffer.
Proof.
  revert offset dst_buffer.
  induction offsets as [|o rest IH]; intros offset dst_buffer Hsame; [reflexivity|].
  cbn [fill_loop]. rewrite (Hsame o) by now left.
  destruct (offset + 4 <=? length dst_buffer / 4)%nat; [|reflexivity].
  destruct (_mm_stream_si128 _ _ _ _) as [stored|]; [|reflexivity].
  apply IH. intros o' Hin. apply Hsame. now right.
Qed.


Lemma loadu_ext mem mem' p :
  (forall i, (i < 16)%nat -> mem (p + Z.of_nat i) = mem' (p + Z.of_nat i)) ->
  _mm_loadu_si128 mem p = _mm_loadu_si128 mem' p.
Proof.
  intros Hsame. unfold _mm_loadu_si128. apply map_ext_in.
  intros i Hi. apply in_seq in Hi. apply Hsame. lia.
Qed.

Section found.
Context `{decoder : program_hash_util.fragment_program_utils} `{backend : backend_traits}.

(** The upload for a binary that the fragment map knows, into a
    destination at an aligned address. *)
Lemma fill_fragment_constans_buffer_found (c : t) mem fragment_program (dst_buffer : span)
    it :
  unordered_map.find (fragment_key_eq (vm_base mem (addr fragment_program)))
    (m_fragment_shader_cache c) = Some it ->
  let offsets := FragmentConstantOffsetCache (fragment_program_at c it) in
  Z.of_nat (length offsets) * 16 <= INT_MAX ->
  (16 * length offsets <= length (span_bytes dst_buffer))%nat ->
  span_data dst_buffer mod 16 = 0 ->
  fill_fragment_constans_buffer dst_buffer mem fragment_program c
  = (returned (flat_map (uploaded_constant mem (addr fragment_program)) offsets
               ++ skipn (16 * length offsets) (span_bytes dst_buffer)), c, []).
Proof.
  intros Hf offsets Hint Hdst Ha.
  unfold fill_fragment_constans_buffer, bind, this. rewrite Hf. fold offsets.
  assert (H1 : (INT_MAX <? Z.of_nat (length offsets)) = false) by (apply Z.ltb_ge; lia).
  assert (H2 : (INT_MAX <? Z.of_nat (length offsets) * 16) = false) by (apply Z.ltb_ge; lia).
  assert (H3 : (Z.of_nat (length (span_bytes dst_buffer)) <? Z.of_nat (length offsets) * 16)
               = false) by (apply Z.ltb_ge; lia).
  rewrite H1, H2, H3. cbn [ret app].
  rewrite fill_loop_layout; [reflexivity| |lia].
  now rewrite Nat.mul_0_r, Z.add_0_r.
Qed.

(** The same into a destination at a misaligned address: with at least one
    constant to store, the first store faults. *)
Lemma fill_fragment_constans_buffer_misaligned (c : t) mem fragment_program
    (dst_buffer : span) it :
  unordered_map.find (fragment_key_eq (vm_base mem (addr fragment_program)))
    (m_fragment_shader_cache c) = Some it ->
  let offsets := FragmentConstantOffsetCache (fragment_program_at c it) in
  Z.of_nat (length offsets) * 16 <= INT_MAX ->
  (16 * length offsets <= length (span_bytes dst_buffer))%nat ->
  offsets <> [] ->
  span_data dst_buffer mod 16 <> 0 ->
  fill_fragment_constans_buffer dst_buffer mem fragment_program c
  = (general_protection_fault, c, []).
Proof.
  intros Hf offsets Hint Hdst Hne Ha.
  unfold fill_fragment_constans_buffer, bind, this. rewrite Hf. fold offsets.
  assert (H1 : (INT_MAX <? Z.of_nat (length offsets)) = false) by (apply Z.ltb_ge; lia).
  assert (H2 : (INT_MAX <? Z.of_nat (length offsets) * 16) = false) by (apply Z.ltb_ge; lia).
  assert (H3 : (Z.of_nat (length (span_bytes dst_buffer)) <? Z.of_nat (length offsets) * 16)
               = false) by (apply Z.ltb_ge; lia).
  rewrite H1, H2, H3. cbn [ret].
  destruct offsets as [|o rest]; [congruence|]. cbn [length] in Hdst.
  rewrite fill_loop_misaligned; [reflexivity| |lia].
  now rewrite Nat.mul_0_r, Z.add_0_r.
Qed.

End found.

End upload_facts.

(** * The statements of the design document *)

Import program_hash_util program_hash_util_facts.
Import unordered_map unordered_map_facts.
Import program_state_cache program_state_cache_facts.

Section claims.
Context `{decoder : fragment_program_utils} `{backend : backend_traits}.

(** C1. The [get] operation is to return the record of a resolved binary
    and to raise on a binary that was never resolved. After any history the
    fragment getter does; the vertex getter has its test inverted: for a
    vertex binary that was resolved it throws, and for one that never was
    it dereferences [end()]. *)
Theorem get_transform_program_test_inverted (ops : list operation) (mem : memory)
    (rsx_vp : RSXVertexProgram) (rsx_fp : RSXFragmentProgram) :
  let c := fst (run ops init) in
  get_transform_program rsx_vp c
  = (if vertex_resolved ops (data rsx_vp)
     then thrown "Trying to get unknow transform program"
     else undefined_behaviour,
     c, [])
  /\ exists it,
       get_shader_program mem rsx_fp c
       = (if fragment_resolved ops (vm_base mem (addr rsx_fp))
          then returned it
          else thrown "Trying to get unknow shader program",
          c, []).
Proof.
  cbv zeta. split.
  - rewrite history_vertex. unfold get_transform_program, bind, this.
    now destruct (find _ _).
  - rewrite history_fragment. unfold get_shader_program, bind, this.
    destruct (find _ _) as [it|]; [now exists it | now exists O].
Qed.

(** C2, as the code has it. For a resolved fragment program with offsets
    o_1..o_n (n * 16 within [int]) and a destination of at least n * 16
    bytes at a 16-byte aligned host address,
    [fill_fragment_constans_buffer] returns normally, leaves the cache
    alone and stores exactly n 16-byte groups in the first n 16-byte
    slots, in list order, the rest of the destination untouched. At an
    address that is not 16-byte aligned, with a constant to store, the
    first [_mm_stream_si128] faults and nothing is stored. Group k is the
    16 bytes read at guest address [addr + o_k] (32-bit arithmetic) with
    the two bytes of every 16-bit unit exchanged: byte j of the group is
    byte [j xor 1] of the source. A source lane that holds big-endian
    0x3F800000 is stored as the bytes 80 3F 00 00, which read as
    little-endian 0x00003F80. *)
Theorem upload_swaps_halfword_bytes (c : t) (mem : memory)
    (fragment_program : RSXFragmentProgram) (dst_buffer : span) (it : nat) :
  get_shader_program mem fragment_program c = (returned it, c, []) ->
  let offsets := FragmentConstantOffsetCache (fragment_program_at c it) in
  Z.of_nat (length offsets) * 16 <= INT_MAX ->
  (16 * length offsets <= length (span_bytes dst_buffer))%nat ->
  let out := flat_map (uploaded_constant mem (addr fragment_program)) offsets
             ++ skipn (16 * length offsets) (span_bytes dst_buffer) in
  (span_data dst_buffer mod 16 = 0 ->
   fill_fragment_constans_buffer dst_buffer mem fragment_program c = (returned out, c, []))
  /\ (span_data dst_buffer mod 16 <> 0 -> offsets <> [] ->
      fill_fragment_constans_buffer dst_buffer mem fragment_program c
      = (general_protection_fault, c, []))
  /\ length out = length (span_bytes dst_buffer)
  /\ (forall k o, nth_error offsets k = Some o ->
        firstn 16 (skipn (16 * k) out) = uploaded_constant mem (addr fragment_program) o)
  /\ (forall o j, (j < 16)%nat ->
        nth j (uploaded_constant mem (addr fragment_program) o) 0
        = mem (u32 (addr fragment_program + u32 o) + Z.lxor (Z.of_nat j) 1))
  /\ (forall o,
        firstn 4 (_mm_loadu_si128 mem (u32 (addr fragment_program + u32 o)))
        = [0x3F; 0x80; 0; 0] ->
        firstn 4 (uploaded_constant mem (addr fragment_program) o) = [0x80; 0x3F; 0; 0]
        /\ le32 (firstn 4 (uploaded_constant mem (addr fragment_program) o)) = 0x00003F80).
Proof.
  intros Hget offsets Hint Hdst out.
  assert (Hf : find (fragment_key_eq (vm_base mem (addr fragment_program)))
                 (m_fragment_shader_cache c) = Some it).
  { unfold get_shader_program, bind, this in Hget.
    destruct (find _ _) as [j|]; cbn in Hget; [|discriminate].
    now injection Hget as ->. }
  split; [|split; [|split; [|split; [|split]]]].
  - intros Ha. now apply upload_facts.fill_fragment_constans_buffer_found.
  - intros Ha Hne. now apply upload_facts.fill_fragment_constans_buffer_misaligned with it.
  - subst out. rewrite length_app, length_skipn.
    assert (Hl : forall l : list Z,
               length (flat_map (uploaded_constant mem (addr fragment_program)) l)
               = (16 * length l)%nat).
    { induction l as [|o l IH]; [reflexivity|].
      cbn [flat_map]. rewrite length_app, IH. cbn [length uploaded_constant].
      rewrite upload_facts.uploaded_constant_length. lia. }
    rewrite Hl. lia.
  - intros k o Hk. subst out.
    apply upload_facts.flat_map_slot; [|exact Hk].
    intros x. apply upload_facts.uploaded_constant_length.
  - intros o j Hj. now apply upload_facts.uploaded_constant_byte.
  - intros o Hlane. unfold uploaded_constant.
    set (p := u32 (addr fragment_program + u32 o)) in *.
    change (firstn 4 (_mm_loadu_si128 mem p))
      with [mem (p + 0); mem (p + 1); mem (p + 2); mem (p + 3)] in Hlane.
    change (firstn 4 (halfword_swap (_mm_loadu_si128 mem p)))
      with [mem (p + 1); mem (p + 0); mem (p + 3); mem (p + 2)].
    injection Hlane as -> -> -> ->. split; reflexivity.
Qed.

(** C3. In a reachable cache, resolving a binary and then a binary of the
    same stage with identical content returns the same record both times,
    the second call reports it as preexisting and changes nothing: no
    record is inserted, no identity is handed out, the collaborator is not
    called. No stage map ever holds two records for equal contents. *)
Theorem resolve_again_same_program (c : t) :
  reachable c ->
  (forall vp1 vp2,
      vertex_program_compare (data vp1) (data vp2) = true ->
      let r1 := search_vertex_program vp1 c in
      let r2 := search_vertex_program vp2 (cache_after r1) in
      value r2 = (fst (value r1), true)
      /\ cache_after r2 = cache_after r1
      /\ events r2 = []
      /\ vp_id (vertex_program_at (cache_after r2) (fst (value r2)))
         = vp_id (vertex_program_at (cache_after r1) (fst (value r1))))
  /\ (forall mem1 fp1 mem2 fp2,
      fragment_program_compare (vm_base mem1 (addr fp1)) (vm_base mem2 (addr fp2)) = true ->
      let r1 := search_fragment_program mem1 fp1 c in
      let r2 := search_fragment_program mem2 fp2 (cache_after r1) in
      value r2 = (fst (value r1), true)
      /\ cache_after r2 = cache_after r1
      /\ events r2 = []
      /\ fp_id (fragment_program_at (cache_after r2) (fst (value r2)))
         = fp_id (fragment_program_at (cache_after r1) (fst (value r1))))
  /\ distinct_keys vertex_program_compare (m_vertex_shader_cache c)
  /\ distinct_keys fragment_key_compare (m_fragment_shader_cache c).
Proof.
  intros Hr. destruct (reachable_distinct c Hr) as (Hdv & Hdf & _).
  repeat split; try assumption.
  - now rewrite search_vertex_program_again by now apply vertex_program_compare_eq.
  - now rewrite search_vertex_program_again by now apply vertex_program_compare_eq.
  - now rewrite search_vertex_program_again by now apply vertex_program_compare_eq.
  - now rewrite search_vertex_program_again by now apply vertex_program_compare_eq.
  - now rewrite search_fragment_program_again.
  - now rewrite search_fragment_program_again.
  - now rewrite search_fragment_program_again.
  - now rewrite search_fragment_program_again.
Qed.


(** C5. In a reachable cache that does not hold the pipeline of a draw
    request yet, two calls of [getGraphicPipelineState] with vertex binaries
    of equal content, fragment binaries of equal content and equal
    properties return the same reference, to the same object; the second
    call changes nothing; [build_pipeline] is invoked exactly once over the
    two calls; and the pipeline table has one node per key. *)
Theorem get_or_build_idempotent (c : t) (mem1 mem2 : memory)
    (vp1 vp2 : RSXVertexProgram) (fp1 fp2 : RSXFragmentProgram)
    (props1 props2 : pipeline_properties) (args1 args2 : extra_args) :
  reachable c ->
  vertex_program_compare (data vp1) (data vp2) = true ->
  fragment_program_compare (vm_base mem1 (addr fp1)) (vm_base mem2 (addr fp2)) = true ->
  properties_eqb props1 props2 = true ->
  pipeline_cached mem1 vp1 fp1 props1 c = false ->
  let r1 := getGraphicPipelineState mem1 vp1 fp1 props1 args1 c in
  let r2 := getGraphicPipelineState mem2 vp2 fp2 props2 args2 (cache_after r1) in
  value r2 = value r1
  /\ cache_after r2 = cache_after r1
  /\ pipeline_at (cache_after r2) (value r2) = pipeline_at (cache_after r1) (value r1)
  /\ build_count (events r1 ++ events r2) = 1%nat
  /\ distinct_keys pipeline_key_compare (m_storage (cache_after r2)).
Proof.
  intros Hr Hv Hf Hp Hnew r1 r2.
  apply vertex_program_compare_eq in Hv. apply properties_eqb_eq in Hp. subst props2.
  assert (H2 : r2 = (value r1, cache_after r1, []))
    by now apply getGraphicPipelineState_again.
  rewrite H2. split; [reflexivity|]. split; [reflexivity|]. split; [reflexivity|]. split.
  - change (events (value r1, cache_after r1, @nil event)) with (@nil event).
    rewrite app_nil_r. subst r1.
    now rewrite build_count_getGraphicPipelineState, Hnew.
  - change (cache_after (value r1, cache_after r1, @nil event)) with (cache_after r1).
    subst r1. rewrite <- cache_after_get_or_build.
    now apply reachable_distinct, reachable_perform.
Qed.

(** C6. In a reachable cache with room for two more 32-bit identities, the
    identity the counter hands out next occurs in no stored pipeline key,
    and the variant of [getGraphicPipelineState] that searches the pipeline
    table on every call returns the same reference, leaves the same cache
    and makes the same calls and diagnostics as the implemented one, which
    searches only when both stage programs were preexisting. *)
Theorem skipping_the_probe_is_unobservable (c : t) (mem : memory)
    (vertexShader : RSXVertexProgram) (fragmentShader : RSXFragmentProgram)
    (pipelineProperties : pipeline_properties) (args : extra_args) :
  reachable c ->
  stage_program_count c + 1 < 2 ^ 32 ->
  (forall k, In k (keys (m_storage c)) ->
     vertex_program_id k <> u32 (m_next_id c)
     /\ fragment_program_id k <> u32 (m_next_id c))
  /\ getGraphicPipelineState_always_probe mem vertexShader fragmentShader
       pipelineProperties args c
     = getGraphicPipelineState mem vertexShader fragmentShader pipelineProperties args c.
Proof.
  intros Hr Hlt. apply reachable_identities_minted in Hr. split.
  - apply next_identity_unused; [exact Hr | lia].
  - pose proof (getGraphicPipelineState_steps mem vertexShader fragmentShader
                  pipelineProperties args c) as Hs.
    pose proof (getGraphicPipelineState_always_probe_steps mem vertexShader fragmentShader
                  pipelineProperties args c) as Hs'.
    pose proof (fresh_program_key_not_stored c mem vertexShader fragmentShader
                  pipelineProperties Hr Hlt) as Hfresh.
    cbv zeta in Hs, Hs', Hfresh. rewrite Hs, Hs'. clear Hs Hs'.
    set (r1 := search_vertex_program vertexShader c) in *.
    set (r2 := search_fragment_program mem fragmentShader (cache_after r1)) in *.
    destruct (snd (value r2) && snd (value r1)) eqn:E; [reflexivity|].
    specialize (Hfresh eq_refl).
    rewrite (link_pipeline_build _ true) by (right; exact Hfresh).
    rewrite (link_pipeline_build _ false) by (left; reflexivity).
    reflexivity.
Qed.

(** C7. Two fragment binaries with equal scanned lengths and equal bytes up
    to that length have equal hashes and compare equal, whatever follows
    them in memory and wherever they lie, and resolving one after the other
    leaves a single node in the fragment map; binaries with different
    scanned lengths compare unequal; changing bytes past the scanned length
    changes neither the hash nor the comparison. *)
Theorem fragment_identity_is_the_scanned_bytes (mix : list Z -> Z) (c : t)
    (mem1 mem2 : memory) (fp1 fp2 : RSXFragmentProgram) :
  let b1 := vm_base mem1 (addr fp1) in
  let b2 := vm_base mem2 (addr fp2) in
  (get_fragment_program_ucode_size b1 = get_fragment_program_ucode_size b2 ->
   agree_upto (get_fragment_program_ucode_size b1) b1 b2 ->
   fragment_program_hash mix b1 = fragment_program_hash mix b2
   /\ fragment_program_compare b1 b2 = true
   /\ let r1 := search_fragment_program mem1 fp1 c in
      let r2 := search_fragment_program mem2 fp2 (cache_after r1) in
      value r2 = (fst (value r1), true)
      /\ m_fragment_shader_cache (cache_after r2) = m_fragment_shader_cache (cache_after r1))
  /\ (get_fragment_program_ucode_size b1 <> get_fragment_program_ucode_size b2 ->
      fragment_program_compare b1 b2 = false)
  /\ (forall b1' b2' : binary_view,
        agree_upto (get_fragment_program_ucode_size b1) b1 b1' ->
        agree_upto (get_fragment_program_ucode_size b2) b2 b2' ->
        fragment_program_hash mix b1' = fragment_program_hash mix b1
        /\ fragment_program_compare b1' b2' = fragment_program_compare b1 b2).
Proof.
  intros b1 b2. split; [|split].
  - intros Hn Hb.
    assert (E : fragment_program_compare b1 b2 = true)
      by now apply fragment_program_compare_spec.
    split; [now apply fragment_program_hash_compare|]. split; [exact E|].
    cbv zeta. now rewrite search_fragment_program_again.
  - intros Hn. destruct (fragment_program_compare b1 b2) eqn:E; [|reflexivity].
    apply fragment_program_compare_spec in E. tauto.
  - intros b1' b2' H1 H2.
    apply fragment_program_compare_prefix in H1, H2. split.
    + symmetry. now apply fragment_program_hash_compare.
    + rewrite <- (fragment_program_compare_congr b1' _ _ H2).
      rewrite (fragment_program_compare_comm b1' b2), (fragment_program_compare_comm b1 b2).
      symmetry. now apply fragment_program_compare_congr.
Qed.

(** C8. After any history, for a fragment binary whose content was
    resolved, [get_fragment_constants_buffer_size] returns 16 times the
    number of entries of the constant-offset list of the program that
    [get_shader_program] returns for it (a [std::vector<size_t>] has fewer
    than 2^60 entries); for a binary whose content was never resolved it
    returns 0 and logs an error. *)
Theorem constants_buffer_size_of_history (ops : list operation) (mem : memory)
    (fragmentShader : RSXFragmentProgram) :
  let c := fst (run ops init) in
  (fragment_resolved ops (vm_base mem (addr fragmentShader)) = true ->
   exists it,
     get_shader_program mem fragmentShader c = (returned it, c, [])
     /\ let offsetCount :=
          Z.of_nat (length (FragmentConstantOffsetCache (fragment_program_at c it))) in
        (offsetCount < 2 ^ 60 ->
         get_fragment_constants_buffer_size mem fragmentShader c
         = (offsetCount * 16, c, [])))
  /\ (fragment_resolved ops (vm_base mem (addr fragmentShader)) = false ->
      get_fragment_constants_buffer_size mem fragmentShader c
      = (0, c, [LOG_ERROR "Can't retrieve constant offset cache"])).
Proof.
  cbv zeta. rewrite history_fragment.
  unfold get_shader_program, get_fragment_constants_buffer_size, bind, this.
  destruct (find _ _) as [it|]; cbn [found]; split; try discriminate.
  - intros _. exists it. split; [reflexivity|]. intros Hlt. cbn.
    unfold size_t. rewrite Z.mod_small by lia. f_equal. f_equal. lia.
  - reflexivity.
Qed.

(** C9. After any history, for a fragment binary whose content was never
    resolved, [fill_fragment_constans_buffer] returns normally, leaves
    every byte of the destination as it was and leaves the cache as it
    was. *)
Theorem fill_unresolved_is_noop (ops : list operation) (mem : memory)
    (fragment_program : RSXFragmentProgram) (dst_buffer : span) :
  fragment_resolved ops (vm_base mem (addr fragment_program)) = false ->
  fill_fragment_constans_buffer dst_buffer mem fragment_program (fst (run ops init))
  = (returned (span_bytes dst_buffer), fst (run ops init), []).
Proof.
  rewrite history_fragment.
  unfold fill_fragment_constans_buffer, bind, this.
  destruct (find _ _) as [it|]; cbn [found]; [discriminate | reflexivity].
Qed.


End claims.

(** * The statements on the two draws *)

Module examples.
Import toy_instances scenario.

(** C2, as the design document has it, fails on the first draw: the lane
    that holds big-endian 0x3F800000 is uploaded as the bytes 80 3F 00 00,
    which read as little-endian 0x00003F80 and not as 0x3F800000, the
    bits of 1.0. *)
Lemma documented_upload_counterexample :
  be32 (firstn 4 (skipn 16 fragment_bytes)) = 0x3F800000
  /\ fill_fragment_constans_buffer (aligned_destination (repeat 0 16)) guest_memory
       fragment_shader after_first_draw
     = (returned [0x80; 0x3F; 0; 0;  0; 0x40; 0; 0;  0x40; 0x40; 0; 0;  0x80; 0x40; 0; 0],
        after_first_draw, [])
  /\ le32 [0x80; 0x3F; 0; 0] = 0x00003F80
  /\ ~ documented_upload after_first_draw guest_memory fragment_shader
        (aligned_destination (repeat 0 16)).
Proof.
  split; [reflexivity|]. split; [reflexivity|]. split; [reflexivity|].
  intros Hdoc. specialize (Hdoc O eq_refl (le_n 16) eq_refl).
  apply (f_equal value) in Hdoc.
  vm_compute in Hdoc. discriminate Hdoc.
Qed.

(** The first draw's fragment program uploaded into a 20-byte buffer: at
    an aligned address one 16-byte group, every byte pair exchanged, the
    last four bytes kept; at an address that is only 4-byte aligned the
    store faults. *)
Lemma upload_swaps_halfword_bytes_witness :
  get_shader_program guest_memory fragment_shader after_first_draw
    = (returned O, after_first_draw, [])
  /\ fill_fragment_constans_buffer (aligned_destination (repeat 9 20)) guest_memory
       fragment_shader after_first_draw
     = (returned [0x80; 0x3F; 0; 0;  0; 0x40; 0; 0;  0x40; 0x40; 0; 0;  0x80; 0x40; 0; 0;
                  9; 9; 9; 9],
        after_first_draw, [])
  /\ fill_fragment_constans_buffer (misaligned_destination (repeat 9 20)) guest_memory
       fragment_shader after_first_draw
     = (general_protection_fault, after_first_draw, []).
Proof.
  assert (Hint : Z.of_nat (length (FragmentConstantOffsetCache
                                     (fragment_program_at after_first_draw 0))) * 16
                 <= INT_MAX) by (change (16 <= INT_MAX); unfold INT_MAX; lia).
  assert (Hlen : (16 * length (FragmentConstantOffsetCache
                                 (fragment_program_at after_first_draw 0)) <= 20)%nat)
    by (change (16 <= 20)%nat; lia).
  split; [reflexivity|]. split.
  - exact (proj1 (upload_swaps_halfword_bytes after_first_draw guest_memory
                    fragment_shader (aligned_destination (repeat 9 20)) O eq_refl Hint Hlen)
             eq_refl).
  - refine (proj1 (proj2 (upload_swaps_halfword_bytes after_first_draw guest_memory
                            fragment_shader (misaligned_destination (repeat 9 20)) O
                            eq_refl Hint Hlen)) _ _).
    + change (4 <> 0). discriminate.
    + change ([16] <> []). discriminate.
Defined.

(** On an empty cache: the fragment program of the first draw, then the same
    program at another address with other bytes behind it. *)
Lemma resolve_again_same_program_witness :
  reachable init
  /\ fragment_program_compare (vm_base guest_memory (addr fragment_shader))
       (vm_base guest_memory_moved (addr fragment_shader_moved)) = true
  /\ let r1 := search_fragment_program guest_memory fragment_shader init in
     let r2 := search_fragment_program guest_memory_moved fragment_shader_moved
                 (cache_after r1) in
     value r1 = (O, false) /\ value r2 = (O, true) /\ cache_after r2 = cache_after r1.
Proof.
  split; [apply reachable_init|]. split; [reflexivity|].
  destruct (resolve_again_same_program init reachable_init) as (_ & Hfragment & _).
  destruct (Hfragment guest_memory fragment_shader guest_memory_moved fragment_shader_moved
              eq_refl) as (Hv & Hc & _).
  cbv zeta. split; [reflexivity|]. split; [exact Hv | exact Hc].
Defined.

(** After the first draw: 16 bytes for the moved copy of its fragment
    program, 0 and a diagnostic for the longer program. *)
Lemma constants_buffer_size_of_history_witness :
  fragment_resolved [first_draw]
    (vm_base guest_memory_moved (addr fragment_shader_moved)) = true
  /\ get_fragment_constants_buffer_size guest_memory_moved fragment_shader_moved
       after_first_draw = (16, after_first_draw, [])
  /\ fragment_resolved [first_draw]
       (vm_base guest_memory_longer (addr fragment_shader_longer)) = false
  /\ get_fragment_constants_buffer_size guest_memory_longer fragment_shader_longer
       after_first_draw
     = (0, after_first_draw, [LOG_ERROR "Can't retrieve constant offset cache"]).
Proof.
  destruct (constants_buffer_size_of_history [first_draw] guest_memory_moved
              fragment_shader_moved) as [Hres _].
  destruct (constants_buffer_size_of_history [first_draw] guest_memory_longer
              fragment_shader_longer) as [_ Hun].
  split; [reflexivity|]. split.
  - destruct (Hres eq_refl) as (it & Hget & Hsize).
    injection Hget as <-. apply Hsize. reflexivity.
  - split; [reflexivity|]. apply Hun. reflexivity.
Defined.

(** After the first draw, the longer program was never resolved. *)
Lemma fill_unresolved_is_noop_witness :
  fragment_resolved [first_draw]
    (vm_base guest_memory_longer (addr fragment_shader_longer)) = false
  /\ fill_fragment_constans_buffer (misaligned_destination (repeat 9 20))
       guest_memory_longer fragment_shader_longer after_first_draw
     = (returned (repeat 9 20), after_first_draw, []).
Proof.
  split; [reflexivity|].
  apply (fill_unresolved_is_noop [first_draw] guest_memory_longer fragment_shader_longer
           (misaligned_destination (repeat 9 20))).
  reflexivity.
Defined.

(** The fragment program of the first draw and its moved copy differ at byte
    48, behind the 48 scanned bytes; the longer program scans to 64. *)
Lemma fragment_identity_is_the_scanned_bytes_witness :
  let b1 := vm_base guest_memory (addr fragment_shader) in
  let b2 := vm_base guest_memory_moved (addr fragment_shader_moved) in
  get_fragment_program_ucode_size b1 = 48%nat
  /\ get_fragment_program_ucode_size b2 = 48%nat
  /\ b1 48%nat <> b2 48%nat
  /\ fragment_program_hash (fun l => fold_left Z.lxor l 0) b1
     = fragment_program_hash (fun l => fold_left Z.lxor l 0) b2
  /\ fragment_program_compare b1 b2 = true
  /\ length (m_fragment_shader_cache
               (cache_after (search_fragment_program guest_memory_moved fragment_shader_moved
                  (cache_after (search_fragment_program guest_memory fragment_shader init)))))
     = 1%nat
  /\ fragment_program_compare b1
       (vm_base guest_memory_longer (addr fragment_shader_longer)) = false.
Proof.
  intros b1 b2.
  pose proof (fragment_identity_is_the_scanned_bytes (fun l => fold_left Z.lxor l 0) init
                guest_memory guest_memory_moved fragment_shader fragment_shader_moved)
    as (Hsame & _ & _).
  pose proof (fragment_identity_is_the_scanned_bytes (fun l => fold_left Z.lxor l 0) init
                guest_memory guest_memory_longer fragment_shader fragment_shader_longer)
    as (_ & Hlength & _).
  assert (Hagree : agree_upto (get_fragment_program_ucode_size b1) b1 b2)
    by (apply agree_uptob_spec; reflexivity).
  destruct (Hsame eq_refl Hagree) as (Hhash & Hcmp & _ & Hcache).
  split; [reflexivity|]. split; [reflexivity|]. split; [discriminate|].
  split; [exact Hhash|]. split; [exact Hcmp|]. split.
  - rewrite Hcache. reflexivity.
  - apply Hlength. discriminate.
Defined.


(** The first draw, requested twice on an empty cache. *)
Lemma get_or_build_idempotent_witness :
  reachable init
  /\ pipeline_cached guest_memory vertex_shader fragment_shader 7 init = false
  /\ let r1 := getGraphicPipelineState guest_memory vertex_shader fragment_shader 7 tt init in
     let r2 := getGraphicPipelineState guest_memory_moved vertex_shader fragment_shader_moved
                 7 tt (cache_after r1) in
     value r1 = O /\ value r2 = O
     /\ pipeline_at (cache_after r2) (value r2) = (0, 1, 7)
     /\ build_count (events r1 ++ events r2) = 1%nat.
Proof.
  split; [apply reachable_init|]. split; [reflexivity|].
  destruct (get_or_build_idempotent (decoder := decoder) (backend := backend)
              init guest_memory guest_memory_moved
              vertex_shader vertex_shader fragment_shader fragment_shader_moved
              7 7 tt tt reachable_init eq_refl eq_refl eq_refl eq_refl)
    as (Hv & _ & Hp & Hb & _).
  cbv zeta. split; [reflexivity|]. split; [rewrite Hv; reflexivity|].
  split; [rewrite Hp; reflexivity | exact Hb].
Defined.

(** After the first draw, a draw with a vertex shader not seen before. *)
Lemma skipping_the_probe_is_unobservable_witness :
  reachable after_first_draw
  /\ stage_program_count after_first_draw + 1 < 2 ^ 32
  /\ u32 (m_next_id after_first_draw) = 2
  /\ keys (m_storage after_first_draw)
     = [{| vertex_program_id := 0; fragment_program_id := 1; properties := 7 |}]
  /\ getGraphicPipelineState_always_probe guest_memory_moved {| data := [4; 5] |}
       fragment_shader_moved 7 tt after_first_draw
     = getGraphicPipelineState guest_memory_moved {| data := [4; 5] |}
         fragment_shader_moved 7 tt after_first_draw.
Proof.
  assert (Hr : reachable after_first_draw) by (exists [first_draw]; reflexivity).
  assert (Hlt : stage_program_count after_first_draw + 1 < 2 ^ 32)
    by (change (2 + 1 < 2 ^ 32); lia).
  split; [exact Hr|]. split; [exact Hlt|]. split; [reflexivity|]. split; [reflexivity|].
  apply (skipping_the_probe_is_unobservable (decoder := decoder) (backend := backend)
           after_first_draw guest_memory_moved {| data := [4; 5] |} fragment_shader_moved
           7 tt Hr Hlt).
Defined.



(** The vertex binary of the first draw, asked for after that draw. *)
Lemma get_transform_program_after_first_draw :
  vertex_resolved [first_draw] (data vertex_shader) = true
  /\ get_transform_program vertex_shader after_first_draw
     = (thrown "Trying to get unknow transform program", after_first_draw, [])
  /\ get_shader_program guest_memory fragment_shader after_first_draw
     = (returned O, after_first_draw, []).
Proof. repeat split. Qed.

End examples.

(** * Further properties of the cache *)

Section further.
Context `{decoder : fragment_program_utils} `{backend : backend_traits}.

(** X1. [pipeline_key_hash] agrees with [pipeline_key_compare]: keys that
    compare equal have the same hash, whatever [std::hash] is. The hash
    xors the hashes of the two identities, so it does not tell the vertex
    from the fragment identity: exchanging them keeps the hash, while the
    keys compare unequal as soon as the two identities differ. *)
Theorem pipeline_key_hash_agrees_with_compare
    (std_hash_unsigned : Z -> Z) (std_hash_properties : pipeline_properties -> Z)
    (key1 key2 : pipeline_key) :
  pipeline_key_compare key1 key2 = true ->
  pipeline_key_hash std_hash_unsigned std_hash_properties key1
  = pipeline_key_hash std_hash_unsigned std_hash_properties key2
  /\ (let exchanged :=
        {| vertex_program_id := fragment_program_id key1;
           fragment_program_id := vertex_program_id key1;
           properties := properties key1 |} in
      pipeline_key_hash std_hash_unsigned std_hash_properties exchanged
      = pipeline_key_hash std_hash_unsigned std_hash_properties key1
      /\ pipeline_key_compare exchanged key1
         = (vertex_program_id key1 =? fragment_program_id key1)).
Proof.
  intros E. split; [now apply pipeline_key_hash_compare|].
  cbv zeta. split.
  - unfold pipeline_key_hash. cbn [vertex_program_id fragment_program_id properties].
    rewrite !Z.lxor_0_l. f_equal. apply Z.lxor_comm.
  - unfold pipeline_key_compare. cbn [vertex_program_id fragment_program_id properties].
    assert (Hp : properties_eqb (properties key1) (properties key1) = true)
      by now apply properties_eqb_eq.
    rewrite Hp, andb_true_r, (Z.eqb_sym (vertex_program_id key1)).
    apply andb_diag.
Qed.

(** X2. The shuffle of the upload loses nothing: applied twice to a 16-byte
    vector it gives the vector back, so the uploaded bytes determine the
    source bytes. *)
Theorem upload_shuffle_is_an_involution (v : list Z) :
  length v = 16%nat ->
  _mm_shuffle_epi8 (_mm_shuffle_epi8 v mask) mask = v.
Proof.
  intros Hv.
  do 16 (destruct v as [|? v]; [discriminate Hv|]).
  destruct v; [reflexivity | discriminate Hv].
Qed.

(** X3. What number the upload stores: for a 16-byte vector of bytes, every
    lane of the shuffled vector, read as a little-endian 32-bit word, is
    the same lane of the source read as a big-endian word with its 16-bit
    halves exchanged. *)
Theorem upload_lane_is_big_endian_with_halves_exchanged (v : list Z) (i : nat) :
  length v = 16%nat ->
  Forall (fun b => 0 <= b < 256) v ->
  (i < 4)%nat ->
  le32 (lane i (_mm_shuffle_epi8 v mask)) = exchange_halves (be32 (lane i v)).
Proof.
  intros Hv Hb Hi.
  do 16 (destruct v as [|? v]; [discriminate Hv|]).
  destruct v; [|discriminate Hv].
  repeat match goal with
         | H : Forall _ (_ :: _) |- _ => inversion H; clear H; subst
         end.
  assert (Hhalves : forall a b c d,
             0 <= a < 256 -> 0 <= b < 256 -> 0 <= c < 256 -> 0 <= d < 256 ->
             le32 [b; a; d; c] = exchange_halves (be32 [a; b; c; d])).
  { intros a b c d Ha Hb' Hc Hd. unfold le32, be32, exchange_halves. cbn [nth].
    change (2 ^ 8) with 256. change (2 ^ 16) with 65536. change (2 ^ 24) with 16777216.
    set (w := d + c * 256 + b * 65536 + a * 16777216).
    pose proof (Z.div_mod w 65536 ltac:(lia)) as Hdm.
    pose proof (Z.mod_pos_bound w 65536 ltac:(lia)) as Hm.
    subst w. lia. }
  destruct i as [|[|[|[|i]]]]; [| | | |lia]; apply Hhalves; assumption.
Qed.

(** X4. A draw whose pipeline is stored is served without any effect: the
    call returns the slot of the stored pipeline, leaves the cache as it
    was, logs nothing and calls no collaborator. Conversely a call that
    produces no event was served from the pipeline table. *)
Theorem cached_draw_has_no_effect (c : t) (mem : memory)
    (vertexShader : RSXVertexProgram) (fragmentShader : RSXFragmentProgram)
    (pipelineProperties : pipeline_properties) (args : extra_args) :
  let r := getGraphicPipelineState mem vertexShader fragmentShader pipelineProperties args c in
  (pipeline_cached mem vertexShader fragmentShader pipelineProperties c = true ->
   cache_after r = c /\ events r = [] /\ (value r < length (m_storage c))%nat)
  /\ (events r = [] ->
      pipeline_cached mem vertexShader fragmentShader pipelineProperties c = true).
Proof.
  cbv zeta. split.
  - intros Hc.
    destruct (getGraphicPipelineState_cached c mem vertexShader fragmentShader
                pipelineProperties args Hc) as (v & f & it & _ & _ & Hs & ->).
    repeat split. cbv [value fst]. now apply find_Some_lt in Hs.
  - intros He. apply build_count_nil_events in He.
    rewrite build_count_getGraphicPipelineState in He.
    now destruct (pipeline_cached mem vertexShader fragmentShader pipelineProperties c).
Qed.

(** X5. A stage program, once resolved, is found again at the same place
    after any further operations: looking up a binary with the same
    content returns the reference the first lookup returned, reports it as
    preexisting and compiles nothing, and the record behind the reference
    is the one stored then. For fragment programs [get_shader_program]
    returns that reference too. *)
Theorem resolved_program_is_found_again (c : t) (ops : list operation)
    (vp vp' : RSXVertexProgram) (mem mem' : memory) (fp fp' : RSXFragmentProgram) :
  vertex_program_compare (data vp) (data vp') = true ->
  fragment_program_compare (vm_base mem (addr fp)) (vm_base mem' (addr fp')) = true ->
  (let r := search_vertex_program vp c in
   let c' := fst (run ops (cache_after r)) in
   search_vertex_program vp' c' = ((fst (value r), true), c', [])
   /\ vertex_program_at c' (fst (value r)) = vertex_program_at (cache_after r) (fst (value r)))
  /\ (let r := search_fragment_program mem fp c in
      let c' := fst (run ops (cache_after r)) in
      search_fragment_program mem' fp' c' = ((fst (value r), true), c', [])
      /\ get_shader_program mem' fp' c' = (returned (fst (value r)), c', [])
      /\ fragment_program_at c' (fst (value r))
         = fragment_program_at (cache_after r) (fst (value r))).
Proof.
  intros Hv Hf. apply vertex_program_compare_eq in Hv. cbv zeta. split.
  - pose proof (records_kept_run ops (cache_after (search_vertex_program vp c))) as Hk.
    split.
    + apply search_vertex_program_hit. rewrite <- Hv.
      apply (find_vertex_kept _ _ _ _ Hk), find_after_search_vertex.
    + apply (records_kept_vertex_program_at _ _ _ Hk), search_vertex_program_valid.
  - pose proof (records_kept_run ops (cache_after (search_fragment_program mem fp c))) as Hk.
    assert (Hfind : find (fragment_key_eq (vm_base mem' (addr fp')))
                      (m_fragment_shader_cache
                         (fst (run ops (cache_after (search_fragment_program mem fp c)))))
                    = Some (fst (value (search_fragment_program mem fp c)))).
    { rewrite <- (find_fragment_congr _ _ _ Hf).
      apply (find_fragment_kept _ _ _ _ Hk), find_after_search_fragment. }
    split; [now apply search_fragment_program_hit|]. split.
    + unfold get_shader_program, bind, this. now rewrite Hfind.
    + apply (records_kept_fragment_program_at _ _ _ Hk), search_fragment_program_valid.
Qed.

(** X6. [get_fragment_constants_buffer_size] is exactly the size
    [fill_fragment_constans_buffer] needs: for a resolved fragment program
    (with its 16 n bytes within [int]) a destination of that many bytes at
    a 16-byte aligned address is accepted and every byte of it is
    overwritten; at an address that is not 16-byte aligned, with a
    constant to store, the first store faults; and every shorter
    destination, wherever it lies, fails the [Expects] with nothing
    written. *)
Theorem constants_buffer_size_is_the_least_destination (c : t) (mem : memory)
    (fragment_program : RSXFragmentProgram) (dst_buffer : span) (it : nat) :
  get_shader_program mem fragment_program c = (returned it, c, []) ->
  let offsets := FragmentConstantOffsetCache (fragment_program_at c it) in
  let size := value (get_fragment_constants_buffer_size mem fragment_program c) in
  Z.of_nat (length offsets) * 16 <= INT_MAX ->
  (Z.of_nat (length (span_bytes dst_buffer)) = size ->
   span_data dst_buffer mod 16 = 0 ->
   fill_fragment_constans_buffer dst_buffer mem fragment_program c
   = (returned (flat_map (uploaded_constant mem (addr fragment_program)) offsets), c, []))
  /\ (Z.of_nat (length (span_bytes dst_buffer)) = size ->
      span_data dst_buffer mod 16 <> 0 -> offsets <> [] ->
      fill_fragment_constans_buffer dst_buffer mem fragment_program c
      = (general_protection_fault, c, []))
  /\ (Z.of_nat (length (span_bytes dst_buffer)) < size ->
      fill_fragment_constans_buffer dst_buffer mem fragment_program c
      = (contract_violation, c, [])).
Proof.
  intros Hget offsets size Hint.
  assert (Hf : find (fragment_key_eq (vm_base mem (addr fragment_program)))
                 (m_fragment_shader_cache c) = Some it).
  { unfold get_shader_program, bind, this in Hget.
    destruct (find _ _) as [j|]; cbn in Hget; [|discriminate].
    now injection Hget as ->. }
  assert (Hsize : size = Z.of_nat (length offsets) * 16).
  { subst size. unfold get_fragment_constants_buffer_size, bind, this. rewrite Hf.
    unfold ret. cbv [value fst]. fold offsets. clearbody offsets.
    unfold size_t. unfold INT_MAX in Hint. rewrite Z.mod_small by lia. lia. }
  rewrite Hsize. split; [|split].
  - intros Hlen Ha.
    assert (Hn : (16 * length offsets <= length (span_bytes dst_buffer))%nat) by lia.
    rewrite (upload_facts.fill_fragment_constans_buffer_found c mem fragment_program
               dst_buffer it Hf Hint Hn Ha).
    fold offsets. rewrite skipn_all2 by lia. now rewrite app_nil_r.
  - intros Hlen Ha Hne.
    assert (Hn : (16 * length offsets <= length (span_bytes dst_buffer))%nat) by lia.
    exact (upload_facts.fill_fragment_constans_buffer_misaligned c mem fragment_program
             dst_buffer it Hf Hint Hn Hne Ha).
  - intros Hlen. unfold fill_fragment_constans_buffer, bind, this. rewrite Hf. fold offsets.
    assert (H1 : (INT_MAX <? Z.of_nat (length offsets)) = false) by (apply Z.ltb_ge; lia).
    assert (H2 : (INT_MAX <? Z.of_nat (length offsets) * 16) = false) by (apply Z.ltb_ge; lia).
    assert (H3 : (Z.of_nat (length (span_bytes dst_buffer)) <? Z.of_nat (length offsets) * 16)
                 = true) by (apply Z.ltb_lt; lia).
    now rewrite H1, H2, H3.
Qed.

(** X7. In a reachable cache with room for two more 32-bit identities, the
    pipeline [getGraphicPipelineState] returns was built by
    [build_pipeline] from the very stage programs of the request, the
    records that the two binaries resolve to, and from the requested
    properties, be it built by this call or found in the table. *)
Theorem returned_pipeline_was_built_from_the_request (c : t) (mem : memory)
    (vertexShader : RSXVertexProgram) (fragmentShader : RSXFragmentProgram)
    (pipelineProperties : pipeline_properties) (args : extra_args) :
  reachable c ->
  stage_program_count c + 2 <= 2 ^ 32 ->
  let r := getGraphicPipelineState mem vertexShader fragmentShader pipelineProperties args c in
  let c' := cache_after r in
  exists v f args',
    search_vertex_program vertexShader c' = ((v, true), c', [])
    /\ get_shader_program mem fragmentShader c' = (returned f, c', [])
    /\ pipeline_at c' (value r)
       = build_pipeline (vertex_program_at c' v) (fragment_program_at c' f)
           pipelineProperties args'.
Proof.
  intros Hr Hcount r c'.
  assert (Hr' : reachable c') by now apply reachable_getGraphicPipelineState.
  assert (Hcount' : stage_program_count c' <= 2 ^ 32).
  { pose proof (stage_program_count_getGraphicPipelineState c mem vertexShader fragmentShader
                  pipelineProperties args). fold r c' in H. lia. }
  pose proof (reachable_ids_unique c' Hr' Hcount') as Hnd.
  pose proof (reachable_identities_minted c' Hr') as (_ & Hmv & Hmf & _).
  destruct (getGraphicPipelineState_slot c mem vertexShader fragmentShader
              pipelineProperties args) as (v & f & object & Hv & Hf & Hslot).
  fold r c' in Hv, Hf, Hslot.
  destruct (reachable_pipelines_built c' Hr' _ _ _ Hslot)
    as (v' & f' & args' & Hv' & Hf' & Hkey & Hobj).
  cbn [properties draw_key] in Hkey, Hobj.
  assert (Hvl : (v < length (m_vertex_shader_cache c'))%nat) by now apply find_Some_lt in Hv.
  assert (Hfl : (f < length (m_fragment_shader_cache c'))%nat) by now apply find_Some_lt in Hf.
  assert (Hu32v : forall i, (i < length (m_vertex_shader_cache c'))%nat ->
                    u32 (vp_id (vertex_program_at c' i)) = vp_id (vertex_program_at c' i)).
  { intros i Hi. destruct (Hmv (vertex_program_at c' i)) as (n & _ & ->);
      [now apply second_In | apply u32_u32]. }
  assert (Hu32f : forall i, (i < length (m_fragment_shader_cache c'))%nat ->
                    u32 (fp_id (fragment_program_at c' i)) = fp_id (fragment_program_at c' i)).
  { intros i Hi. destruct (Hmf (fragment_program_at c' i)) as (n & _ & ->);
      [now apply second_In | apply u32_u32]. }
  unfold draw_key in Hkey. injection Hkey as Ev Ef.
  rewrite !Hu32v in Ev by assumption. rewrite !Hu32f in Ef by assumption.
  apply (vertex_identity_injective c' _ _ Hnd Hvl Hv') in Ev.
  apply (fragment_identity_injective c' _ _ Hnd Hfl Hf') in Ef. subst v' f'.
  exists v, f, args'. split; [now apply search_vertex_program_hit|]. split.
  - unfold get_shader_program, bind, this. now rewrite Hf.
  - unfold pipeline_at. rewrite (nth_error_second _ _ _ _ _ Hslot). exact Hobj.
Qed.

(** X8. In a reachable cache with room for two more 32-bit identities, all
    stage programs, of both stages together, have different identities;
    and two vertex binaries with different words, or two fragment binaries
    with different contents, resolve to different records with different
    identities. *)
Theorem different_binaries_have_different_identities (c : t)
    (vp1 vp2 : RSXVertexProgram) (mem1 mem2 : memory) (fp1 fp2 : RSXFragmentProgram) :
  reachable c ->
  stage_program_count c + 2 <= 2 ^ 32 ->
  NoDup (stage_ids c)
  /\ (vertex_program_compare (data vp1) (data vp2) = false ->
      let r1 := search_vertex_program vp1 c in
      let r2 := search_vertex_program vp2 (cache_after r1) in
      fst (value r2) <> fst (value r1)
      /\ vp_id (vertex_program_at (cache_after r2) (fst (value r2)))
         <> vp_id (vertex_program_at (cache_after r2) (fst (value r1))))
  /\ (fragment_program_compare (vm_base mem1 (addr fp1)) (vm_base mem2 (addr fp2)) = false ->
      let r1 := search_fragment_program mem1 fp1 c in
      let r2 := search_fragment_program mem2 fp2 (cache_after r1) in
      fst (value r2) <> fst (value r1)
      /\ fp_id (fragment_program_at (cache_after r2) (fst (value r2)))
         <> fp_id (fragment_program_at (cache_after r2) (fst (value r1)))).
Proof.
  intros Hr Hcount. split; [apply reachable_ids_unique; [exact Hr | lia]|]. split.
  - intros Hne r1 r2.
    assert (Hr2 : reachable (cache_after r2)).
    { subst r2 r1. rewrite <- !cache_after_resolve_vertex. now do 2 apply reachable_perform. }
    assert (Hc2 : stage_program_count (cache_after r2) <= 2 ^ 32).
    { pose proof (stage_program_count_search_vertex c vp1).
      pose proof (stage_program_count_search_vertex (cache_after r1) vp2).
      fold r1 in H, H0. fold r2 in H0. lia. }
    pose proof (reachable_ids_unique _ Hr2 Hc2) as Hnd.
    pose proof (find_after_search_vertex (cache_after r1) vp2) as H2. fold r2 in H2.
    pose proof (find_vertex_kept _ _ _ _ (records_kept_search_vertex (cache_after r1) vp2)
                  (find_after_search_vertex c vp1)) as H1. fold r1 r2 in H1.
    assert (Hrefs : fst (value r2) <> fst (value r1)).
    { intros E. rewrite E in H2.
      destruct (find_Some _ _ _ H1) as (k & o & Hk & Hc1).
      destruct (find_Some _ _ _ H2) as (k' & o' & Hk' & Hc2').
      rewrite Hk in Hk'. injection Hk' as <- <-.
      unfold vertex_key_eq in Hc1, Hc2'.
      apply vertex_program_compare_eq in Hc1, Hc2'. subst k.
      rewrite Hc2', vertex_program_compare_refl in Hne. discriminate. }
    split; [exact Hrefs|]. intros E. apply Hrefs.
    apply (vertex_identity_injective _ _ _ Hnd); [| |exact E];
      eapply find_Some_lt; eassumption.
  - intros Hne r1 r2.
    assert (Hr2 : reachable (cache_after r2)).
    { subst r2 r1. rewrite <- !cache_after_resolve_fragment. now do 2 apply reachable_perform. }
    assert (Hc2 : stage_program_count (cache_after r2) <= 2 ^ 32).
    { pose proof (stage_program_count_search_fragment c mem1 fp1).
      pose proof (stage_program_count_search_fragment (cache_after r1) mem2 fp2).
      fold r1 in H, H0. fold r2 in H0. lia. }
    pose proof (reachable_ids_unique _ Hr2 Hc2) as Hnd.
    pose proof (find_after_search_fragment (cache_after r1) mem2 fp2) as H2. fold r2 in H2.
    pose proof (find_fragment_kept _ _ _ _
                  (records_kept_search_fragment (cache_after r1) mem2 fp2)
                  (find_after_search_fragment c mem1 fp1)) as H1. fold r1 r2 in H1.
    assert (Hrefs : fst (value r2) <> fst (value r1)).
    { intros E. rewrite E in H2.
      destruct (find_Some _ _ _ H1) as (k & o & Hk & Hc1).
      destruct (find_Some _ _ _ H2) as (k' & o' & Hk' & Hc2').
      rewrite Hk in Hk'. injection Hk' as <- <-.
      unfold fragment_key_eq in Hc1, Hc2'.
      apply fragment_program_compare_sym in Hc1.
      rewrite (fragment_program_compare_trans _ _ _ Hc1 Hc2') in Hne. discriminate. }
    split; [exact Hrefs|]. intros E. apply Hrefs.
    apply (fragment_identity_injective _ _ _ Hnd); [| |exact E];
      eapply find_Some_lt; eassumption.
Qed.

(** X9. While a history leaves fewer than 2^32 stage programs in the cache,
    the pipeline table only grows at its end: every pipeline stored at
    some point is still there afterwards, in the same slot and unchanged,
    so a reference returned earlier stays good; and [build_pipeline] was
    invoked exactly once per stored pipeline. *)
Theorem stored_pipelines_are_never_replaced (ops1 ops2 : list operation) :
  let c1 := fst (run ops1 init) in
  let c2 := fst (run (ops1 ++ ops2) init) in
  stage_program_count c2 < 2 ^ 32 ->
  (exists more, m_storage c2 = m_storage c1 ++ more)
  /\ (forall slot, (slot < length (m_storage c1))%nat ->
        pipeline_at c2 slot = pipeline_at c1 slot)
  /\ build_count (snd (run (ops1 ++ ops2) init)) = length (m_storage c2).
Proof.
  intros c1 c2 Hlt.
  assert (Hm1 : identities_minted c1).
  { apply reachable_identities_minted. now exists ops1. }
  assert (Hc2 : c2 = fst (run ops2 c1)) by (subst c1 c2; now rewrite run_app).
  destruct (run_appends ops2 c1 Hm1) as (more & Hmore & _); [now rewrite <- Hc2|].
  rewrite <- Hc2 in Hmore.
  split; [now exists more|]. split.
  - intros slot Hslot. unfold pipeline_at. rewrite Hmore. now apply second_app_old.
  - destruct (run_appends (ops1 ++ ops2) init identities_minted_init Hlt) as (all & Hall & Hb).
    fold c2 in Hall. now rewrite Hb, Hall.
Qed.

(** X10. After any history the vertex map holds exactly the different word
    sequences that were resolved, each one once, and
    [recompile_vertex_program] was invoked exactly once for each of them. *)
Theorem each_vertex_binary_is_compiled_once (ops : list operation) :
  let c := fst (run ops init) in
  NoDup (keys (m_vertex_shader_cache c))
  /\ (forall binary, In binary (keys (m_vertex_shader_cache c))
                     <-> In binary (vertex_binaries ops))
  /\ recompile_vertex_count (snd (run ops init)) = length (keys (m_vertex_shader_cache c)).
Proof.
  intros c. split; [|split].
  - apply distinct_keys_NoDup. apply reachable_distinct. now exists ops.
  - intros binary.
    pose proof (history_vertex ops binary) as Hh. fold c in Hh. unfold vertex_resolved in Hh.
    split.
    + intros Hin.
      assert (Hfound : find (vertex_key_eq binary) (m_vertex_shader_cache c) <> None).
      { apply found_iff. exists binary. split; [exact Hin|].
        apply vertex_program_compare_refl. }
      destruct (find (vertex_key_eq binary) (m_vertex_shader_cache c)); [|congruence].
      cbn [found] in Hh. apply existsb_exists in Hh. destruct Hh as (b & Hb & E).
      apply vertex_program_compare_eq in E. now subst b.
    + intros Hin.
      assert (Hres : existsb (fun b => vertex_program_compare b binary) (vertex_binaries ops)
                     = true).
      { apply existsb_exists. exists binary. split; [exact Hin|].
        apply vertex_program_compare_refl. }
      rewrite Hres in Hh.
      assert (Hfound : find (vertex_key_eq binary) (m_vertex_shader_cache c) <> None)
        by (destruct (find _ _); [discriminate | discriminate Hh]).
      apply found_iff in Hfound. destruct Hfound as (k & Hk & E).
      apply vertex_program_compare_eq in E. now subst k.
  - unfold keys. rewrite length_map. apply run_compiles.
Qed.

(** X11. After any history no two keys of the fragment map compare equal,
    every key is the copy of the scanned bytes of a binary that was
    resolved, every binary that was resolved compares equal to a key, and
    [recompile_fragment_program] was invoked exactly once per key. *)
Theorem each_fragment_content_is_compiled_once (ops : list operation) :
  let c := fst (run ops init) in
  distinct_keys fragment_key_compare (m_fragment_shader_cache c)
  /\ (forall k, In k (keys (m_fragment_shader_cache c)) ->
        exists b, In b (fragment_binaries ops) /\ k = valid_bytes b)
  /\ (forall b, In b (fragment_binaries ops) ->
        exists k, In k (keys (m_fragment_shader_cache c))
                  /\ fragment_program_compare (heap_view k) b = true)
  /\ recompile_fragment_count (snd (run ops init))
     = length (keys (m_fragment_shader_cache c)).
Proof.
  intros c. split; [|split; [|split]].
  - apply reachable_distinct. now exists ops.
  - intros k Hin. now apply fragment_keys_of_history.
  - intros b Hin.
    pose proof (history_fragment ops b) as Hh. fold c in Hh. unfold fragment_resolved in Hh.
    assert (Hres : existsb (fun b' => fragment_program_compare b' b) (fragment_binaries ops)
                   = true).
    { apply existsb_exists. exists b. split; [exact Hin|].
      apply fragment_program_compare_refl. }
    rewrite Hres in Hh.
    assert (Hfound : find (fragment_key_eq b) (m_fragment_shader_cache c) <> None)
      by (destruct (find _ _); [discriminate | discriminate Hh]).
    now apply found_iff in Hfound.
  - unfold keys. rewrite length_map. apply run_compiles.
Qed.

(** X12. Two draws with properties that compare unequal never share a
    pipeline, whatever their binaries: the second call returns another
    slot than the first, and the pipeline the first call returned is still
    in its slot, unchanged, after the second. *)
Theorem different_properties_different_pipelines (c : t) (mem1 mem2 : memory)
    (vp1 vp2 : RSXVertexProgram) (fp1 fp2 : RSXFragmentProgram)
    (props1 props2 : pipeline_properties) (args1 args2 : extra_args) :
  properties_eqb props1 props2 = false ->
  let r1 := getGraphicPipelineState mem1 vp1 fp1 props1 args1 c in
  let r2 := getGraphicPipelineState mem2 vp2 fp2 props2 args2 (cache_after r1) in
  value r2 <> value r1
  /\ pipeline_at (cache_after r2) (value r1) = pipeline_at (cache_after r1) (value r1).
Proof.
  intros Hne r1 r2.
  assert (Hprops : props1 <> props2).
  { intros E. apply properties_eqb_eq in E. congruence. }
  destruct (getGraphicPipelineState_slot c mem1 vp1 fp1 props1 args1)
    as (v1 & f1 & o1 & _ & _ & Hs1).
  destruct (getGraphicPipelineState_slot (cache_after r1) mem2 vp2 fp2 props2 args2)
    as (v2 & f2 & o2 & _ & _ & Hs2).
  fold r1 in Hs1. fold r1 r2 in Hs2.
  pose proof (getGraphicPipelineState_keeps_other_properties (cache_after r1) mem2 vp2 fp2
                props2 args2 _ _ _ Hs1 Hprops) as Hkept.
  fold r2 in Hkept. split.
  - intros E. rewrite E in Hs2. rewrite Hkept in Hs2.
    assert (Hk : draw_key (cache_after r1) v1 f1 props1
                 = draw_key (cache_after r2) v2 f2 props2) by congruence.
    apply (f_equal properties) in Hk. now cbn in Hk.
  - unfold pipeline_at.
    now rewrite (nth_error_second _ _ _ _ _ Hkept), (nth_error_second _ _ _ _ _ Hs1).
Qed.

(** X13. [get_shader_program] over a history: for a binary whose content
    was never resolved it throws and leaves the cache as it was; for a
    binary whose content was resolved it returns a reference to a record
    that the fragment map stores under a copy of exactly the scanned bytes
    of the binary asked for. *)
Theorem get_shader_program_of_history (ops : list operation) (mem : memory)
    (rsx_fp : RSXFragmentProgram) :
  let c := fst (run ops init) in
  (fragment_resolved ops (vm_base mem (addr rsx_fp)) = false ->
   get_shader_program mem rsx_fp c
   = (thrown "Trying to get unknow shader program", c, []))
  /\ (fragment_resolved ops (vm_base mem (addr rsx_fp)) = true ->
      exists it record,
        get_shader_program mem rsx_fp c = (returned it, c, [])
        /\ nth_error (m_fragment_shader_cache c) it
           = Some (valid_bytes (vm_base mem (addr rsx_fp)), record)).
Proof.
  cbv zeta. rewrite history_fragment. unfold get_shader_program, bind, this.
  destruct (find _ _) as [it|] eqn:Hf; cbn [found]; split; try discriminate.
  - intros _. destruct (find_Some _ _ _ Hf) as (k & record & Hn & Hk).
    exists it, record. split; [reflexivity|]. rewrite Hn. do 2 f_equal.
    assert (Hin : In k (keys (m_fragment_shader_cache (fst (run ops init))))).
    { apply nth_error_In in Hn. now apply (in_map fst) in Hn. }
    destruct (fragment_keys_of_history ops k Hin) as (b & _ & ->).
    unfold fragment_key_eq in Hk. apply valid_bytes_compare in Hk. rewrite <- Hk.
    symmetry. apply valid_bytes_compare, fragment_program_compare_copy.
  - reflexivity.
Qed.

(** X14. What the upload depends on: for a resolved fragment program, two
    guest memories that hold the same program at its address and the same
    16 bytes at every recorded constant, at guest address
    [addr + (u32) offset] in 32-bit arithmetic, give the same upload,
    whatever else they hold. *)
Theorem upload_reads_only_the_constants (c : t) (mem mem' : memory)
    (fragment_program : RSXFragmentProgram) (dst_buffer : span) (it : nat) :
  get_shader_program mem fragment_program c = (returned it, c, []) ->
  fragment_program_compare (vm_base mem (addr fragment_program))
    (vm_base mem' (addr fragment_program)) = true ->
  (forall offset i,
     In offset (FragmentConstantOffsetCache (fragment_program_at c it)) ->
     (i < 16)%nat ->
     mem (u32 (addr fragment_program + u32 offset) + Z.of_nat i)
     = mem' (u32 (addr fragment_program + u32 offset) + Z.of_nat i)) ->
  fill_fragment_constans_buffer dst_buffer mem' fragment_program c
  = fill_fragment_constans_buffer dst_buffer mem fragment_program c.
Proof.
  intros Hget Hcmp Hsame.
  assert (Hf : find (fragment_key_eq (vm_base mem (addr fragment_program)))
                 (m_fragment_shader_cache c) = Some it).
  { unfold get_shader_program, bind, this in Hget.
    destruct (find _ _) as [j|]; cbn in Hget; [|discriminate].
    now injection Hget as ->. }
  unfold fill_fragment_constans_buffer, bind, this.
  rewrite <- (find_fragment_congr _ _ _ Hcmp), Hf.
  rewrite (upload_facts.fill_loop_ext mem mem'); [reflexivity|].
  intros o Hin. apply upload_facts.loadu_ext. intros i Hi. now apply Hsame.
Qed.

End further.

(** * The further properties on the two draws *)

Module further_examples.
Import toy_instances scenario.

(** The key of the first draw, and the key with its identities exchanged. *)
Lemma pipeline_key_hash_agrees_with_compare_witness :
  pipeline_key_compare first_draw_key first_draw_key = true
  /\ pipeline_key_hash (fun x => x * 31) (fun p => p + 5) first_draw_key_exchanged
     = pipeline_key_hash (fun x => x * 31) (fun p => p + 5) first_draw_key
  /\ pipeline_key_compare first_draw_key_exchanged first_draw_key = false.
Proof.
  split; [reflexivity|].
  destruct (pipeline_key_hash_agrees_with_compare (backend := backend)
              (fun x => x * 31) (fun p => p + 5) first_draw_key first_draw_key eq_refl)
    as (_ & Hhash & Hcmp).
  split; [exact Hhash | exact Hcmp].
Defined.

(** The constant of the first draw. *)
Lemma upload_shuffle_is_an_involution_witness :
  _mm_shuffle_epi8
    (_mm_shuffle_epi8 (firstn 16 (skipn 16 fragment_bytes)) program_state_cache.mask)
    program_state_cache.mask
  = firstn 16 (skipn 16 fragment_bytes).
Proof.
  apply (upload_shuffle_is_an_involution (firstn 16 (skipn 16 fragment_bytes))).
  reflexivity.
Defined.

(** The lane 00 00 3F 80 of the trailing constant is uploaded as 1.0. *)
Lemma upload_lane_is_big_endian_with_halves_exchanged_witness :
  be32 (lane 0 (skipn 16 tail_bytes)) = 0x00003F80
  /\ le32 (lane 0 (_mm_shuffle_epi8 (skipn 16 tail_bytes) program_state_cache.mask))
     = 0x3F800000.
Proof.
  split; [reflexivity|].
  rewrite (upload_lane_is_big_endian_with_halves_exchanged (skipn 16 tail_bytes) 0).
  - reflexivity.
  - reflexivity.
  - repeat constructor; discriminate.
  - lia.
Defined.

(** The first draw requested again, with the moved copy of its fragment
    program. *)
Lemma cached_draw_has_no_effect_witness :
  let r := getGraphicPipelineState guest_memory_moved vertex_shader fragment_shader_moved
             7 tt after_first_draw in
  pipeline_cached guest_memory_moved vertex_shader fragment_shader_moved 7 after_first_draw
  = true
  /\ value r = O /\ cache_after r = after_first_draw /\ events r = [].
Proof.
  destruct (cached_draw_has_no_effect (decoder := decoder) (backend := backend)
              after_first_draw guest_memory_moved vertex_shader fragment_shader_moved 7 tt)
    as [Hserved Hsilent].
  cbv zeta. split; [apply Hsilent; reflexivity|].
  destruct (Hserved eq_refl) as (Hc & He & _).
  split; [reflexivity|]. split; [exact Hc | exact He].
Defined.

(** The stage programs of the first draw, resolved on an empty cache and
    looked up again after the second draw. *)
Lemma resolved_program_is_found_again_witness :
  (let c' := fst (run [second_draw] (cache_after (search_vertex_program vertex_shader init))) in
   search_vertex_program vertex_shader c' = ((O, true), c', []))
  /\ (let c' := fst (run [second_draw]
                       (cache_after (search_fragment_program guest_memory fragment_shader
                                       init))) in
      get_shader_program guest_memory_moved fragment_shader_moved c' = (returned O, c', [])).
Proof.
  destruct (resolved_program_is_found_again (decoder := decoder) (backend := backend)
              init [second_draw] vertex_shader vertex_shader
              guest_memory guest_memory_moved fragment_shader fragment_shader_moved
              eq_refl eq_refl) as [(Hv & _) (_ & Hf & _)].
  split; [exact Hv | exact Hf].
Defined.

(** The fragment program of the first draw has one constant: 16 bytes at
    an aligned address are taken and overwritten, 16 bytes at an address
    that is only 4-byte aligned fault, 15 bytes are refused. *)
Lemma constants_buffer_size_is_the_least_destination_witness :
  get_fragment_constants_buffer_size guest_memory fragment_shader after_first_draw
  = (16, after_first_draw, [])
  /\ fill_fragment_constans_buffer (aligned_destination (repeat 9 16)) guest_memory
       fragment_shader after_first_draw
     = (returned [0x80; 0x3F; 0; 0;  0; 0x40; 0; 0;  0x40; 0x40; 0; 0;  0x80; 0x40; 0; 0],
        after_first_draw, [])
  /\ fill_fragment_constans_buffer (misaligned_destination (repeat 9 16)) guest_memory
       fragment_shader after_first_draw
     = (general_protection_fault, after_first_draw, [])
  /\ fill_fragment_constans_buffer (aligned_destination (repeat 9 15)) guest_memory
       fragment_shader after_first_draw
     = (contract_violation, after_first_draw, []).
Proof.
  assert (Hint : Z.of_nat (length (FragmentConstantOffsetCache
                                     (fragment_program_at after_first_draw 0))) * 16
                 <= INT_MAX) by (change (16 <= INT_MAX); unfold INT_MAX; lia).
  split; [reflexivity|]. split; [|split].
  - refine (proj1 (constants_buffer_size_is_the_least_destination
                     (decoder := decoder) (backend := backend) after_first_draw guest_memory
                     fragment_shader (aligned_destination (repeat 9 16)) O eq_refl Hint)
              _ _); reflexivity.
  - refine (proj1 (proj2 (constants_buffer_size_is_the_least_destination
                            (decoder := decoder) (backend := backend) after_first_draw
                            guest_memory fragment_shader
                            (misaligned_destination (repeat 9 16)) O eq_refl Hint)) _ _ _).
    + reflexivity.
    + change (4 <> 0). discriminate.
    + change ([16] <> []). discriminate.
  - refine (proj2 (proj2 (constants_buffer_size_is_the_least_destination
                            (decoder := decoder) (backend := backend) after_first_draw
                            guest_memory fragment_shader
                            (aligned_destination (repeat 9 15)) O eq_refl Hint)) _).
    change (15 < 16). lia.
Defined.

(** The second draw after the first: a new vertex shader, the known
    fragment program. *)
Lemma returned_pipeline_was_built_from_the_request_witness :
  reachable after_first_draw
  /\ stage_program_count after_first_draw + 2 <= 2 ^ 32
  /\ let r := getGraphicPipelineState guest_memory_moved {| data := [4; 5] |}
                fragment_shader_moved 7 tt after_first_draw in
     exists v f args',
       search_vertex_program {| data := [4; 5] |} (cache_after r)
       = ((v, true), cache_after r, [])
       /\ get_shader_program guest_memory_moved fragment_shader_moved (cache_after r)
          = (returned f, cache_after r, [])
       /\ pipeline_at (cache_after r) (value r)
          = build_pipeline (vertex_program_at (cache_after r) v)
              (fragment_program_at (cache_after r) f) 7 args'.
Proof.
  assert (Hr : reachable after_first_draw) by (exists [first_draw]; reflexivity).
  assert (Hle : stage_program_count after_first_draw + 2 <= 2 ^ 32)
    by (change (2 + 2 <= 2 ^ 32); lia).
  split; [exact Hr|]. split; [exact Hle|].
  exact (returned_pipeline_was_built_from_the_request (decoder := decoder)
           (backend := backend) after_first_draw guest_memory_moved {| data := [4; 5] |}
           fragment_shader_moved 7 tt Hr Hle).
Defined.

(** On an empty cache: two vertex shaders, and the fragment program of the
    first draw with the longer one. *)
Lemma different_binaries_have_different_identities_witness :
  (let r1 := search_vertex_program vertex_shader init in
   let r2 := search_vertex_program {| data := [4; 5] |} (cache_after r1) in
   vp_id (vertex_program_at (cache_after r2) (fst (value r2)))
   <> vp_id (vertex_program_at (cache_after r2) (fst (value r1))))
  /\ (let r1 := search_fragment_program guest_memory fragment_shader init in
      let r2 := search_fragment_program guest_memory_longer fragment_shader_longer
                  (cache_after r1) in
      fp_id (fragment_program_at (cache_after r2) (fst (value r2)))
      <> fp_id (fragment_program_at (cache_after r2) (fst (value r1)))).
Proof.
  assert (Hle : stage_program_count init + 2 <= 2 ^ 32) by (change (0 + 2 <= 2 ^ 32); lia).
  destruct (different_binaries_have_different_identities (decoder := decoder)
              (backend := backend) init vertex_shader {| data := [4; 5] |}
              guest_memory guest_memory_longer fragment_shader fragment_shader_longer
              reachable_init Hle) as (_ & Hv & Hf).
  split; [exact (proj2 (Hv eq_refl)) | exact (proj2 (Hf eq_refl))].
Defined.

(** The pipeline of the first draw is still in slot 0 after the second. *)
Lemma stored_pipelines_are_never_replaced_witness :
  pipeline_at (fst (run ([first_draw] ++ [second_draw]) init)) 0 = (0, 1, 7)
  /\ build_count (snd (run ([first_draw] ++ [second_draw]) init)) = 2%nat.
Proof.
  assert (Hlt : stage_program_count (fst (run ([first_draw] ++ [second_draw]) init)) < 2 ^ 32)
    by (change (3 < 2 ^ 32); lia).
  destruct (stored_pipelines_are_never_replaced (decoder := decoder) (backend := backend)
              [first_draw] [second_draw] Hlt) as (_ & Hkept & Hbuilt).
  split.
  - rewrite Hkept; [reflexivity|]. change (0 < 1)%nat. lia.
  - rewrite Hbuilt. reflexivity.
Defined.

(** Two draws with two vertex shaders. *)
Lemma each_vertex_binary_is_compiled_once_witness :
  In [4; 5] (keys (m_vertex_shader_cache (fst (run [first_draw; second_draw] init))))
  /\ recompile_vertex_count (snd (run [first_draw; second_draw] init)) = 2%nat.
Proof.
  destruct (each_vertex_binary_is_compiled_once (decoder := decoder) (backend := backend)
              [first_draw; second_draw]) as (_ & Hin & Hcount).
  split.
  - apply Hin. right. left. reflexivity.
  - rewrite Hcount. reflexivity.
Defined.

(** Two draws with the same fragment program at two addresses. *)
Lemma each_fragment_content_is_compiled_once_witness :
  (exists b, In b (fragment_binaries [first_draw; second_draw])
             /\ firstn 48 fragment_bytes = valid_bytes b)
  /\ (exists k, In k (keys (m_fragment_shader_cache
                              (fst (run [first_draw; second_draw] init))))
                /\ fragment_program_compare (heap_view k)
                     (vm_base guest_memory_moved (addr fragment_shader_moved)) = true)
  /\ recompile_fragment_count (snd (run [first_draw; second_draw] init)) = 1%nat.
Proof.
  destruct (each_fragment_content_is_compiled_once (decoder := decoder) (backend := backend)
              [first_draw; second_draw]) as (_ & Hkeys & Hresolved & Hcount).
  split; [|split].
  - apply Hkeys. left. reflexivity.
  - apply Hresolved. right. left. reflexivity.
  - rewrite Hcount. reflexivity.
Defined.

(** The binaries of the first draw, drawn with properties 7 and then 8. *)
Lemma different_properties_different_pipelines_witness :
  let r1 := getGraphicPipelineState guest_memory vertex_shader fragment_shader 7 tt init in
  let r2 := getGraphicPipelineState guest_memory vertex_shader fragment_shader 8 tt
              (cache_after r1) in
  value r1 = O /\ value r2 <> O /\ pipeline_at (cache_after r2) 0 = (0, 1, 7).
Proof.
  destruct (different_properties_different_pipelines (decoder := decoder) (backend := backend)
              init guest_memory guest_memory vertex_shader vertex_shader
              fragment_shader fragment_shader 7 8 tt tt eq_refl) as [Hslot Hkept].
  cbv zeta. split; [reflexivity|]. split; [exact Hslot|].
  etransitivity; [exact Hkept | reflexivity].
Defined.

(** After the first draw: the moved copy is found under the 48 scanned
    bytes, the longer program is not known. *)
Lemma get_shader_program_of_history_witness :
  get_shader_program guest_memory_longer fragment_shader_longer after_first_draw
  = (thrown "Trying to get unknow shader program", after_first_draw, [])
  /\ exists it record,
       get_shader_program guest_memory_moved fragment_shader_moved after_first_draw
       = (returned it, after_first_draw, [])
       /\ nth_error (m_fragment_shader_cache after_first_draw) it
          = Some (valid_bytes (vm_base guest_memory_moved (addr fragment_shader_moved)),
                  record).
Proof.
  split.
  - apply (proj1 (get_shader_program_of_history (decoder := decoder) (backend := backend)
                    [first_draw] guest_memory_longer fragment_shader_longer)).
    reflexivity.
  - apply (proj2 (get_shader_program_of_history (decoder := decoder) (backend := backend)
                    [first_draw] guest_memory_moved fragment_shader_moved)).
    reflexivity.
Defined.

(** The program with the trailing constant, uploaded from a memory that
    differs behind the constant. *)
Lemma upload_reads_only_the_constants_witness :
  memory_with_other_tail (16384 + 32) <> memory_at_resolution (16384 + 32)
  /\ fill_fragment_constans_buffer (aligned_destination (repeat 0 16))
       memory_with_other_tail tail_shader after_tail_resolution
     = fill_fragment_constans_buffer (aligned_destination (repeat 0 16))
         memory_at_resolution tail_shader after_tail_resolution.
Proof.
  split; [discriminate|].
  apply (upload_reads_only_the_constants (decoder := decoder) (backend := backend)
           after_tail_resolution memory_at_resolution memory_with_other_tail tail_shader
           (aligned_destination (repeat 0 16)) O eq_refl eq_refl).
  intros offset i Hin Hi. change (In offset [16]) in Hin.
  destruct Hin as [<-|[]].
  do 16 (destruct i as [|i]; [reflexivity|]). lia.
Defined.

End further_examples.
